(** * QuadraVerb: a shallow embedding of the reverb processor

    The processor ([QuadraVerbProcessor], an AudioWorklet) is embedded as
    pure functions over an explicit engine state.

    Numbers.  A JavaScript number is modelled by [num]: a real, one of the
    two infinities, or NaN.  Arithmetic is exact on the reals (binary64
    rounding, overflow and the sign of zero are not modelled; a zero
    divisor is read as +0), and follows IEEE 754 on the special values.
    Reading a typed array outside its bounds yields [undefined], which
    every use in this program coerces to NaN; writing outside the bounds
    is ignored.  The rounding of stored samples to binary32 is not
    modelled either.

    The reals are those of the standard library: the program calls
    [Math.sin], [Math.exp], [Math.pow] and [Math.sqrt], so its values are
    evaluated by rewriting ([floor_eq], [rem_int], [as_index_IZR] below)
    rather than by computation.

    [Math.random] is a stream [rnd : nat -> R] handed to the constructor
    and to every parameter update. *)

From Stdlib Require Import Reals Lra Lia ZArith List Bool.
Import ListNotations.

Open Scope R_scope.

(** ** JavaScript numbers *)

Inductive num : Type :=
| Num (x : R)
| PInf
| NInf
| NaN.

Definition is_finite (a : num) : Prop :=
  match a with Num _ => True | _ => False end.

Module JS.

Definition neg (a : num) : num :=
  match a with
  | Num x => Num (- x)
  | PInf => NInf
  | NInf => PInf
  | NaN => NaN
  end.

Definition add (a b : num) : num :=
  match a, b with
  | NaN, _ | _, NaN => NaN
  | Num x, Num y => Num (x + y)
  | PInf, NInf | NInf, PInf => NaN
  | PInf, _ | _, PInf => PInf
  | NInf, _ | _, NInf => NInf
  end.

Definition sub (a b : num) : num := add a (neg b).

(** Sign of a real as seen by a product with an infinity. *)
Definition scale_inf (pos : bool) (x : R) : num :=
  if Rlt_dec 0 x then (if pos then PInf else NInf)
  else if Rlt_dec x 0 then (if pos then NInf else PInf)
  else NaN.

Definition mul (a b : num) : num :=
  match a, b with
  | NaN, _ | _, NaN => NaN
  | Num x, Num y => Num (x * y)
  | PInf, Num y => scale_inf true y
  | NInf, Num y => scale_inf false y
  | Num x, PInf => scale_inf true x
  | Num x, NInf => scale_inf false x
  | PInf, PInf | NInf, NInf => PInf
  | PInf, NInf | NInf, PInf => NInf
  end.

(** [a / b].  A real divisor equal to 0 is read as +0, the sign of a
    zero not being modelled: the program's quotient by -0 has the other
    sign.  The one place where this shows is a decay of 0 in the feedback
    gain, 0 for +0 and the cap for -0; the claim on the gain states only
    the range [0, 0.985] there, which holds for either. *)
Definition div (a b : num) : num :=
  match a, b with
  | NaN, _ | _, NaN => NaN
  | Num x, Num y =>
      if Req_dec_T y 0 then scale_inf true x else Num (x / y)
  | Num _, (PInf | NInf) => Num 0
  | PInf, Num y => if Rlt_dec y 0 then NInf else PInf
  | NInf, Num y => if Rlt_dec y 0 then PInf else NInf
  | _, _ => NaN
  end.

(** [gt a b] is the JavaScript test [a > b]. *)
Definition gt (a b : num) : bool :=
  match a, b with
  | Num x, Num y => if Rlt_dec y x then true else false
  | PInf, (Num _ | NInf) => true
  | Num _, NInf => true
  | _, _ => false
  end.

Definition lt (a b : num) : bool := gt b a.

Definition Math_min (a b : num) : num :=
  match a, b with
  | NaN, _ | _, NaN => NaN
  | _, _ => if gt a b then b else a
  end.

Definition Math_max (a b : num) : num :=
  match a, b with
  | NaN, _ | _, NaN => NaN
  | _, _ => if gt b a then b else a
  end.

Definition Math_abs (a : num) : num :=
  match a with
  | Num x => Num (Rabs x)
  | PInf | NInf => PInf
  | NaN => NaN
  end.

Definition Math_floor (a : num) : num :=
  match a with
  | Num x => Num (IZR (Int_part x))
  | _ => a
  end.

Definition ceilZ (x : R) : Z := (- Int_part (- x))%Z.

Definition Math_ceil (a : num) : num :=
  match a with
  | Num x => Num (IZR (ceilZ x))
  | _ => a
  end.

Definition Math_sin (a : num) : num :=
  match a with
  | Num x => Num (sin x)
  | _ => NaN
  end.

Definition Math_exp (a : num) : num :=
  match a with
  | Num x => Num (exp x)
  | PInf => PInf
  | NInf => Num 0
  | NaN => NaN
  end.

Definition Math_sqrt (a : num) : num :=
  match a with
  | Num x => if Rlt_dec x 0 then NaN else Num (sqrt x)
  | PInf => PInf
  | _ => NaN
  end.

(** [Math.pow(10, e)], the only call of [Math.pow] with a variable
    exponent.  On the reals the power is positive for every exponent;
    the program's power underflows to 0 below about 10^-324, a
    difference of rounding size on which no statement relies. *)
Definition pow10 (e : num) : num :=
  match e with
  | Num y => Num (Rpower 10 y)
  | PInf => PInf
  | NInf => Num 0
  | NaN => NaN
  end.

(** [Math.pow(a, 2)]. *)
Definition pow2 (a : num) : num := mul a a.

Definition truncZ (x : R) : Z :=
  if Rle_dec 0 x then Int_part x else (- Int_part (- x))%Z.

(** The remainder operator [%]: the result takes the sign of the
    dividend. *)
Definition rem (a b : num) : num :=
  match a, b with
  | Num x, Num y =>
      if Req_dec_T y 0 then NaN else Num (x - y * IZR (truncZ (x / y)))
  | Num x, (PInf | NInf) => Num x
  | _, _ => NaN
  end.

End JS.

Declare Scope js_scope.
Delimit Scope js_scope with js.
Bind Scope js_scope with num.
Infix "+" := JS.add : js_scope.
Infix "-" := JS.sub : js_scope.
Infix "*" := JS.mul : js_scope.
Infix "/" := JS.div : js_scope.
Notation "- a" := (JS.neg a) : js_scope.
Infix ">?" := JS.gt (at level 70, no associativity) : js_scope.
Infix "<?" := JS.lt (at level 70, no associativity) : js_scope.

Coercion Num : R >-> num.

(** ** Typed arrays *)

Definition Float32Array := list num.

(** [new Float32Array(n)]: [n] zeros.  The lengths passed by the
    constructor are non-negative integers (a negative length, a
    RangeError in JavaScript, does not occur for a positive sample
    rate). *)
Definition new_Float32Array (n : num) : Float32Array :=
  match n with
  | Num x => repeat (Num 0) (Z.to_nat (Int_part x))
  | _ => []
  end.

(** A number addresses an element when it is a non-negative integer. *)
Definition as_index (i : num) : option nat :=
  match i with
  | Num x =>
      let z := Int_part x in
      if Req_dec_T (IZR z) x then
        if (0 <=? z)%Z then Some (Z.to_nat z) else None
      else None
  | _ => None
  end.

(** [a[i]]: [undefined] (here NaN) outside the bounds. *)
Definition f32_get (a : Float32Array) (i : num) : num :=
  match as_index i with
  | Some k => nth k a NaN
  | None => NaN
  end.

Fixpoint list_set {A} (k : nat) (v : A) (l : list A) : list A :=
  match l, k with
  | [], _ => []
  | _ :: t, O => v :: t
  | h :: t, S k' => h :: list_set k' v t
  end.

(** [a[i] = v]: ignored outside the bounds. *)
Definition f32_set (a : Float32Array) (i : num) (v : num) : Float32Array :=
  match as_index i with
  | Some k => list_set k v a
  | None => a
  end.

Definition f32_length (a : Float32Array) : num := Num (INR (length a)).

(** ** Pure helpers of the processor *)

(** [processOnePoleLP(coeff, state, input)] *)
Definition processOnePoleLP (coeff state input : num) : num :=
  (state + coeff * (input - state))%js.

(** [processOnePoleHP(coeff, state, input)] returns [{ output, state }]. *)
Record HPResult := { hp_output : num; hp_state : num }.

Definition processOnePoleHP (coeff state input : num) : HPResult :=
  let output := (input - state)%js in
  {| hp_output := output; hp_state := (state + coeff * output)%js |}.

(** [softClip(x)] *)
Definition softClip (x : num) : num :=
  let threshold : num := Num 1.5 in
  if (x >? threshold)%js then
    (threshold + (x - threshold) / (Num 1 + JS.pow2 ((x - threshold) / Num 0.5)))%js
  else if (x <? - threshold)%js then
    (- threshold + (x + threshold) / (Num 1 + JS.pow2 ((x + threshold) / Num 0.5)))%js
  else x.

(** [onePoleCoeff(cutoffHz, sr)] *)
Definition onePoleCoeff (cutoffHz sr : num) : num :=
  let omega := ((Num 2.0 * Num PI * cutoffHz) / sr)%js in
  (Num 1.0 - JS.Math_exp (- omega))%js.

(** ** [getVintageNoise]

    The generator state is the 31-bit integer left by [& 0x7fffffff].
    The product is exact here, while the program multiplies in binary64,
    which rounds above 2^53, before the mask: the two sequences of
    states part after a few draws.  The statements use the range of the
    state and of the noise only, which the mask and the scaling fix in
    either reading. *)
Definition noise_next (noiseGen : Z) : Z :=
  Z.land (noiseGen * 1103515245 + 12345) 0x7fffffff.

Definition getVintageNoise (noiseGen : Z) : Z * num :=
  let g := noise_next noiseGen in
  (g, ((Num (IZR g) / Num (IZR 0x7fffffff) - Num 0.5) * Num 0.00001)%js).

(** ** [popCount] : the loop [while (n) { count += n & 1; n >>= 1 }]
    follows the binary digits of [n]. *)
Fixpoint popCount_pos (p : positive) : nat :=
  match p with
  | xH => 1
  | xO q => popCount_pos q
  | xI q => S (popCount_pos q)
  end.

Definition popCount (n : N) : nat :=
  match n with
  | N0 => 0
  | Npos p => popCount_pos p
  end.

(** ** The engine state *)

Record Params := mkParams {
  mix : num;
  preDelayMs : num;
  decay : num;
  size : num;
  diffusion : num;
  lowCutHz : num;
  highCutHz : num;
  color : num;
  modRate : num;
  modDepth : num;
  stereoWidth : num;
  vintage : num;
  mode : num
}.

Record ModePreset := mkMode {
  sizeScale : num;
  diffGain : num;
  dampBase : num;
  hpBase : num
}.

Record EarlyDelay := mkEarly {
  ed_buffer : Float32Array;
  ed_size : num;
  ed_gain : num;
  ed_index : num
}.

Record Allpass := mkAllpass {
  ap_buffer : Float32Array;
  ap_size : num;
  ap_index : num;
  ap_gain : num;
  ap_modPhase : num;
  ap_modDepth : num
}.

Record FdnLine := mkLine {
  fl_buffer : Float32Array;
  fl_size : num;
  fl_baseSize : num;
  fl_index : num;
  fl_dampCoeff : num;
  fl_dampState : num;
  fl_hpCoeff : num;
  fl_hpState : num;
  fl_modPhase : num;
  fl_modDepth : num
}.

Record Lfo := mkLfo {
  lfo_phase : num;
  lfo_rate : num;
  lfo_amp : num
}.

Record OnePole := mkOnePole {
  op_coeff : num;
  op_stateL : num;
  op_stateR : num
}.

Record Engine := mkEngine {
  params : Params;
  maxPreDelay : num;
  preDelayBuffer : Float32Array;
  preDelayIndex : num;
  earlyDelays : list EarlyDelay;
  earlyDelaysR : list EarlyDelay;
  diffusionA : list Allpass;
  diffusionAR : list Allpass;
  diffusionB : list Allpass;
  diffusionBR : list Allpass;
  fdnLines : list FdnLine;
  fdnMatrix : list (list num);
  fdnFeedback : num;
  lfos : list Lfo;
  outputLP : OnePole;
  outputHP : OnePole;
  inputHP : OnePole;
  safetyThreshold : num;
  safetyGain : num;
  noiseGen : Z
}.

Definition mapi {A B} (f : nat -> A -> B) (l : list A) : list B :=
  map (fun ia => f (fst ia) (snd ia)) (combine (seq 0 (length l)) l).

Definition defaultParams : Params :=
  {| mix := Num 0.5; preDelayMs := Num 20; decay := Num 3.0; size := Num 0.7;
     diffusion := Num 0.75; lowCutHz := Num 100; highCutHz := Num 6000;
     color := Num 0.5; modRate := Num 0.5; modDepth := Num 0.3;
     stereoWidth := Num 0.9; vintage := Num 0.3; mode := Num 0 |}.

(** The mode table of [updateInternalParams]: plate, hall, room, ambient. *)
Definition modes : list ModePreset :=
  [ mkMode (Num 0.9) (Num 0.75) (Num 0.88) (Num 0.06);
    mkMode (Num 1.4) (Num 0.7) (Num 0.92) (Num 0.04);
    mkMode (Num 0.5) (Num 0.65) (Num 0.85) (Num 0.08);
    mkMode (Num 2.0) (Num 0.8) (Num 0.95) (Num 0.03) ].

(** [modes[Math.floor(p.mode) % modes.length]]; [None] when the element is
    [undefined], in which case reading [mode.sizeScale] throws. *)
Definition lookup_mode (m : num) : option ModePreset :=
  match as_index (JS.rem (JS.Math_floor m) (Num (INR (length modes)))) with
  | Some k => nth_error modes k
  | None => None
  end.

(** [2000 + (p.color - 0.5) * 8000], then [Math.max(colorCutoff, 200)]:
    the cutoff handed to [onePoleCoeff] for the output colour filter. *)
Definition colorCutoff (p : Params) : num :=
  (Num 2000 + (color p - Num 0.5) * Num 8000)%js.

Definition outputCutoff (p : Params) : num :=
  JS.Math_max (colorCutoff p) (Num 200).

Definition earlyTaps : list (R * R) :=
  [ (5.1, 0.8); (8.7, 0.65); (12.3, 0.55); (17.9, 0.45);
    (22.4, 0.38); (29.6, 0.32); (35.8, 0.25); (41.2, 0.18) ].

Definition diffusionADelays : list R := [142; 107; 379; 277].
Definition diffusionBDelays : list R := [617; 457; 829].
Definition fdnBaseSizes : list R :=
  [1453; 1789; 2099; 2423; 2789; 3167; 3547; 3989].

Definition set_line_buffer (b : Float32Array) (l : FdnLine) : FdnLine :=
  mkLine b (fl_size l) (fl_baseSize l) (fl_index l) (fl_dampCoeff l)
    (fl_dampState l) (fl_hpCoeff l) (fl_hpState l) (fl_modPhase l)
    (fl_modDepth l).

(** [resizeFDNBuffers]: [Math.max(...)] of the doubled base sizes, and a
    larger zeroed buffer, holding the old contents, for every line whose
    buffer is shorter. *)
Definition fdnMaxSize (ls : list FdnLine) : num :=
  fold_left (fun m l => JS.Math_max m (fl_baseSize l * Num 2)%js) ls NInf.

Definition resizeFDNBuffers (ls : list FdnLine) : list FdnLine :=
  let maxSize := fdnMaxSize ls in
  map (fun l =>
         if (f32_length (fl_buffer l) <? maxSize)%js then
           let newBuffer := new_Float32Array maxSize in
           set_line_buffer
             (fl_buffer l ++ skipn (length (fl_buffer l)) newBuffer) l
         else l) ls.

(** [createHadamardMatrix(size)]; [rnd k] is the k-th value drawn from
    [Math.random]. *)
Definition hadamardSign (i j : nat) : num :=
  if Nat.odd (popCount (N.land (N.of_nat i) (N.of_nat j)))
  then Num (-1) else Num 1.

Definition createHadamardMatrix (rnd : nat -> R) (n : nat) : list (list num) :=
  let scale := (Num 1.0 / JS.Math_sqrt (Num (INR n)))%js in
  map (fun i =>
         map (fun j =>
                ((hadamardSign i j * scale)
                 * (Num 0.95 + Num (rnd (i * n + j)%nat) * Num 0.1))%js)
             (seq 0 n))
      (seq 0 n).

Section Processor.

(** [sampleRate] of the AudioWorkletGlobalScope. *)
Variable sampleRate : R.

Let sr : num := Num sampleRate.

Definition mkEarlyDelay (scaleMs scaleGain : option R) (tap : R * R) : EarlyDelay :=
  let delayMs : num :=
    match scaleMs with
    | Some k => (Num (fst tap) * Num k)%js
    | None => Num (fst tap)
    end in
  let n := JS.Math_ceil (sr * delayMs / Num 1000)%js in
  {| ed_buffer := new_Float32Array (n + Num 1)%js;
     ed_size := n;
     ed_gain := match scaleGain with
                | Some k => (Num (snd tap) * Num k)%js
                | None => Num (snd tap)
                end;
     ed_index := Num 0 |}.

Definition mkDiffuser (stretch : option R) (gain : R) (rnd : nat -> R)
           (i : nat) (sz : R) : Allpass :=
  let n : num :=
    match stretch with
    | Some k => JS.Math_floor (Num sz * Num k)%js
    | None => Num sz
    end in
  {| ap_buffer := new_Float32Array (n + Num 1)%js;
     ap_size := n;
     ap_index := Num 0;
     ap_gain := Num gain;
     ap_modPhase := (Num (rnd i) * Num PI * Num 2)%js;
     ap_modDepth := Num 0 |}.

Definition mkFdnLine (i : nat) (baseSize : R) : FdnLine :=
  {| fl_buffer := new_Float32Array (Num 8192);
     fl_size := Num baseSize;
     fl_baseSize := Num baseSize;
     fl_index := Num 0;
     fl_dampCoeff := Num 0.9;
     fl_dampState := Num 0;
     fl_hpCoeff := Num 0.05;
     fl_hpState := Num 0;
     fl_modPhase := ((Num (INR i) / Num 8) * Num PI * Num 2)%js;
     fl_modDepth := Num 0 |}.

(** The constructor up to, and excluding, its final call of
    [updateInternalParams]; [initializeBuffers] is inlined.  The draws
    0..13 of [rnd] seed the diffuser phases, 14..77 perturb the matrix. *)
Definition initialEngine (rnd : nat -> R) : Engine :=
  let maxPre := JS.Math_floor (sr * Num 0.2)%js in
  {| params := defaultParams;
     maxPreDelay := maxPre;
     preDelayBuffer := new_Float32Array maxPre;
     preDelayIndex := Num 0;
     earlyDelays := map (mkEarlyDelay None None) earlyTaps;
     earlyDelaysR := map (mkEarlyDelay (Some 1.07) (Some 0.93)) earlyTaps;
     diffusionA := mapi (mkDiffuser None 0.7 rnd) diffusionADelays;
     diffusionAR :=
       mapi (mkDiffuser (Some 1.11) 0.68 (fun k => rnd (4 + k)%nat))
            diffusionADelays;
     diffusionB :=
       mapi (mkDiffuser None 0.6 (fun k => rnd (8 + k)%nat)) diffusionBDelays;
     diffusionBR :=
       mapi (mkDiffuser (Some 1.13) 0.58 (fun k => rnd (11 + k)%nat))
            diffusionBDelays;
     fdnLines := resizeFDNBuffers (mapi mkFdnLine fdnBaseSizes);
     fdnMatrix := createHadamardMatrix (fun k => rnd (14 + k)%nat) 8;
     fdnFeedback := Num 0.7;
     lfos := [ mkLfo (Num 0) (Num 0.37) (Num 1.0);
               mkLfo (Num PI * Num 0.5)%js (Num 0.53) (Num 0.8);
               mkLfo (Num PI) (Num 0.71) (Num 0.9);
               mkLfo (Num PI * Num 1.5)%js (Num 0.29) (Num 0.7) ];
     outputLP := mkOnePole (Num 0.8) (Num 0) (Num 0);
     outputHP := mkOnePole (Num 0.05) (Num 0) (Num 0);
     inputHP := mkOnePole (Num 0.05) (Num 0) (Num 0);
     safetyThreshold := Num 0.95;
     safetyGain := Num 1.0;
     noiseGen := 0%Z |}.

(** *** [updateInternalParams] *)

Definition set_line_size (m : num) (l : FdnLine) : FdnLine :=
  mkLine (fl_buffer l) (JS.Math_floor (fl_baseSize l * m)%js) (fl_baseSize l)
    (fl_index l) (fl_dampCoeff l) (fl_dampState l) (fl_hpCoeff l)
    (fl_hpState l) (fl_modPhase l) (fl_modDepth l).

Definition set_line_coeffs (damp hp depth : num) (l : FdnLine) : FdnLine :=
  mkLine (fl_buffer l) (fl_size l) (fl_baseSize l) (fl_index l) damp
    (fl_dampState l) hp (fl_hpState l) (fl_modPhase l) depth.

Definition set_ap_coeffs (gain depth : num) (a : Allpass) : Allpass :=
  mkAllpass (ap_buffer a) (ap_size a) (ap_index a) gain (ap_modPhase a) depth.

Definition set_coeff (c : num) (f : OnePole) : OnePole :=
  mkOnePole c (op_stateL f) (op_stateR f).

Definition set_lfo_rate (r : num) (l : Lfo) : Lfo :=
  mkLfo (lfo_phase l) r (lfo_amp l).

(** [(0.3 + p.size * 1.7) * mode.sizeScale] *)
Definition sizeMultiplier (p : Params) (md : ModePreset) : num :=
  ((Num 0.3 + size p * Num 1.7) * sizeScale md)%js.

(** The average of the line sizes, in seconds. *)
Definition avgDelaySeconds (ls : list FdnLine) : num :=
  ((fold_left (fun sum l => (sum + fl_size l)%js) ls (Num 0)
    / Num (INR (length ls))) / sr)%js.

(** [Math.min(Math.pow(10, -3 * avgDelaySeconds / targetRT60), 0.985)] *)
Definition feedbackGain (ls : list FdnLine) (p : Params) : num :=
  let decaySeconds := decay p in
  let targetRT60 := decaySeconds in
  JS.Math_min (JS.pow10 ((Num (-3) * avgDelaySeconds ls) / targetRT60)%js)
              (Num 0.985).

(** [rnd k] is the k-th value drawn from [Math.random] during the call.
    The result is [None] when the mode lookup throws, which happens
    before any field is written. *)
Definition updateInternalParams (rnd : nat -> R) (st : Engine) : option Engine :=
  let p := params st in
  match lookup_mode (mode p) with
  | None => None
  | Some md =>
      let lines1 := map (set_line_size (sizeMultiplier p md)) (fdnLines st) in
      let diffGain := (diffusion p * diffGain md)%js in
      let dampCutoff := highCutHz p in
      let dampCoeff := (onePoleCoeff dampCutoff sr * dampBase md)%js in
      let hpCutoff := lowCutHz p in
      let hpCoeff := (onePoleCoeff hpCutoff sr * hpBase md)%js in
      let modDepth := (modDepth p * Num 0.5)%js in
      let baseRate := (modRate p * Num 0.003)%js in
      Some
        {| params := p;
           maxPreDelay := maxPreDelay st;
           preDelayBuffer := preDelayBuffer st;
           preDelayIndex := preDelayIndex st;
           earlyDelays := earlyDelays st;
           earlyDelaysR := earlyDelaysR st;
           diffusionA :=
             map (set_ap_coeffs (diffGain * Num 0.7) (modDepth * Num 2))%js
                 (diffusionA st);
           diffusionAR :=
             map (set_ap_coeffs (diffGain * Num 0.68) (modDepth * Num 2))%js
                 (diffusionAR st);
           diffusionB :=
             map (set_ap_coeffs (diffGain * Num 0.6) (modDepth * Num 3))%js
                 (diffusionB st);
           diffusionBR :=
             map (set_ap_coeffs (diffGain * Num 0.58) (modDepth * Num 3))%js
                 (diffusionBR st);
           fdnLines :=
             mapi (fun i =>
                     set_line_coeffs
                       (dampCoeff * (Num 0.95 + Num (rnd i) * Num 0.1))%js
                       hpCoeff (modDepth * Num 5)%js)
                  lines1;
           fdnMatrix := fdnMatrix st;
           fdnFeedback := feedbackGain lines1 p;
           lfos :=
             mapi (fun i =>
                     set_lfo_rate
                       (baseRate * (Num 0.8 + Num (INR i) * Num 0.2))%js)
                  (lfos st);
           outputLP :=
             set_coeff (onePoleCoeff (outputCutoff p) sr) (outputLP st);
           outputHP := outputHP st;
           inputHP :=
             set_coeff (onePoleCoeff hpCutoff sr * Num 0.05)%js (inputHP st);
           safetyThreshold := safetyThreshold st;
           safetyGain := safetyGain st;
           noiseGen := noiseGen st |}
  end.

Definition set_params (p : Params) (st : Engine) : Engine :=
  mkEngine p (maxPreDelay st) (preDelayBuffer st) (preDelayIndex st)
    (earlyDelays st) (earlyDelaysR st) (diffusionA st) (diffusionAR st)
    (diffusionB st) (diffusionBR st) (fdnLines st) (fdnMatrix st)
    (fdnFeedback st) (lfos st) (outputLP st) (outputHP st) (inputHP st)
    (safetyThreshold st) (safetyGain st) (noiseGen st).

(** The message handler: [Object.assign(this.params, e.data.params)],
    given as the merged record, then the recompute.  When the recompute
    throws, the merged parameters stay. *)
Definition onmessage (rnd : nat -> R) (p : Params) (st : Engine) : Engine :=
  let st1 := set_params p st in
  match updateInternalParams rnd st1 with
  | Some st2 => st2
  | None => st1
  end.

(** [new QuadraVerbProcessor()]: the draws 78..85 of [rnd] are those of
    the initial parameter update. *)
Definition construct (rnd : nat -> R) : Engine :=
  let st := initialEngine rnd in
  match updateInternalParams (fun k => rnd (78 + k)%nat) st with
  | Some st1 => st1
  | None => st
  end.

(** *** [processAllpass] *)

(** The linearly interpolated read at [index - size - modAmount], shared
    by the diffusers and the FDN lines. *)
Definition delayedRead (buffer : Float32Array) (index sz modAmount : num) : num :=
  let readPos := (index - sz - modAmount)%js in
  let readIdx := JS.Math_floor readPos in
  let frac := (readPos - readIdx)%js in
  let idx1 := JS.rem (JS.rem readIdx sz + sz)%js sz in
  let idx2 := JS.rem (JS.rem (readIdx + Num 1)%js sz + sz)%js sz in
  (f32_get buffer idx1 * (Num 1 - frac) + f32_get buffer idx2 * frac)%js.

Definition ap_delayed (apf : Allpass) (lfoValue : num) : num :=
  delayedRead (ap_buffer apf) (ap_index apf) (ap_size apf)
              (ap_modDepth apf * lfoValue)%js.

(** Returns the filter after the call and the returned sample. *)
Definition processAllpass (apf : Allpass) (input lfoValue : num) : Allpass * num :=
  let delayed := ap_delayed apf lfoValue in
  let output :=
    (- ap_gain apf * input + delayed
     + ap_gain apf * (input - ap_gain apf * delayed))%js in
  (mkAllpass
     (f32_set (ap_buffer apf) (ap_index apf) (input + ap_gain apf * delayed)%js)
     (ap_size apf)
     (JS.rem (ap_index apf + Num 1)%js (ap_size apf))
     (ap_gain apf) (ap_modPhase apf) (ap_modDepth apf),
   output).

(** [apfs.forEach((apf, idx) => { x = this.processAllpass(apf, x, sel(idx)) })] *)
Fixpoint diffuse (sel : nat -> num) (idx : nat) (apfs : list Allpass) (x : num)
  : list Allpass * num :=
  match apfs with
  | [] => ([], x)
  | apf :: rest =>
      let r := processAllpass apf x (sel idx) in
      let k := diffuse sel (S idx) rest (snd r) in
      (fst r :: fst k, snd k)
  end.

(** *** Early reflections *)

Definition early_read (d : EarlyDelay) : num :=
  let len := f32_length (ed_buffer d) in
  let readIdx := JS.rem (ed_index d - ed_size d + len)%js len in
  (f32_get (ed_buffer d) readIdx * ed_gain d)%js.

Definition early_write (preDelayed : num) (d : EarlyDelay) : EarlyDelay :=
  let len := f32_length (ed_buffer d) in
  mkEarly (f32_set (ed_buffer d) (ed_index d) preDelayed) (ed_size d)
          (ed_gain d) (JS.rem (ed_index d + Num 1)%js len).

Definition early_sum (ds : list EarlyDelay) : num :=
  fold_left (fun acc d => (acc + early_read d)%js) ds (Num 0).

(** *** The feedback delay network *)

Definition fdn_read (lfoVals : list num) (idx : nat) (line : FdnLine) : num :=
  delayedRead (fl_buffer line) (fl_index line) (fl_size line)
              (fl_modDepth line * nth idx lfoVals NaN)%js.

Definition matrixRow (row : list num) (fdnOutputs : list num) : num :=
  fold_left (fun acc col => (acc + nth col row NaN * nth col fdnOutputs NaN)%js)
            (seq 0 8) (Num 0).

Definition applyMatrix (m : list (list num)) (fdnOutputs : list num) : list num :=
  map (fun row => matrixRow (nth row m []) fdnOutputs) (seq 0 8).

(** The value stored in line [idx], with the filter states and the noise
    generator after the step. *)
Record LineWrite := {
  lw_value : num;
  lw_dampState : num;
  lw_hpState : num;
  lw_noiseGen : Z
}.

Definition line_feedback (p : Params) (fdnFeedback fdnInput : num)
           (matrixOut : list num) (idx : nat) (line : FdnLine) (ng : Z)
  : LineWrite :=
  let feedback := (nth idx matrixOut NaN * fdnFeedback)%js in
  let feedback :=
    if (idx <? 4)%nat then (feedback + fdnInput * Num 0.5)%js else feedback in
  let dampState :=
    processOnePoleLP (fl_dampCoeff line) (fl_dampState line) feedback in
  let hp := processOnePoleHP (fl_hpCoeff line) (fl_hpState line) dampState in
  let feedback := (softClip (hp_output hp * Num 1.2) * Num 0.9)%js in
  if (vintage p >? Num 0)%js then
    let n := getVintageNoise ng in
    {| lw_value := (feedback + snd n * vintage p)%js;
       lw_dampState := dampState; lw_hpState := hp_state hp;
       lw_noiseGen := fst n |}
  else
    {| lw_value := feedback;
       lw_dampState := dampState; lw_hpState := hp_state hp;
       lw_noiseGen := ng |}.

Definition write_line (w : LineWrite) (line : FdnLine) : FdnLine :=
  mkLine (f32_set (fl_buffer line) (fl_index line) (lw_value w))
         (fl_size line) (fl_baseSize line)
         (JS.rem (fl_index line + Num 1)%js (fl_size line))
         (fl_dampCoeff line) (lw_dampState w) (fl_hpCoeff line)
         (lw_hpState w) (fl_modPhase line) (fl_modDepth line).

Fixpoint fdn_write (p : Params) (fdnFeedback fdnInput : num)
         (matrixOut : list num) (idx : nat) (lines : list FdnLine) (ng : Z)
  : list FdnLine * Z :=
  match lines with
  | [] => ([], ng)
  | line :: rest =>
      let w := line_feedback p fdnFeedback fdnInput matrixOut idx line ng in
      let k := fdn_write p fdnFeedback fdnInput matrixOut (S idx) rest
                         (lw_noiseGen w) in
      (write_line w line :: fst k, snd k)
  end.

(** *** [process] *)

(** [Math.sin(lfo.phase) * lfo.amp] for [this.lfos[k]]. *)
Definition lfoValue (ls : list Lfo) (k : nat) : num :=
  let l := nth k ls (mkLfo NaN NaN NaN) in
  (JS.Math_sin (lfo_phase l) * lfo_amp l)%js.

(** [lfo.phase += lfo.rate * blockSize], wrapped once past 2 pi. *)
Definition advanceLfo (blockSize : num) (l : Lfo) : Lfo :=
  let phase := (lfo_phase l + lfo_rate l * blockSize)%js in
  mkLfo (if (phase >? Num PI * Num 2)%js then (phase - Num PI * Num 2)%js
         else phase)
        (lfo_rate l) (lfo_amp l).

Definition fdnLfoValues (ls : list Lfo) : list num :=
  [ lfoValue ls 0; lfoValue ls 1; lfoValue ls 2; lfoValue ls 3;
    lfoValue ls 0; lfoValue ls 1; lfoValue ls 2; lfoValue ls 3 ].

(** The delayed values read from the FDN lines. *)
Definition fdnOutputsOf (st : Engine) : list num :=
  mapi (fdn_read (fdnLfoValues (lfos st))) (fdnLines st).

(** Output taps, early reflections and stereo width. *)
Definition wetTaps (p : Params) (fdnOutputs : list num) (earlyL earlyR : num)
  : num * num :=
  let o k := nth k fdnOutputs NaN in
  let wetL := ((o 0%nat + o 2%nat + o 4%nat + o 6%nat) * Num 0.25)%js in
  let wetR := ((o 1%nat + o 3%nat + o 5%nat + o 7%nat) * Num 0.25)%js in
  let wetL := (wetL + earlyL * Num 0.3)%js in
  let wetR := (wetR + earlyR * Num 0.3)%js in
  let mid := ((wetL + wetR) * Num 0.5)%js in
  let side := ((wetL - wetR) * Num 0.5)%js in
  ((mid + side * stereoWidth p)%js, (mid - side * stereoWidth p)%js).

(** Safety limiting of the filtered wet pair. *)
Definition safetyLimit (threshold wetL wetR : num) : num * num :=
  let wetPeak := JS.Math_max (JS.Math_abs wetL) (JS.Math_abs wetR) in
  if (wetPeak >? threshold)%js then
    let reduction := (threshold / wetPeak)%js in
    ((wetL * reduction)%js, (wetR * reduction)%js)
  else (wetL, wetR).

(** Dry/wet mix followed by the final clip. *)
Definition mixAndClip (p : Params) (dry wet : num) : num :=
  let out := (dry * (Num 1 - mix p) + wet * mix p)%js in
  JS.Math_max (Num (-1)) (JS.Math_min (Num 1) out).

(** One iteration of the sample loop. *)
Definition process_sample (st : Engine) (inL0 inR0 : num)
  : Engine * (num * num) :=
  let p := params st in
  let hpL := processOnePoleHP (op_coeff (inputHP st)) (op_stateL (inputHP st)) inL0 in
  let inL := hp_output hpL in
  let hpR := processOnePoleHP (op_coeff (inputHP st)) (op_stateR (inputHP st)) inR0 in
  let inR := hp_output hpR in
  let preDelayTime := JS.Math_floor ((preDelayMs p / Num 1000) * sr)%js in
  let preDelayIdx :=
    JS.rem (preDelayIndex st - preDelayTime + maxPreDelay st)%js
           (maxPreDelay st) in
  let preDelayed := f32_get (preDelayBuffer st) preDelayIdx in
  let earlyL := early_sum (earlyDelays st) in
  let earlyR := early_sum (earlyDelaysR st) in
  let lfo k := lfoValue (lfos st) k in
  let dA :=
    diffuse (fun idx => nth (idx mod 4) [lfo 0; lfo 1; lfo 2; lfo 3]%nat NaN) 0
            (diffusionA st) (preDelayed + earlyL * Num 0.5)%js in
  let dAR :=
    diffuse (fun idx => nth (idx mod 4) [lfo 1; lfo 2; lfo 3; lfo 0]%nat NaN) 0
            (diffusionAR st) (preDelayed + earlyR * Num 0.5)%js in
  let dB :=
    diffuse (fun idx => nth (idx mod 3) [lfo 2; lfo 3; lfo 0]%nat NaN) 0
            (diffusionB st) (snd dA) in
  let dBR :=
    diffuse (fun idx => nth (idx mod 3) [lfo 3; lfo 0; lfo 1]%nat NaN) 0
            (diffusionBR st) (snd dAR) in
  let fdnInput := ((snd dB + snd dBR) * Num 0.5)%js in
  let fdnOutputs := fdnOutputsOf st in
  let matrixOut := applyMatrix (fdnMatrix st) fdnOutputs in
  let fw := fdn_write p (fdnFeedback st) fdnInput matrixOut 0 (fdnLines st)
                      (noiseGen st) in
  let wet := wetTaps p fdnOutputs earlyL earlyR in
  let lpL := processOnePoleLP (op_coeff (outputLP st)) (op_stateL (outputLP st)) (fst wet) in
  let lpR := processOnePoleLP (op_coeff (outputLP st)) (op_stateR (outputLP st)) (snd wet) in
  let lim := safetyLimit (safetyThreshold st) lpL lpR in
  ({| params := p;
      maxPreDelay := maxPreDelay st;
      preDelayBuffer :=
        f32_set (preDelayBuffer st) (preDelayIndex st) ((inL + inR) * Num 0.5)%js;
      preDelayIndex := JS.rem (preDelayIndex st + Num 1)%js (maxPreDelay st);
      earlyDelays := map (early_write preDelayed) (earlyDelays st);
      earlyDelaysR := map (early_write preDelayed) (earlyDelaysR st);
      diffusionA := fst dA;
      diffusionAR := fst dAR;
      diffusionB := fst dB;
      diffusionBR := fst dBR;
      fdnLines := fst fw;
      fdnMatrix := fdnMatrix st;
      fdnFeedback := fdnFeedback st;
      lfos := lfos st;
      outputLP := mkOnePole (op_coeff (outputLP st)) lpL lpR;
      outputHP := outputHP st;
      inputHP := mkOnePole (op_coeff (inputHP st)) (hp_state hpL) (hp_state hpR);
      safetyThreshold := safetyThreshold st;
      safetyGain := safetyGain st;
      noiseGen := snd fw |},
   (mixAndClip p inL (fst lim), mixAndClip p inR (snd lim))).

(** The sample loop over the frames of a block. *)
Fixpoint process_samples (st : Engine) (frames : list (num * num))
  : Engine * list (num * num) :=
  match frames with
  | [] => (st, [])
  | (l, r) :: rest =>
      let s := process_sample st l r in
      let k := process_samples (fst s) rest in
      (fst k, snd s :: snd k)
  end.

Definition set_lfos (ls : list Lfo) (st : Engine) : Engine :=
  mkEngine (params st) (maxPreDelay st) (preDelayBuffer st) (preDelayIndex st)
    (earlyDelays st) (earlyDelaysR st) (diffusionA st) (diffusionAR st)
    (diffusionB st) (diffusionBR st) (fdnLines st) (fdnMatrix st)
    (fdnFeedback st) ls (outputLP st) (outputHP st) (inputHP st)
    (safetyThreshold st) (safetyGain st) (noiseGen st).

(** The block-rate LFO update at the head of [process]. *)
Definition advanceLfos (blockSize : num) (st : Engine) : Engine :=
  set_lfos (map (advanceLfo blockSize) (lfos st)) st.

(** [process(inputs, outputs)]: [input] is [inputs[0]], the list of
    channels; the result holds the two output channels, or [None] when
    the call returns without writing.  A single channel feeds both
    sides.  The output channels have the length of the input block. *)
Definition process (st : Engine) (input : list Float32Array)
  : Engine * option (Float32Array * Float32Array) :=
  match input with
  | [] => (st, None)
  | inputL :: others =>
      let inputR := match others with r :: _ => r | [] => inputL end in
      let blockSize := length inputL in
      let st1 := advanceLfos (Num (INR blockSize)) st in
      let frames :=
        map (fun i => (nth i inputL NaN, nth i inputR NaN)) (seq 0 blockSize) in
      let r := process_samples st1 frames in
      (fst r, Some (map fst (snd r), map snd (snd r)))
  end.

End Processor.

(** ** Vocabulary of the statements *)

(** [approximately tol target a]: [a] is a real within the relative
    tolerance [tol] of [target]. *)
Definition approximately (tol target : R) (a : num) : Prop :=
  match a with
  | Num y => Rabs (y - target) <= tol * target
  | _ => False
  end.

Definition set_color (c : num) (p : Params) : Params :=
  mkParams (mix p) (preDelayMs p) (decay p) (size p) (diffusion p) (lowCutHz p)
    (highCutHz p) c (modRate p) (modDepth p) (stereoWidth p) (vintage p) (mode p).

Definition set_decay (d : num) (p : Params) : Params :=
  mkParams (mix p) (preDelayMs p) d (size p) (diffusion p) (lowCutHz p)
    (highCutHz p) (color p) (modRate p) (modDepth p) (stereoWidth p) (vintage p)
    (mode p).

Definition set_mix (m : num) (p : Params) : Params :=
  mkParams m (preDelayMs p) (decay p) (size p) (diffusion p) (lowCutHz p)
    (highCutHz p) (color p) (modRate p) (modDepth p) (stereoWidth p) (vintage p)
    (mode p).

(** The preset [ambient-wash] of the node wrapper's [loadPreset]. *)
Definition ambientWash : Params :=
  {| mix := Num 0.6; preDelayMs := Num 40; decay := Num 8.0; size := Num 0.95;
     diffusion := Num 0.85; lowCutHz := Num 60; highCutHz := Num 5000;
     color := Num 0.35; modRate := Num 0.3; modDepth := Num 0.45;
     stereoWidth := Num 0.95; vintage := Num 0.35; mode := Num 3 |}.

(** The signal state of an engine: buffer contents, write indices and
    persistent filter states, as opposed to the derived coefficients. *)
Record same_signal_state (a b : Engine) : Prop := {
  same_preDelayBuffer : preDelayBuffer b = preDelayBuffer a;
  same_preDelayIndex : preDelayIndex b = preDelayIndex a;
  same_early_buffers : map ed_buffer (earlyDelays b) = map ed_buffer (earlyDelays a);
  same_early_indices : map ed_index (earlyDelays b) = map ed_index (earlyDelays a);
  same_earlyR_buffers : map ed_buffer (earlyDelaysR b) = map ed_buffer (earlyDelaysR a);
  same_earlyR_indices : map ed_index (earlyDelaysR b) = map ed_index (earlyDelaysR a);
  same_A_buffers : map ap_buffer (diffusionA b) = map ap_buffer (diffusionA a);
  same_A_indices : map ap_index (diffusionA b) = map ap_index (diffusionA a);
  same_AR_buffers : map ap_buffer (diffusionAR b) = map ap_buffer (diffusionAR a);
  same_AR_indices : map ap_index (diffusionAR b) = map ap_index (diffusionAR a);
  same_B_buffers : map ap_buffer (diffusionB b) = map ap_buffer (diffusionB a);
  same_B_indices : map ap_index (diffusionB b) = map ap_index (diffusionB a);
  same_BR_buffers : map ap_buffer (diffusionBR b) = map ap_buffer (diffusionBR a);
  same_BR_indices : map ap_index (diffusionBR b) = map ap_index (diffusionBR a);
  same_fdn_buffers : map fl_buffer (fdnLines b) = map fl_buffer (fdnLines a);
  same_fdn_indices : map fl_index (fdnLines b) = map fl_index (fdnLines a);
  same_fdn_dampStates : map fl_dampState (fdnLines b) = map fl_dampState (fdnLines a);
  same_fdn_hpStates : map fl_hpState (fdnLines b) = map fl_hpState (fdnLines a);
  same_lfo_phases : map lfo_phase (lfos b) = map lfo_phase (lfos a);
  same_outputLP_L : op_stateL (outputLP b) = op_stateL (outputLP a);
  same_outputLP_R : op_stateR (outputLP b) = op_stateR (outputLP a);
  same_outputHP : outputHP b = outputHP a;
  same_inputHP_L : op_stateL (inputHP b) = op_stateL (inputHP a);
  same_inputHP_R : op_stateR (inputHP b) = op_stateR (inputHP a);
  same_noiseGen : noiseGen b = noiseGen a
}.

(** The FDN lines as the constructor leaves them: the eight base sizes, and
    buffers of 8192 samples. *)
Definition constructed_lines (st : Engine) : Prop :=
  map fl_baseSize (fdnLines st) = map Num fdnBaseSizes /\
  map (fun l => Z.of_nat (length (fl_buffer l))) (fdnLines st)
  = repeat 8192%Z 8.

(** The first diffuser of stage A, as the constructor builds it when
    [Math.random] returns 0. *)
Definition firstDiffuser : Allpass := mkDiffuser None 0.7 (fun _ => 0) 0%nat 142.

(** The final clip [Math.max(-1, Math.min(1, x))] on a real. *)
Definition clip (x : R) : R := Rmax (-1) (Rmin 1 x).

(** ** Well-formed engine states

    The shape under which the sample loop stays within the reals: every
    stored sample and coefficient is a real, every index addresses its
    buffer, and every logical length fits its buffer.  The shape bounds
    no magnitude and no coefficient: on exact reals nothing overflows.
    What is stated of the program is stated for the engines reached from
    the constructor under the ranges of the setters ([after_events]
    below), where every filter coefficient is stable. *)

Definition all_finite (l : list num) : Prop := Forall is_finite l.

(** A circular buffer read at [index - size] and advanced modulo [size]. *)
Definition wf_delay (buffer : Float32Array) (index sz : num) : Prop :=
  all_finite buffer /\
  exists n i : Z,
    sz = Num (IZR n) /\ index = Num (IZR i) /\
    (0 < n <= Z.of_nat (length buffer))%Z /\
    (0 <= i < Z.of_nat (length buffer))%Z.

(** An early-reflection tap advances modulo the buffer length. *)
Definition wf_early (d : EarlyDelay) : Prop :=
  all_finite (ed_buffer d) /\ is_finite (ed_gain d) /\
  exists n i : Z,
    ed_size d = Num (IZR n) /\ ed_index d = Num (IZR i) /\
    (0 <= n <= Z.of_nat (length (ed_buffer d)))%Z /\
    (0 <= i < Z.of_nat (length (ed_buffer d)))%Z.

Definition wf_allpass (a : Allpass) : Prop :=
  wf_delay (ap_buffer a) (ap_index a) (ap_size a) /\
  is_finite (ap_gain a) /\ is_finite (ap_modDepth a).

Definition wf_line (l : FdnLine) : Prop :=
  wf_delay (fl_buffer l) (fl_index l) (fl_size l) /\
  is_finite (fl_dampCoeff l) /\ is_finite (fl_dampState l) /\
  is_finite (fl_hpCoeff l) /\ is_finite (fl_hpState l) /\
  is_finite (fl_modDepth l).

Definition wf_lfo (l : Lfo) : Prop :=
  is_finite (lfo_phase l) /\ is_finite (lfo_rate l) /\ is_finite (lfo_amp l).

Definition wf_onePole (f : OnePole) : Prop :=
  is_finite (op_coeff f) /\ is_finite (op_stateL f) /\ is_finite (op_stateR f).

Definition wf_params (p : Params) : Prop :=
  is_finite (mix p) /\ is_finite (stereoWidth p) /\
  (exists v, vintage p = Num v /\ 0 <= v <= 1) /\
  (exists ms, preDelayMs p = Num ms /\ 0 <= ms <= 200).

Record wf_engine (sampleRate : R) (st : Engine) : Prop := {
  wf_the_params : wf_params (params st);
  wf_preDelay :
    all_finite (preDelayBuffer st) /\
    exists i : Z,
      maxPreDelay st = Num (IZR (Int_part (sampleRate * 0.2))) /\
      Z.of_nat (length (preDelayBuffer st)) = Int_part (sampleRate * 0.2) /\
      preDelayIndex st = Num (IZR i) /\
      (0 <= i < Int_part (sampleRate * 0.2))%Z;
  wf_earlyDelays : Forall wf_early (earlyDelays st);
  wf_earlyDelaysR : Forall wf_early (earlyDelaysR st);
  wf_diffusionA : Forall wf_allpass (diffusionA st);
  wf_diffusionAR : Forall wf_allpass (diffusionAR st);
  wf_diffusionB : Forall wf_allpass (diffusionB st);
  wf_diffusionBR : Forall wf_allpass (diffusionBR st);
  wf_fdnLines : Forall wf_line (fdnLines st) /\ length (fdnLines st) = 8%nat;
  wf_fdnMatrix :
    length (fdnMatrix st) = 8%nat /\
    Forall (fun row => all_finite row /\ length row = 8%nat) (fdnMatrix st);
  wf_fdnFeedback : is_finite (fdnFeedback st);
  wf_lfos : Forall wf_lfo (lfos st) /\ length (lfos st) = 4%nat;
  wf_outputLP : wf_onePole (outputLP st);
  wf_inputHP : wf_onePole (inputHP st);
  wf_safetyThreshold : exists t, safetyThreshold st = Num t /\ 0 <= t
}.

(** A sample of the output range. *)
Definition in_range (a : num) : Prop :=
  match a with Num x => -1 <= x <= 1 | _ => False end.

(** The bound of the values stored in the FDN lines. *)
Definition fdnBound : R := 0.9 * 1.75 + 0.000005.

(** The part of the ranges of the node wrapper's setters that the shape
    [wf_engine] relies on: a size in [0, 1], an integer mode from 0 to 3,
    a vintage in [0, 1] and a pre-delay in [0, 200] (in [wf_params]);
    the other nine parameters are only asked to be reals.  The full
    ranges of the thirteen setters are [setter_ranges] below. *)
Definition valid_params (p : Params) : Prop :=
  wf_params p /\
  is_finite (decay p) /\ is_finite (diffusion p) /\
  is_finite (lowCutHz p) /\ is_finite (highCutHz p) /\ is_finite (color p) /\
  is_finite (modRate p) /\ is_finite (modDepth p) /\
  exists (s : R) (k : Z),
    size p = Num s /\ 0 <= s <= 1 /\
    mode p = Num (IZR k) /\ (0 <= k < 4)%Z.

(** The size multiplier keeps the longest line (base 3989) within the 8192
    samples of its buffer.  The bound is that of the exact floor; within
    rounding distance of 8193 the program's floor can be the other one,
    and [lines_fit_with_margin] below keeps away from it. *)
Definition lines_fit (p : Params) : Prop :=
  exists md mr,
    lookup_mode (mode p) = Some md /\
    sizeMultiplier p md = Num mr /\ 3989 * mr < 8193.

Definition safe_engine (sampleRate : R) (st : Engine) : Prop :=
  wf_engine sampleRate st /\ constructed_lines st.

(** ** Settings of an engine

    What is configured rather than computed from the signal: the
    parameters, the derived coefficients and gains, the logical lengths
    and the lengths of the buffers. *)

Definition early_settings (d : EarlyDelay) : nat * num * num :=
  (length (ed_buffer d), ed_size d, ed_gain d).

Definition allpass_settings (a : Allpass) : nat * num * num * num * num :=
  (length (ap_buffer a), ap_size a, ap_gain a, ap_modPhase a, ap_modDepth a).

Definition line_settings (l : FdnLine)
  : nat * num * num * num * num * num * num :=
  (length (fl_buffer l), fl_size l, fl_baseSize l, fl_dampCoeff l,
   fl_hpCoeff l, fl_modPhase l, fl_modDepth l).

Definition lfo_settings (l : Lfo) : num * num := (lfo_rate l, lfo_amp l).

Record same_settings (a b : Engine) : Prop := {
  kept_params : params b = params a;
  kept_maxPreDelay : maxPreDelay b = maxPreDelay a;
  kept_preDelay_length : length (preDelayBuffer b) = length (preDelayBuffer a);
  kept_early : map early_settings (earlyDelays b) = map early_settings (earlyDelays a);
  kept_earlyR : map early_settings (earlyDelaysR b) = map early_settings (earlyDelaysR a);
  kept_A : map allpass_settings (diffusionA b) = map allpass_settings (diffusionA a);
  kept_AR : map allpass_settings (diffusionAR b) = map allpass_settings (diffusionAR a);
  kept_B : map allpass_settings (diffusionB b) = map allpass_settings (diffusionB a);
  kept_BR : map allpass_settings (diffusionBR b) = map allpass_settings (diffusionBR a);
  kept_lines : map line_settings (fdnLines b) = map line_settings (fdnLines a);
  kept_fdnMatrix : fdnMatrix b = fdnMatrix a;
  kept_fdnFeedback : fdnFeedback b = fdnFeedback a;
  kept_lfos : map lfo_settings (lfos b) = map lfo_settings (lfos a);
  kept_outputLP_coeff : op_coeff (outputLP b) = op_coeff (outputLP a);
  kept_outputHP : outputHP b = outputHP a;
  kept_inputHP_coeff : op_coeff (inputHP b) = op_coeff (inputHP a);
  kept_safetyThreshold : safetyThreshold b = safetyThreshold a;
  kept_safetyGain : safetyGain b = safetyGain a
}.

(** The sample the next iteration of the sample loop reads from the
    pre-delay line: [this.preDelayBuffer[preDelayIdx]]. *)
Definition preDelayedOf (sampleRate : R) (st : Engine) : num :=
  let preDelayTime :=
    JS.Math_floor ((preDelayMs (params st) / Num 1000) * Num sampleRate)%js in
  f32_get (preDelayBuffer st)
          (JS.rem (preDelayIndex st - preDelayTime + maxPreDelay st)%js
                  (maxPreDelay st)).

(** ** Sessions within the ranges of the setters *)

(** The ranges of the thirteen setters of the node wrapper. *)
Definition setter_ranges (p : Params) : Prop :=
  (exists x, mix p = Num x /\ 0 <= x <= 1) /\
  (exists x, preDelayMs p = Num x /\ 0 <= x <= 200) /\
  (exists x, decay p = Num x /\ 0.1 <= x <= 30) /\
  (exists x, size p = Num x /\ 0 <= x <= 1) /\
  (exists x, diffusion p = Num x /\ 0 <= x <= 1) /\
  (exists x, lowCutHz p = Num x /\ 20 <= x <= 1000) /\
  (exists x, highCutHz p = Num x /\ 500 <= x <= 20000) /\
  (exists x, color p = Num x /\ 0 <= x <= 1) /\
  (exists x, modRate p = Num x /\ 0 <= x <= 1) /\
  (exists x, modDepth p = Num x /\ 0 <= x <= 1) /\
  (exists x, stereoWidth p = Num x /\ 0 <= x <= 1) /\
  (exists x, vintage p = Num x /\ 0 <= x <= 1) /\
  (exists k : Z, mode p = Num (IZR k) /\ (0 <= k <= 3)%Z).

(** The longest line (base 3989) is asked for at most 8192 samples: a
    whole sample below the first length that no longer fits, which is
    more than rounding can cross. *)
Definition lines_fit_with_margin (p : Params) : Prop :=
  exists md mr,
    lookup_mode (mode p) = Some md /\
    sizeMultiplier p md = Num mr /\ 3989 * mr <= 8192.

(** Draws as [Math.random] returns them. *)
Definition unit_draws (rnd : nat -> R) : Prop := forall k, 0 <= rnd k < 1.

(** What happens to a processor after its construction: a parameter
    message, with the draws of its recompute and the merged record, or a
    stereo block to process. *)
Definition Event : Type :=
  ((nat -> R) * Params + Float32Array * Float32Array)%type.

Definition handle (sampleRate : R) (st : Engine) (ev : Event) : Engine :=
  match ev with
  | inl (rnd, p) => onmessage sampleRate rnd p st
  | inr (inputL, inputR) => fst (process sampleRate st [inputL; inputR])
  end.

(** The engine after construction and a sequence of events. *)
Definition after_events (sampleRate : R) (rnd0 : nat -> R)
           (events : list Event) : Engine :=
  fold_left (handle sampleRate) events (construct sampleRate rnd0).

(** The events of a session within the ranges: every message within the
    ranges of the setters and fitting the buffers, every input sample in
    [-1, 1], both channels of the same length. *)
Definition admissible (ev : Event) : Prop :=
  match ev with
  | inl (rnd, p) =>
      unit_draws rnd /\ setter_ranges p /\ lines_fit_with_margin p
  | inr (inputL, inputR) =>
      Forall in_range inputL /\ Forall in_range inputR /\
      length inputR = length inputL
  end.

(** Every cell of every line buffer of the feedback delay network holds
    a real within the bound of the stored values. *)
Definition fdn_cells_bounded (st : Engine) : Prop :=
  Forall (Forall (fun c => exists y, c = Num y /\ Rabs y <= fdnBound))
         (map fl_buffer (fdnLines st)).

(** * The node wrapper [QuadraVerbNode]

    The wrapper keeps its own copy [_params] of the parameters and posts
    every change to the processor.  Property values are numbers; the
    [port] of a node is the list of the [params] objects it has posted,
    oldest first. *)

From Stdlib Require String Ascii.
Import String.StringSyntax.
Delimit Scope string_scope with string.

Module Node.

Definition string := String.string.

(** ** Parameter objects *)

Inductive Field : Type :=
| mixF | preDelayMsF | decayF | sizeF | diffusionF | lowCutHzF | highCutHzF
| colorF | modRateF | modDepthF | stereoWidthF | vintageF | modeF.

(** [p[f]] and [p[f] = v] on a parameter record. *)
Definition get (f : Field) (p : Params) : num :=
  match f with
  | mixF => mix p
  | preDelayMsF => preDelayMs p
  | decayF => decay p
  | sizeF => size p
  | diffusionF => diffusion p
  | lowCutHzF => lowCutHz p
  | highCutHzF => highCutHz p
  | colorF => color p
  | modRateF => modRate p
  | modDepthF => modDepth p
  | stereoWidthF => stereoWidth p
  | vintageF => vintage p
  | modeF => mode p
  end.

Definition set (f : Field) (v : num) (p : Params) : Params :=
  {| mix := match f with mixF => v | _ => mix p end;
     preDelayMs := match f with preDelayMsF => v | _ => preDelayMs p end;
     decay := match f with decayF => v | _ => decay p end;
     size := match f with sizeF => v | _ => size p end;
     diffusion := match f with diffusionF => v | _ => diffusion p end;
     lowCutHz := match f with lowCutHzF => v | _ => lowCutHz p end;
     highCutHz := match f with highCutHzF => v | _ => highCutHz p end;
     color := match f with colorF => v | _ => color p end;
     modRate := match f with modRateF => v | _ => modRate p end;
     modDepth := match f with modDepthF => v | _ => modDepth p end;
     stereoWidth := match f with stereoWidthF => v | _ => stereoWidth p end;
     vintage := match f with vintageF => v | _ => vintage p end;
     mode := match f with modeF => v | _ => mode p end |}.

(** An object with some of the thirteen properties: its own enumerable
    properties in insertion order. *)
Definition Object := list (Field * num).

(** [Object.assign(target, source)] *)
Definition assign (target : Params) (source : Object) : Params :=
  fold_left (fun p kv => set (fst kv) (snd kv) p) source target.

(** A parameter record seen as an object. *)
Definition object_of (p : Params) : Object :=
  [ (mixF, mix p); (preDelayMsF, preDelayMs p); (decayF, decay p);
    (sizeF, size p); (diffusionF, diffusion p); (lowCutHzF, lowCutHz p);
    (highCutHzF, highCutHz p); (colorF, color p); (modRateF, modRate p);
    (modDepthF, modDepth p); (stereoWidthF, stereoWidth p);
    (vintageF, vintage p); (modeF, mode p) ].

(** ** The node *)

Record QuadraVerbNode := mkNode {
  _params : Params;
  port : list Object
}.

(** [updateParameters(params)]: [this.port.postMessage({ type:
    'updateParams', params })]. *)
Definition updateParameters (params : Object) (n : QuadraVerbNode)
  : QuadraVerbNode :=
  {| _params := _params n; port := port n ++ [params] |}.

(** [new QuadraVerbNode(context, options)]: the defaults of the node are
    the thirteen defaults of the processor; [options] holds some of the
    thirteen properties. *)
Definition new_QuadraVerbNode (options : Object) : QuadraVerbNode :=
  let p := assign defaultParams options in
  updateParameters (object_of p) {| _params := p; port := [] |}.

(** The thirteen setters [set mix(value)] ... [set mode(value)]. *)
Definition setter (f : Field) (value : num) (n : QuadraVerbNode)
  : QuadraVerbNode :=
  let v :=
    match f with
    | mixF => JS.Math_max (Num 0) (JS.Math_min (Num 1) value)
    | preDelayMsF => JS.Math_max (Num 0) (JS.Math_min (Num 200) value)
    | decayF => JS.Math_max (Num 0.1) (JS.Math_min (Num 30) value)
    | sizeF => JS.Math_max (Num 0) (JS.Math_min (Num 1) value)
    | diffusionF => JS.Math_max (Num 0) (JS.Math_min (Num 1) value)
    | lowCutHzF => JS.Math_max (Num 20) (JS.Math_min (Num 1000) value)
    | highCutHzF => JS.Math_max (Num 500) (JS.Math_min (Num 20000) value)
    | colorF => JS.Math_max (Num 0) (JS.Math_min (Num 1) value)
    | modRateF => JS.Math_max (Num 0) (JS.Math_min (Num 1) value)
    | modDepthF => JS.Math_max (Num 0) (JS.Math_min (Num 1) value)
    | stereoWidthF => JS.Math_max (Num 0) (JS.Math_min (Num 1) value)
    | vintageF => JS.Math_max (Num 0) (JS.Math_min (Num 1) value)
    | modeF =>
        JS.Math_max (Num 0) (JS.Math_min (Num 3) (JS.Math_floor value))
    end in
  updateParameters [(f, v)] {| _params := set f v (_params n); port := port n |}.

(** [getParameters()]: a copy of [_params]. *)
Definition getParameters (n : QuadraVerbNode) : Params := _params n.

(** ** Lookup by name

    [o[k]] on an object literal finds an own property, else a property
    inherited from [Object.prototype], else [undefined].  A lower-cased
    key can only meet the two inherited properties whose names have no
    capital letter. *)
Inductive Lookup (A : Type) : Type :=
| Own (a : A)
| Inherited
| Undefined.
Arguments Own {A} a.
Arguments Inherited {A}.
Arguments Undefined {A}.

Fixpoint own {A} (o : list (string * A)) (k : string) : option A :=
  match o with
  | [] => None
  | (k', a) :: rest => if String.eqb k k' then Some a else own rest k
  end.

Definition inherited (k : string) : bool :=
  String.eqb k "constructor" || String.eqb k "__proto__".

Definition lookup {A} (o : list (string * A)) (k : string) : Lookup A :=
  match own o k with
  | Some a => Own a
  | None => if inherited k then Inherited else Undefined
  end.

(** The table of [setMode]. *)
Definition modeNames : list (string * num) :=
  [ ("plate"%string, Num 0); ("hall"%string, Num 1);
    ("room"%string, Num 2); ("ambient"%string, Num 3) ].

(** The table of [loadPreset]. *)
Definition presets : list (string * Params) :=
  [ ("small-room"%string,
     {| mix := Num 0.3; preDelayMs := Num 5; decay := Num 1.2; size := Num 0.3;
        diffusion := Num 0.6; lowCutHz := Num 150; highCutHz := Num 8000;
        color := Num 0.6; modRate := Num 0.3; modDepth := Num 0.2;
        stereoWidth := Num 0.7; vintage := Num 0.2; mode := Num 2 |});
    ("medium-hall"%string,
     {| mix := Num 0.4; preDelayMs := Num 15; decay := Num 2.5; size := Num 0.7;
        diffusion := Num 0.75; lowCutHz := Num 100; highCutHz := Num 7000;
        color := Num 0.5; modRate := Num 0.5; modDepth := Num 0.3;
        stereoWidth := Num 0.85; vintage := Num 0.3; mode := Num 1 |});
    ("large-hall"%string,
     {| mix := Num 0.45; preDelayMs := Num 25; decay := Num 4.5; size := Num 0.9;
        diffusion := Num 0.8; lowCutHz := Num 80; highCutHz := Num 6500;
        color := Num 0.45; modRate := Num 0.4; modDepth := Num 0.35;
        stereoWidth := Num 0.9; vintage := Num 0.35; mode := Num 1 |});
    ("bright-plate"%string,
     {| mix := Num 0.5; preDelayMs := Num 10; decay := Num 2.0; size := Num 0.65;
        diffusion := Num 0.8; lowCutHz := Num 120; highCutHz := Num 9000;
        color := Num 0.7; modRate := Num 0.6; modDepth := Num 0.4;
        stereoWidth := Num 0.95; vintage := Num 0.25; mode := Num 0 |});
    ("dark-plate"%string,
     {| mix := Num 0.55; preDelayMs := Num 8; decay := Num 2.8; size := Num 0.7;
        diffusion := Num 0.75; lowCutHz := Num 100; highCutHz := Num 4500;
        color := Num 0.3; modRate := Num 0.5; modDepth := Num 0.35;
        stereoWidth := Num 0.9; vintage := Num 0.4; mode := Num 0 |});
    ("ambient-wash"%string, ambientWash);
    ("tight-drums"%string,
     {| mix := Num 0.25; preDelayMs := Num 3; decay := Num 0.8; size := Num 0.25;
        diffusion := Num 0.5; lowCutHz := Num 200; highCutHz := Num 8000;
        color := Num 0.65; modRate := Num 0.2; modDepth := Num 0.15;
        stereoWidth := Num 0.6; vintage := Num 0.15; mode := Num 2 |});
    ("vocal-shimmer"%string,
     {| mix := Num 0.35; preDelayMs := Num 20; decay := Num 2.2; size := Num 0.6;
        diffusion := Num 0.8; lowCutHz := Num 150; highCutHz := Num 7500;
        color := Num 0.6; modRate := Num 0.7; modDepth := Num 0.5;
        stereoWidth := Num 0.85; vintage := Num 0.3; mode := Num 0 |}) ].

(** [static getAvailablePresets()] *)
Definition getAvailablePresets : list string :=
  [ "small-room"%string; "medium-hall"%string; "large-hall"%string;
    "bright-plate"%string; "dark-plate"%string; "ambient-wash"%string;
    "tight-drums"%string; "vocal-shimmer"%string ].

(** The part of [String.prototype.toLowerCase] on the ASCII letters; the
    other characters are kept. *)
Definition lower (c : Ascii.ascii) : Ascii.ascii :=
  let n := Ascii.nat_of_ascii c in
  if ((65 <=? n) && (n <=? 90))%nat then Ascii.ascii_of_nat (n + 32) else c.

Fixpoint asciiLowerCase (s : string) : string :=
  match s with
  | String.EmptyString => String.EmptyString
  | String.String c rest => String.String (lower c) (asciiLowerCase rest)
  end.

Section Names.

(** [String.prototype.toLowerCase]. *)
Variable toLowerCase : string -> string.

(** [setMode(modeName)]: the setter receives the index found; for an
    inherited property it receives an object, whose [Math.floor] is
    NaN. *)
Definition setMode (modeName : string) (n : QuadraVerbNode) : QuadraVerbNode :=
  match lookup modeNames (toLowerCase modeName) with
  | Own modeIndex => setter modeF modeIndex n
  | Inherited => setter modeF NaN n
  | Undefined => n
  end.

(** [loadPreset(presetName)]: an inherited property is truthy and has no
    enumerable property of its own, so [Object.assign] copies nothing and
    the parameters are posted as they are; for [undefined] the method
    only warns. *)
Definition loadPreset (presetName : string) (n : QuadraVerbNode)
  : QuadraVerbNode :=
  match lookup presets (toLowerCase presetName) with
  | Own preset =>
      let p := assign (_params n) (object_of preset) in
      updateParameters (object_of p) {| _params := p; port := port n |}
  | Inherited =>
      updateParameters (object_of (_params n)) n
  | Undefined => n
  end.

(** A call on the node. *)
Inductive Call : Type :=
| SetField (f : Field) (value : num)
| SetMode (modeName : string)
| LoadPreset (presetName : string).

Definition call (n : QuadraVerbNode) (c : Call) : QuadraVerbNode :=
  match c with
  | SetField f value => setter f value n
  | SetMode modeName => setMode modeName n
  | LoadPreset presetName => loadPreset presetName n
  end.

End Names.

(** ** The processor's end of the port

    [this.port.onmessage]: [Object.assign(this.params, e.data.params)]
    and the recompute, on a posted object. *)
Definition receive (sampleRate : R) (rnd : nat -> R) (msg : Object)
           (st : Engine) : Engine :=
  onmessage sampleRate rnd (assign (params st) msg) st.

End Node.
(** * Properties *)

(** ** Evaluating floors, remainders and indices *)

Ltac js_dec :=
  repeat match goal with
  | |- context [Rlt_dec ?a ?b] => destruct (Rlt_dec a b); try lra
  | |- context [Req_dec_T ?a ?b] => destruct (Req_dec_T a b); try lra
  | |- context [Rle_dec ?a ?b] => destruct (Rle_dec a b); try lra
  end.

Lemma floor_eq (r : R) (z : Z) : IZR z <= r < IZR z + 1 -> Int_part r = z.
Proof. intros H. symmetry. apply Int_part_spec. lra. Qed.

Lemma Int_part_IZR (z : Z) : Int_part (IZR z) = z.
Proof. apply floor_eq. lra. Qed.

Lemma floor_div_pos (a b : Z) :
  (0 <= a)%Z -> (0 < b)%Z -> Int_part (IZR a / IZR b) = (a / b)%Z.
Proof.
  intros Ha Hb. apply floor_eq.
  assert (Hb' : 0 < IZR b) by (apply IZR_lt; lia).
  pose proof (Z.div_mod a b ltac:(lia)) as E.
  pose proof (Z.mod_pos_bound a b Hb) as [M0 M1].
  apply IZR_le in M0. apply IZR_lt in M1.
  assert (EQ : IZR a = IZR b * IZR (a / b) + IZR (a mod b)).
  { rewrite <- mult_IZR, <- plus_IZR. f_equal. exact E. }
  assert (Q : IZR a / IZR b = IZR (a / b) + IZR (a mod b) / IZR b).
  { rewrite EQ. field. lra. }
  rewrite Q.
  assert (0 <= IZR (a mod b) / IZR b < 1).
  { split.
    - apply Rmult_le_pos; [lra | apply Rlt_le, Rinv_0_lt_compat, Hb'].
    - apply Rmult_lt_reg_r with (IZR b); [exact Hb'|].
      unfold Rdiv. rewrite Rmult_assoc, Rinv_l by lra. lra. }
  lra.
Qed.

Lemma truncZ_div (a b : Z) :
  (0 < b)%Z -> JS.truncZ (IZR a / IZR b) = Z.quot a b.
Proof.
  intros Hb. unfold JS.truncZ.
  assert (Hb' : 0 < IZR b) by (apply IZR_lt; lia).
  destruct (Z_le_gt_dec 0 a) as [Ha|Ha].
  - destruct (Rle_dec 0 (IZR a / IZR b)) as [_|N].
    + rewrite floor_div_pos by lia. symmetry. apply Z.quot_div_nonneg; lia.
    + exfalso. apply N. apply Rmult_le_pos;
        [apply IZR_le; lia | apply Rlt_le, Rinv_0_lt_compat, Hb'].
  - destruct (Rle_dec 0 (IZR a / IZR b)) as [P|_].
    + exfalso. assert (IZR a < 0) by (apply IZR_lt; lia).
      assert (IZR a / IZR b < 0).
      { unfold Rdiv. replace 0 with (0 * / IZR b) by ring.
        apply Rmult_lt_compat_r; [apply Rinv_0_lt_compat, Hb' | assumption]. }
      lra.
    + replace (- (IZR a / IZR b)) with (IZR (- a) / IZR b)
        by (rewrite opp_IZR; field; lra).
      rewrite floor_div_pos by lia.
      rewrite <- (Z.quot_div_nonneg (- a) b) by lia.
      rewrite Z.quot_opp_l by lia. lia.
Qed.

Lemma rem_int (a b : Z) :
  (0 < b)%Z -> JS.rem (Num (IZR a)) (Num (IZR b)) = Num (IZR (Z.rem a b)).
Proof.
  intros Hb. unfold JS.rem.
  assert (Hb' : 0 < IZR b) by (apply IZR_lt; lia).
  destruct (Req_dec_T (IZR b) 0); [lra|].
  rewrite truncZ_div by assumption.
  rewrite <- mult_IZR, <- minus_IZR. do 2 f_equal.
  pose proof (Z.quot_rem' a b). lia.
Qed.

Lemma as_index_IZR (z : Z) :
  (0 <= z)%Z -> as_index (Num (IZR z)) = Some (Z.to_nat z).
Proof.
  intros Hz. unfold as_index. rewrite Int_part_IZR.
  destruct (Req_dec_T (IZR z) (IZR z)); [|congruence].
  destruct (Z.leb_spec 0 z); [reflexivity | lia].
Qed.

Lemma as_index_neg (z : Z) : (z < 0)%Z -> as_index (Num (IZR z)) = None.
Proof.
  intros Hz. unfold as_index. rewrite Int_part_IZR.
  destruct (Req_dec_T (IZR z) (IZR z)); [|congruence].
  destruct (Z.leb_spec 0 z); [lia | reflexivity].
Qed.

Lemma f32_get_out_of_range (a : Float32Array) (z : Z) :
  (Z.of_nat (length a) <= z)%Z -> f32_get a (Num (IZR z)) = NaN.
Proof.
  intros H. unfold f32_get. rewrite as_index_IZR by lia.
  apply nth_overflow. lia.
Qed.

Lemma lookup_mode_valid (k : Z) :
  (0 <= k < 4)%Z -> lookup_mode (Num (IZR k)) = nth_error modes (Z.to_nat k).
Proof.
  intros Hk. unfold lookup_mode, JS.Math_floor.
  rewrite Int_part_IZR.
  change (INR (length modes)) with (INR 4). rewrite INR_IZR_INZ.
  change (Z.of_nat 4) with 4%Z.
  rewrite rem_int by lia. rewrite Z.rem_small by lia.
  rewrite as_index_IZR by lia. reflexivity.
Qed.

(** ** NaN is absorbing *)

Lemma add_NaN_l (a : num) : (NaN + a)%js = NaN.
Proof. reflexivity. Qed.

Lemma add_NaN_r (a : num) : (a + NaN)%js = NaN.
Proof. destruct a; reflexivity. Qed.

Lemma sub_NaN_l (a : num) : (NaN - a)%js = NaN.
Proof. reflexivity. Qed.

Lemma sub_NaN_r (a : num) : (a - NaN)%js = NaN.
Proof. destruct a; reflexivity. Qed.

Lemma mul_NaN_l (a : num) : (NaN * a)%js = NaN.
Proof. reflexivity. Qed.

Lemma mul_NaN_r (a : num) : (a * NaN)%js = NaN.
Proof. destruct a; reflexivity. Qed.

Lemma max_NaN_l (a : num) : JS.Math_max NaN a = NaN.
Proof. reflexivity. Qed.

Lemma max_NaN_r (a : num) : JS.Math_max a NaN = NaN.
Proof. destruct a; reflexivity. Qed.

Lemma min_NaN_r (a : num) : JS.Math_min a NaN = NaN.
Proof. destruct a; reflexivity. Qed.

Lemma gt_NaN_l (a : num) : (NaN >? a)%js = false.
Proof. reflexivity. Qed.

Create Rewrite HintDb nan.
#[local] Hint Rewrite add_NaN_l add_NaN_r sub_NaN_l sub_NaN_r mul_NaN_l
  mul_NaN_r max_NaN_l max_NaN_r min_NaN_r gt_NaN_l : nan.

(** ** Lists with positions *)

Lemma map_combine_seq {A B C} (g : B -> C) (f : nat -> A -> B) (h : A -> C)
      (l : list A) (s : nat) :
  (forall i x, g (f i x) = h x) ->
  map g (map (fun ia => f (fst ia) (snd ia)) (combine (seq s (length l)) l))
  = map h l.
Proof.
  intros H. revert s. induction l as [|x l IH]; intros s; simpl.
  - reflexivity.
  - rewrite H, IH. reflexivity.
Qed.

Lemma map_mapi {A B C} (g : B -> C) (f : nat -> A -> B) (h : A -> C) (l : list A) :
  (forall i x, g (f i x) = h x) -> map g (mapi f l) = map h l.
Proof. intros H. unfold mapi. apply map_combine_seq, H. Qed.

Lemma nth_error_combine_seq {A B} (f : nat -> A -> B) (l : list A) (s k : nat) :
  nth_error (map (fun ia => f (fst ia) (snd ia)) (combine (seq s (length l)) l)) k
  = option_map (f (s + k)%nat) (nth_error l k).
Proof.
  revert s k. induction l as [|x l IH]; intros s k; simpl.
  - destruct k; reflexivity.
  - destruct k; simpl.
    + rewrite Nat.add_0_r. reflexivity.
    + rewrite IH. rewrite Nat.add_succ_r. reflexivity.
Qed.

Lemma nth_error_mapi {A B} (f : nat -> A -> B) (l : list A) (k : nat) :
  nth_error (mapi f l) k = option_map (f k) (nth_error l k).
Proof. unfold mapi. apply nth_error_combine_seq. Qed.

Lemma length_mapi {A B} (f : nat -> A -> B) (l : list A) :
  length (mapi f l) = length l.
Proof.
  unfold mapi. rewrite length_map, length_combine, length_seq. lia.
Qed.

(** ** The saturator *)

Lemma softClip_id (x : R) : -1.5 <= x <= 1.5 -> softClip (Num x) = Num x.
Proof.
  intros H. unfold softClip, JS.lt, JS.gt; simpl. js_dec. reflexivity.
Qed.

Lemma knee_bound (u : R) :
  - 0.25 <= u / (1 + (u / 0.5) * (u / 0.5)) <= 0.25.
Proof.
  assert (Hh : u / 0.5 = 2 * u) by lra. rewrite Hh.
  assert (Hd : 0 < 1 + 2 * u * (2 * u)) by nra.
  assert (Hq : u / (1 + 2 * u * (2 * u)) * (1 + 2 * u * (2 * u)) = u)
    by (field; lra).
  split; apply Rmult_le_reg_r with (1 + 2 * u * (2 * u)); try exact Hd;
    rewrite Hq; clear Hq Hh.
  - pose proof (Rle_0_sqr (2 * u + 1)) as S; unfold Rsqr in S. lra.
  - pose proof (Rle_0_sqr (2 * u - 1)) as S; unfold Rsqr in S. lra.
Qed.

Lemma knee_sign (u : R) : 0 <= u * (u / (1 + (u / 0.5) * (u / 0.5))).
Proof.
  assert (Hd : 0 < 1 + (u / 0.5) * (u / 0.5)) by nra.
  unfold Rdiv at 1. rewrite <- Rmult_assoc.
  apply Rmult_le_pos; [nra | apply Rlt_le, Rinv_0_lt_compat, Hd].
Qed.

Lemma softClip_finite (x : R) :
  exists y, softClip (Num x) = Num y /\ Rabs y <= 1.75.
Proof.
  unfold softClip, JS.lt, JS.gt, JS.pow2, JS.sub; simpl.
  destruct (Rlt_dec 1.5 x) as [Hx|Hx];
    [|destruct (Rlt_dec x _) as [Hy|Hy]]; simpl.
  - destruct (Req_dec_T 0.5 0); [lra|]. simpl.
    destruct (Req_dec_T _ 0) as [E|E]; [nra|].
    eexists; split; [reflexivity|].
    match goal with |- context [?u / (1 + _)] =>
      pose proof (knee_bound u) as K; pose proof (knee_sign u) as S end.
    apply Rabs_le. nra.
  - destruct (Req_dec_T 0.5 0); [lra|]. simpl.
    destruct (Req_dec_T _ 0) as [E|E]; [nra|].
    eexists; split; [reflexivity|].
    match goal with |- context [?u / (1 + _)] =>
      pose proof (knee_bound u) as K; pose proof (knee_sign u) as S end.
    apply Rabs_le. nra.
  - exists x. split; [reflexivity|]. apply Rabs_le. lra.
Qed.

(** C9.  [softClip] is the identity on [-1.5, 1.5], and on every real
    input its result is a real of magnitude at most 1.75. *)
Theorem softClip_identity_and_bound :
  (forall x : R, -1.5 <= x <= 1.5 -> softClip (Num x) = Num x) /\
  (forall x : R, exists y : R, softClip (Num x) = Num y /\ Rabs y <= 1.75).
Proof. split; [exact softClip_id | exact softClip_finite]. Qed.

Lemma softClip_identity_and_bound_witness :
  softClip (Num 1) = Num 1 /\
  exists y : R, softClip (Num 2) = Num y /\ Rabs y <= 1.75.
Proof.
  split.
  - apply (proj1 softClip_identity_and_bound 1). lra.
  - apply (proj2 softClip_identity_and_bound 2).
Defined.

(** The bound 1.75 is attained at 2. *)
Example softClip_2 : softClip (Num 2) = Num 1.75.
Proof.
  unfold softClip, JS.lt, JS.gt, JS.pow2, JS.sub; simpl.
  js_dec. simpl. js_dec. f_equal.
  assert (E : (2 + - (1.5)) / 0.5 = 1) by lra. rewrite E. lra.
Qed.

(** ** The parameter mapper *)

Section Mapper.

Variable sampleRate : R.
Variable rnd : nat -> R.

Lemma update_Some (st : Engine) (md : ModePreset) :
  lookup_mode (mode (params st)) = Some md ->
  exists st',
    updateInternalParams sampleRate rnd st = Some st' /\
    params st' = params st /\
    fdnFeedback st' =
      feedbackGain sampleRate
        (map (set_line_size (sizeMultiplier (params st) md)) (fdnLines st))
        (params st) /\
    map fl_size (fdnLines st') =
      map (fun l => JS.Math_floor
                      (fl_baseSize l * sizeMultiplier (params st) md)%js)
          (fdnLines st) /\
    map fl_modDepth (fdnLines st') =
      map (fun _ => (modDepth (params st) * Num 0.5 * Num 5)%js) (fdnLines st) /\
    map lfo_rate (lfos st') =
      mapi (fun i _ => (modRate (params st) * Num 0.003
                        * (Num 0.8 + Num (INR i) * Num 0.2))%js) (lfos st) /\
    map lfo_amp (lfos st') = map lfo_amp (lfos st) /\
    op_coeff (outputLP st') =
      onePoleCoeff (outputCutoff (params st)) (Num sampleRate) /\
    op_coeff (inputHP st') =
      (onePoleCoeff (lowCutHz (params st)) (Num sampleRate) * Num 0.05)%js.
Proof.
  intros H. unfold updateInternalParams. rewrite H.
  eexists. split; [reflexivity|]. cbn [params fdnFeedback fdnLines lfos outputLP inputHP].
  repeat split.
  - rewrite (map_mapi _ _ fl_size) by reflexivity.
    rewrite map_map. reflexivity.
  - rewrite (map_mapi _ _ (fun _ => (modDepth (params st) * Num 0.5 * Num 5)%js))
      by reflexivity.
    rewrite map_map. reflexivity.
  - unfold mapi. rewrite !map_map. reflexivity.
  - apply map_mapi. reflexivity.
Qed.

Lemma update_frame (st st' : Engine) :
  updateInternalParams sampleRate rnd st = Some st' ->
  same_signal_state st st' /\
  map fl_baseSize (fdnLines st') = map fl_baseSize (fdnLines st) /\
  fdnMatrix st' = fdnMatrix st /\ maxPreDelay st' = maxPreDelay st.
Proof.
  unfold updateInternalParams.
  destruct (lookup_mode (mode (params st))) as [md|]; [|discriminate].
  intros E. injection E as <-.
  split; [constructor|]; cbn;
    rewrite ?(map_mapi _ _ fl_buffer), ?(map_mapi _ _ fl_index),
      ?(map_mapi _ _ fl_dampState), ?(map_mapi _ _ fl_hpState),
      ?(map_mapi _ _ lfo_phase), ?(map_mapi _ _ fl_baseSize), ?map_map
      by reflexivity;
    auto.
Qed.

Lemma set_params_frame (p : Params) (st : Engine) :
  same_signal_state st (set_params p st).
Proof. constructor; reflexivity. Qed.

Lemma same_signal_state_trans (a b c : Engine) :
  same_signal_state a b -> same_signal_state b c -> same_signal_state a c.
Proof.
  intros [] []. constructor; etransitivity; eassumption.
Qed.

(** C8.  A parameter update leaves every buffer, every write index and
    every persistent filter state of the engine as it was: both the
    message handler (the merged record [p], then the recompute, whether
    or not it throws) and the recompute [updateInternalParams] alone. *)
Theorem update_keeps_signal_state (p : Params) (st : Engine) :
  same_signal_state st (onmessage sampleRate rnd p st) /\
  (forall st', updateInternalParams sampleRate rnd st = Some st' ->
               same_signal_state st st').
Proof.
  split.
  - unfold onmessage.
    destruct (updateInternalParams sampleRate rnd (set_params p st))
      as [st2|] eqn:E.
    + apply update_frame in E. destruct E as [E _].
      eapply same_signal_state_trans; [apply set_params_frame | exact E].
    + apply set_params_frame.
  - intros st' E. apply update_frame in E. apply E.
Qed.

End Mapper.

Lemma update_keeps_signal_state_witness :
  same_signal_state (initialEngine 48000 (fun _ => 0))
                    (construct 48000 (fun _ => 0)).
Proof.
  apply (proj2 (update_keeps_signal_state 48000 (fun _ => 0) defaultParams
                  (initialEngine 48000 (fun _ => 0)))).
  unfold construct.
  destruct (update_Some 48000 (fun _ => 0) (initialEngine 48000 (fun _ => 0))
              (mkMode (Num 0.9) (Num 0.75) (Num 0.88) (Num 0.06)))
    as [st' [E _]].
  - apply (lookup_mode_valid 0). lia.
  - rewrite E. reflexivity.
Defined.

(** ** The constructed engine *)

Lemma length_new_Float32Array (z : Z) :
  (0 <= z)%Z -> Z.of_nat (length (new_Float32Array (Num (IZR z)))) = z.
Proof.
  intros Hz. unfold new_Float32Array.
  rewrite repeat_length, Int_part_IZR. lia.
Qed.

Lemma f32_length_new (z : Z) :
  (0 <= z)%Z -> f32_length (new_Float32Array (Num (IZR z))) = Num (IZR z).
Proof.
  intros Hz. unfold f32_length. rewrite INR_IZR_INZ.
  rewrite length_new_Float32Array by assumption. reflexivity.
Qed.

Lemma Math_max_Num (x y : R) : JS.Math_max (Num x) (Num y) = Num (Rmax x y).
Proof.
  unfold JS.Math_max, JS.gt, Rmax.
  destruct (Rlt_dec x y); destruct (Rle_dec x y); try lra; try reflexivity.
  f_equal. lra.
Qed.

Lemma Math_min_Num (x y : R) : JS.Math_min (Num x) (Num y) = Num (Rmin x y).
Proof.
  unfold JS.Math_min, JS.gt, Rmin.
  destruct (Rlt_dec y x); destruct (Rle_dec x y); try lra; reflexivity.
Qed.

Ltac eval_Rmax :=
  repeat match goal with
  | |- context [Rmax ?a ?b] =>
      first [ rewrite (Rmax_right a b) by lra | rewrite (Rmax_left a b) by lra ]
  end.

Lemma fdnMaxSize_initial :
  fdnMaxSize (mapi mkFdnLine fdnBaseSizes) = Num (3989 * 2).
Proof.
  unfold fdnMaxSize, mapi, fdnBaseSizes.
  cbn [length seq combine map fst snd fold_left mkFdnLine fl_baseSize JS.mul].
  change (JS.Math_max NInf (Num (1453 * 2))) with (Num (1453 * 2)).
  rewrite !Math_max_Num. eval_Rmax. reflexivity.
Qed.

Lemma resize_initial :
  resizeFDNBuffers (mapi mkFdnLine fdnBaseSizes) = mapi mkFdnLine fdnBaseSizes.
Proof.
  unfold resizeFDNBuffers. rewrite fdnMaxSize_initial.
  rewrite <- (map_id (mapi mkFdnLine fdnBaseSizes)) at 2.
  apply map_ext_in. intros l Hl.
  unfold mapi in Hl. apply in_map_iff in Hl. destruct Hl as [[i b] [<- _]].
  cbn [fst snd mkFdnLine fl_buffer].
  rewrite f32_length_new by lia.
  unfold JS.lt, JS.gt. js_dec. reflexivity.
Qed.

Section Constructed.

Variable sampleRate : R.

Lemma initial_constructed (rnd : nat -> R) :
  constructed_lines (initialEngine sampleRate rnd).
Proof.
  unfold constructed_lines, initialEngine. cbn [fdnLines].
  rewrite resize_initial. split.
  - apply map_mapi. reflexivity.
  - rewrite (map_mapi _ _ (fun _ => 8192%Z)).
    + reflexivity.
    + intros i x. cbn [mkFdnLine fl_buffer].
      apply (length_new_Float32Array 8192). lia.
Qed.

Lemma update_constructed (rnd : nat -> R) (st st' : Engine) :
  updateInternalParams sampleRate rnd st = Some st' ->
  constructed_lines st -> constructed_lines st'.
Proof.
  intros E [Hb Hl]. apply update_frame in E.
  destruct E as [F [B _]]. split.
  - rewrite B. exact Hb.
  - rewrite <- Hl.
    rewrite <- (map_map fl_buffer (fun b => Z.of_nat (length b))).
    rewrite (same_fdn_buffers _ _ F). apply map_map.
Qed.

Lemma onmessage_constructed (rnd : nat -> R) (p : Params) (st : Engine) :
  constructed_lines st -> constructed_lines (onmessage sampleRate rnd p st).
Proof.
  intros H. unfold onmessage.
  destruct (updateInternalParams _ _ _) as [st2|] eqn:E.
  - eapply update_constructed; [exact E | exact H].
  - exact H.
Qed.

Lemma construct_constructed (rnd : nat -> R) :
  constructed_lines (construct sampleRate rnd).
Proof.
  unfold construct.
  destruct (updateInternalParams _ _ _) as [st1|] eqn:E.
  - eapply update_constructed; [exact E | apply initial_constructed].
  - apply initial_constructed.
Qed.

Lemma onmessage_params (rnd : nat -> R) (p : Params) (st : Engine) :
  params (onmessage sampleRate rnd p st) = p.
Proof.
  unfold onmessage.
  destruct (updateInternalParams _ _ _) as [st2|] eqn:E; [|reflexivity].
  unfold updateInternalParams in E.
  destruct (lookup_mode _); [|discriminate]. injection E as <-. reflexivity.
Qed.

Lemma onmessage_update (rnd : nat -> R) (p : Params) (st : Engine) (md : ModePreset) :
  lookup_mode (mode p) = Some md ->
  updateInternalParams sampleRate rnd (set_params p st)
  = Some (onmessage sampleRate rnd p st).
Proof.
  intros H. unfold onmessage.
  destruct (update_Some sampleRate rnd (set_params p st) md H) as [st' [E _]].
  rewrite E. reflexivity.
Qed.

End Constructed.

(** ** Line lengths and the feedback gain *)

Lemma sum_of_reals (rs : list R) (a : R) :
  fold_left (fun s x => (s + x)%js) (map Num rs) (Num a)
  = Num (fold_left Rplus rs a).
Proof.
  revert a. induction rs as [|r rs IH]; intros a; simpl.
  - reflexivity.
  - apply IH.
Qed.

Lemma fold_sizes (ls : list FdnLine) (a : num) :
  fold_left (fun sum l => (sum + fl_size l)%js) ls a
  = fold_left (fun s x => (s + x)%js) (map fl_size ls) a.
Proof.
  revert a. induction ls as [|l ls IH]; intros a; simpl; [reflexivity | apply IH].
Qed.

Lemma avgDelaySeconds_ext (sr : R) (l1 l2 : list FdnLine) :
  map fl_size l1 = map fl_size l2 ->
  avgDelaySeconds sr l1 = avgDelaySeconds sr l2.
Proof.
  intros H. unfold avgDelaySeconds. rewrite !fold_sizes, H.
  rewrite <- (length_map fl_size l1), <- (length_map fl_size l2), H.
  reflexivity.
Qed.

(** The mode scale and the size multiplier as reals. *)
Lemma sizeMultiplier_valid (p : Params) (s : R) (k : Z) :
  size p = Num s -> 0 <= s <= 1 -> mode p = Num (IZR k) -> (0 <= k < 4)%Z ->
  exists md mr,
    lookup_mode (mode p) = Some md /\
    sizeMultiplier p md = Num mr /\ 0.15 <= mr <= 4.
Proof.
  intros Hs Bs Hm Bk. rewrite Hm, lookup_mode_valid by assumption.
  unfold sizeMultiplier. rewrite Hs.
  assert (C : (k = 0 \/ k = 1 \/ k = 2 \/ k = 3)%Z) by lia.
  destruct C as [-> | [-> | [-> | ->]]]; cbn;
    eexists; eexists; (split; [reflexivity|]); cbn;
    (split; [reflexivity|]); nra.
Qed.

Section Gain.

Variable sampleRate : R.
Hypothesis sr_pos : 0 < sampleRate.

Lemma sizes_constructed (st : Engine) (mr : R) :
  constructed_lines st ->
  map fl_size (map (set_line_size (Num mr)) (fdnLines st))
  = map Num (map (fun b => IZR (Int_part (b * mr))) fdnBaseSizes).
Proof.
  intros [Hb _]. rewrite map_map. cbn [set_line_size fl_size].
  rewrite <- (map_map fl_baseSize (fun b => JS.Math_floor (b * Num mr)%js)).
  rewrite Hb, !map_map. reflexivity.
Qed.

Lemma avg_constructed (st : Engine) (mr : R) :
  constructed_lines st -> 0.15 <= mr ->
  exists a,
    avgDelaySeconds sampleRate (map (set_line_size (Num mr)) (fdnLines st))
    = Num a /\ 0 < a.
Proof.
  intros C Hm. unfold avgDelaySeconds.
  rewrite fold_sizes, sizes_constructed, sum_of_reals by assumption.
  rewrite length_map. destruct C as [Hb _].
  rewrite <- (length_map fl_baseSize), Hb, length_map.
  unfold fdnBaseSizes at 2. cbn [length INR].
  unfold JS.div.
  destruct (Req_dec_T _ 0) as [E|_]; [lra|].
  destruct (Req_dec_T sampleRate 0) as [E|_]; [lra|].
  eexists; split; [reflexivity|].
  assert (P : forall b, 7 <= b -> 1 <= IZR (Int_part (b * mr))).
  { intros b Hb7. apply IZR_le.
    pose proof (base_Int_part (b * mr)) as [_ B].
    assert (0 < IZR (Int_part (b * mr))) by nra.
    apply lt_IZR in H. lia. }
  unfold fdnBaseSizes. cbn [map fold_left].
  pose proof (P 1453 ltac:(lra)). pose proof (P 1789 ltac:(lra)).
  pose proof (P 2099 ltac:(lra)). pose proof (P 2423 ltac:(lra)).
  pose proof (P 2789 ltac:(lra)). pose proof (P 3167 ltac:(lra)).
  pose proof (P 3547 ltac:(lra)). pose proof (P 3989 ltac:(lra)).
  apply Rdiv_lt_0_compat; [|exact sr_pos].
  apply Rdiv_lt_0_compat; lra.
Qed.

Lemma Rpower_10_pos (e : R) : 0 < Rpower 10 e.
Proof. unfold Rpower. apply exp_pos. Qed.

Lemma Rpower_10_gt_1 (e : R) : 0 < e -> 1 < Rpower 10 e.
Proof.
  intros He. unfold Rpower. rewrite <- exp_0. apply exp_increasing.
  apply Rmult_lt_0_compat; [exact He|].
  rewrite <- ln_1. apply ln_increasing; lra.
Qed.

(** The three regimes of the gain, for a real average delay [a > 0]. *)
Lemma gain_regimes (ls : list FdnLine) (p : Params) (a d : R) :
  avgDelaySeconds sampleRate ls = Num a -> 0 < a -> decay p = Num d ->
  exists g,
    feedbackGain sampleRate ls p = Num g /\ 0 <= g <= 0.985 /\
    (0 < d -> g = Rmin (Rpower 10 (-3 * a / d)) 0.985 /\ 0 < g) /\
    (d = 0 -> g = 0) /\
    (d < 0 -> g = 0.985).
Proof.
  intros Ha Pa Hd. unfold feedbackGain. rewrite Ha, Hd.
  cbn [JS.mul]. unfold JS.div.
  destruct (Req_dec_T d 0) as [E|E].
  - unfold JS.scale_inf.
    destruct (Rlt_dec 0 (-3 * a)) as [L|_]; [lra|].
    destruct (Rlt_dec (-3 * a) 0) as [_|L]; [|lra].
    cbn [JS.pow10]. rewrite Math_min_Num.
    exists (Rmin 0 0.985).
    assert (M : Rmin 0 0.985 = 0) by (apply Rmin_left; lra).
    rewrite M.
    split; [reflexivity|]. split; [lra|].
    split; [intros; lra|]. split; [reflexivity | intros; lra].
  - cbn [JS.pow10]. rewrite Math_min_Num.
    pose proof (Rpower_10_pos (-3 * a / d)) as P.
    pose proof (Rmin_r (Rpower 10 (-3 * a / d)) 0.985) as U.
    assert (0 < Rmin (Rpower 10 (-3 * a / d)) 0.985) as Q
        by (apply Rmin_glb_lt; lra).
    eexists. split; [reflexivity|]. split; [lra|].
    split; [intros _; split; [reflexivity | exact Q]|].
    split; [intros; lra|].
    intros Hneg. apply Rmin_right.
    assert (0 < -3 * a / d) as X.
    { replace (-3 * a / d) with ((3 * a) / (- d)) by (field; lra).
      apply Rdiv_lt_0_compat; lra. }
    pose proof (Rpower_10_gt_1 _ X). lra.
Qed.

Variable rnd : nat -> R.

Lemma update_gain (st : Engine) (s d : R) (k : Z) :
  constructed_lines st ->
  size (params st) = Num s -> 0 <= s <= 1 ->
  mode (params st) = Num (IZR k) -> (0 <= k < 4)%Z ->
  decay (params st) = Num d ->
  exists st' a g,
    updateInternalParams sampleRate rnd st = Some st' /\
    avgDelaySeconds sampleRate (fdnLines st') = Num a /\ 0 < a /\
    fdnFeedback st' = Num g /\ 0 <= g <= 0.985 /\
    (0 < d -> g = Rmin (Rpower 10 (-3 * a / d)) 0.985 /\ 0 < g) /\
    (d = 0 -> g = 0) /\
    (d < 0 -> g = 0.985).
Proof.
  intros C Hs Bs Hm Bk Hd.
  destruct (sizeMultiplier_valid _ s k Hs Bs Hm Bk) as [md [mr [L [M B]]]].
  destruct (update_Some sampleRate rnd st md L)
    as [st' [E [_ [G [S _]]]]].
  rewrite M in G, S.
  destruct (avg_constructed st mr C (proj1 B)) as [a [A Pa]].
  destruct (gain_regimes _ (params st) a d A Pa Hd) as [g [G1 G2]].
  exists st', a, g.
  split; [exact E|]. split.
  - rewrite <- A. apply avgDelaySeconds_ext. rewrite S, map_map. reflexivity.
  - split; [exact Pa|]. split; [rewrite G; exact G1 | exact G2].
Qed.

End Gain.

(** C4.  For a decay in (0, 30], a size in [0, 1] and any of the four
    modes, the parameter update stores the feedback gain
    min(10^(-3 a / decay), 0.985), where [a] is the average line delay in
    seconds; it is at most 0.985. *)
Theorem feedback_gain_at_most_0985
        (sampleRate : R) (rnd : nat -> R) (st : Engine) (d s : R) (k : Z) :
  0 < sampleRate -> constructed_lines st ->
  decay (params st) = Num d -> 0 < d <= 30 ->
  size (params st) = Num s -> 0 <= s <= 1 ->
  mode (params st) = Num (IZR k) -> (0 <= k < 4)%Z ->
  exists st' a g,
    updateInternalParams sampleRate rnd st = Some st' /\
    avgDelaySeconds sampleRate (fdnLines st') = Num a /\
    fdnFeedback st' = Num g /\
    g = Rmin (Rpower 10 (-3 * a / d)) 0.985 /\
    g <= 0.985.
Proof.
  intros Hsr C Hd Bd Hs Bs Hm Bk.
  destruct (update_gain sampleRate Hsr rnd st s d k C Hs Bs Hm Bk Hd)
    as [st' [a [g [E [A [_ [G [B [P _]]]]]]]]].
  exists st', a, g.
  split; [exact E|]. split; [exact A|]. split; [exact G|].
  split; [apply P; lra | lra].
Qed.

Lemma feedback_gain_at_most_0985_witness :
  exists st' a g,
    updateInternalParams 48000 (fun _ => 0) (initialEngine 48000 (fun _ => 0))
    = Some st' /\
    avgDelaySeconds 48000 (fdnLines st') = Num a /\
    fdnFeedback st' = Num g /\
    g = Rmin (Rpower 10 (-3 * a / 3.0)) 0.985 /\
    g <= 0.985.
Proof.
  apply (feedback_gain_at_most_0985 48000 (fun _ => 0)
           (initialEngine 48000 (fun _ => 0)) 3.0 0.7 0).
  - lra.
  - apply initial_constructed.
  - reflexivity.
  - lra.
  - reflexivity.
  - lra.
  - reflexivity.
  - lia.
Defined.

(** C3, as the code has it.  The decay is the divisor of the exponent as
    it is given, without a floor.  With the constructor's lines, a size in
    [0, 1] and a valid mode, the gain is nevertheless a real in [0, 0.985]
    for every real decay: min(10^(-3 a / decay), 0.985) for a positive
    decay and the cap 0.985 for a negative one.  (For a zero decay the
    program's gain depends on the sign of the zero, 0 for +0 and 0.985
    for -0; both lie in the range stated.) *)
Theorem feedback_gain_with_unfloored_decay
        (sampleRate : R) (rnd : nat -> R) (st : Engine) (d s : R) (k : Z) :
  0 < sampleRate -> constructed_lines st ->
  decay (params st) = Num d ->
  size (params st) = Num s -> 0 <= s <= 1 ->
  mode (params st) = Num (IZR k) -> (0 <= k < 4)%Z ->
  exists st' a g,
    updateInternalParams sampleRate rnd st = Some st' /\
    avgDelaySeconds sampleRate (fdnLines st') = Num a /\ 0 < a /\
    fdnFeedback st' = Num g /\ 0 <= g <= 0.985 /\
    (0 < d -> g = Rmin (Rpower 10 (-3 * a / d)) 0.985) /\
    (d < 0 -> g = 0.985).
Proof.
  intros Hsr C Hd Hs Bs Hm Bk.
  destruct (update_gain sampleRate Hsr rnd st s d k C Hs Bs Hm Bk Hd)
    as [st' [a [g [E [A [Pa [F [Bg [P [_ N]]]]]]]]]].
  exists st', a, g.
  split; [exact E|]. split; [exact A|]. split; [exact Pa|].
  split; [exact F|]. split; [exact Bg|].
  split; [intros H; apply P, H | exact N].
Qed.

Lemma feedback_gain_with_unfloored_decay_witness :
  exists st' a g,
    updateInternalParams 48000 (fun _ => 0)
      (set_params (set_decay (Num (-1)) defaultParams)
                  (initialEngine 48000 (fun _ => 0)))
    = Some st' /\
    avgDelaySeconds 48000 (fdnLines st') = Num a /\ 0 < a /\
    fdnFeedback st' = Num g /\ 0 <= g <= 0.985 /\
    (0 < -1 -> g = Rmin (Rpower 10 (-3 * a / -1)) 0.985) /\
    (-1 < 0 -> g = 0.985).
Proof.
  apply (feedback_gain_with_unfloored_decay 48000 (fun _ => 0)
           (set_params (set_decay (Num (-1)) defaultParams)
                       (initialEngine 48000 (fun _ => 0))) (-1) 0.7 0).
  - lra.
  - apply (initial_constructed 48000 (fun _ => 0)).
  - reflexivity.
  - reflexivity.
  - lra.
  - reflexivity.
  - lia.
Defined.

(** With a size multiplier of at least 1 the average line length is at
    least 2500 samples. *)
Lemma avg_constructed_lower (sampleRate : R) (st : Engine) (mr : R) :
  0 < sampleRate -> constructed_lines st -> 1 <= mr ->
  exists a,
    avgDelaySeconds sampleRate (map (set_line_size (Num mr)) (fdnLines st))
    = Num a /\ 2500 / sampleRate <= a.
Proof.
  intros Hsr C Hm. unfold avgDelaySeconds.
  rewrite fold_sizes, sizes_constructed, sum_of_reals by assumption.
  rewrite length_map. destruct C as [Hb _].
  rewrite <- (length_map fl_baseSize), Hb, length_map.
  unfold fdnBaseSizes at 2. cbn [length INR].
  unfold JS.div.
  destruct (Req_dec_T _ 0) as [E|_]; [lra|].
  destruct (Req_dec_T sampleRate 0) as [E|_]; [lra|].
  eexists; split; [reflexivity|].
  assert (P : forall b, 7 <= b -> b - 1 <= IZR (Int_part (b * mr))).
  { intros b Hb7. pose proof (base_Int_part (b * mr)) as [_ B]. nra. }
  unfold fdnBaseSizes. cbn [map fold_left].
  pose proof (P 1453 ltac:(lra)). pose proof (P 1789 ltac:(lra)).
  pose proof (P 2099 ltac:(lra)). pose proof (P 2423 ltac:(lra)).
  pose proof (P 2789 ltac:(lra)). pose proof (P 3167 ltac:(lra)).
  pose proof (P 3547 ltac:(lra)). pose proof (P 3989 ltac:(lra)).
  apply Rmult_le_compat_r; [apply Rlt_le, Rinv_0_lt_compat, Hsr|].
  lra.
Qed.

Lemma ln_10_ge_2 : 2 <= ln 10.
Proof.
  assert (E : exp 2 <= 9).
  { replace 2 with (1 + 1) by ring. rewrite exp_plus.
    pose proof exp_le_3 as H3. pose proof (exp_pos 1) as P1. nra. }
  rewrite <- (ln_exp 2). apply Rlt_le, ln_increasing; [apply exp_pos | lra].
Qed.

Lemma Rpower_10_small (e : R) : e <= - (0.05) -> Rpower 10 e <= 0.95.
Proof.
  intros He.
  apply Rle_trans with (Rpower 10 (- (0.05))); [apply Rle_Rpower; lra|].
  unfold Rpower.
  apply Rle_trans with (exp (- (0.1))).
  - destruct (Req_dec_T (- (0.05) * ln 10) (- (0.1))) as [Q|Q];
      [rewrite Q; lra|].
    apply Rlt_le, exp_increasing. pose proof ln_10_ge_2. lra.
  - rewrite exp_Ropp.
    pose proof (exp_ineq1 0.1 ltac:(lra)) as X.
    assert (I : / exp 0.1 <= / 1.1)
      by (apply Rinv_le_contravar; lra).
    lra.
Qed.

(** C3, as stated, fails.  With a decay of -1 the stored gain is the cap
    0.985, whereas a divisor floored to any epsilon of at most three
    seconds would leave a gain of at most 0.95. *)
Lemma negative_decay_is_not_floored :
  let st := construct 48000 (fun _ => 0) in
  let upd d := onmessage 48000 (fun _ => 0) (set_decay (Num d) defaultParams) st in
  fdnFeedback (upd (-1)) = Num 0.985 /\
  forall eps : R,
    0 < eps <= 3 ->
    exists g, fdnFeedback (upd eps) = Num g /\ g <= 0.95 /\
              fdnFeedback (upd eps) <> fdnFeedback (upd (-1)).
Proof.
  intros st upd.
  assert (G : forall d, exists a g,
               fdnFeedback (upd d) = Num g /\ 0.05 <= a /\
               (0 < d -> g = Rmin (Rpower 10 (-3 * a / d)) 0.985) /\
               (d < 0 -> g = 0.985)).
  { intros d. unfold upd.
    set (p := set_decay (Num d) defaultParams).
    set (md := mkMode (Num 0.9) (Num 0.75) (Num 0.88) (Num 0.06)).
    assert (L : lookup_mode (mode p) = Some md)
      by (apply (lookup_mode_valid 0); lia).
    assert (M : sizeMultiplier p md = Num ((0.3 + 0.7 * 1.7) * 0.9))
      by reflexivity.
    pose proof (onmessage_update 48000 (fun _ => 0) p st md L) as U.
    destruct (update_Some 48000 (fun _ => 0) (set_params p st) md L)
      as [st' [E [_ [F _]]]].
    rewrite U in E. injection E as <-.
    change (params (set_params p st)) with p in F. rewrite M in F.
    destruct (avg_constructed_lower 48000 (set_params p st)
                ((0.3 + 0.7 * 1.7) * 0.9) ltac:(lra)
                (construct_constructed 48000 (fun _ => 0)) ltac:(lra))
      as [a [A Ba]].
    destruct (gain_regimes 48000 _ p a d A ltac:(lra) eq_refl)
      as [g [Eg [_ [P [_ N]]]]].
    exists a, g. split; [rewrite F; exact Eg|].
    split; [lra|]. split; [intros H; apply P, H | exact N]. }
  destruct (G (-1)) as [a1 [g1 [E1 [_ [_ N1]]]]].
  rewrite (N1 ltac:(lra)) in E1.
  split; [exact E1|].
  intros eps He. destruct (G eps) as [a [g [E [Ba [P _]]]]].
  exists g. split; [exact E|].
  assert (B : g <= 0.95).
  { rewrite (P ltac:(lra)).
    apply Rle_trans with (Rpower 10 (-3 * a / eps)); [apply Rmin_l|].
    apply Rpower_10_small.
    assert (I : / 3 <= / eps) by (apply Rinv_le_contravar; lra).
    unfold Rdiv. nra. }
  split; [exact B|].
  rewrite E, E1. intros Q. injection Q as Q. lra.
Qed.

(** ** The output colour cutoff *)

(** C7, as the code has it.  For a colour in [0, 1] the cutoff handed to
    the output filter is max(2000 + (colour - 0.5) 8000, 200): 200 Hz at
    colour 0, 2000 Hz at 0.5 and 6000 Hz at 1. *)
Theorem outputCutoff_range (p : Params) (c : R) :
  color p = Num c -> 0 <= c <= 1 ->
  exists y,
    outputCutoff p = Num y /\
    y = Rmax (2000 + (c - 0.5) * 8000) 200 /\
    200 <= y <= 6000 /\
    (c = 0 -> y = 200) /\ (c = 0.5 -> y = 2000) /\ (c = 1 -> y = 6000).
Proof.
  intros Hc B. unfold outputCutoff, colorCutoff. rewrite Hc.
  cbn. unfold Rmax.
  destruct (Rlt_dec _ _) as [L|L]; destruct (Rle_dec _ _) as [M|M];
    try lra; eexists; (split; [reflexivity|]);
    repeat split; intros; subst; lra.
Qed.

Lemma outputCutoff_range_witness :
  exists y,
    outputCutoff defaultParams = Num y /\
    y = Rmax (2000 + (0.5 - 0.5) * 8000) 200 /\
    200 <= y <= 6000 /\
    (0.5 = 0 -> y = 200) /\ (0.5 = 0.5 -> y = 2000) /\ (0.5 = 1 -> y = 6000).
Proof.
  apply (outputCutoff_range defaultParams 0.5).
  - reflexivity.
  - lra.
Defined.

(** C7, as stated, fails at colour 1: the cutoff is 6000 Hz, which is not
    within a tenth of 10000 Hz. *)
Lemma outputCutoff_at_one_is_not_10000 :
  outputCutoff (set_color (Num 1) defaultParams) = Num 6000 /\
  ~ approximately 0.1 10000 (outputCutoff (set_color (Num 1) defaultParams)).
Proof.
  assert (E : outputCutoff (set_color (Num 1) defaultParams) = Num 6000).
  { unfold outputCutoff, colorCutoff. cbn. js_dec. f_equal. lra. }
  split; [exact E|]. rewrite E. unfold approximately. intros H.
  rewrite Rabs_left in H by lra. lra.
Qed.

(** ** Reads beyond the end of a line buffer *)

Lemma delayedRead_overrun (buf : Float32Array) (n : Z) (m : R) :
  (1 < n)%Z -> (Z.of_nat (length buf) < n)%Z -> 0 < m < 1 ->
  delayedRead buf (Num 0) (Num (IZR n)) (Num m) = NaN.
Proof.
  intros Hn Hlen Hm. unfold delayedRead.
  cbn [JS.sub JS.add JS.neg JS.Math_floor].
  assert (F : Int_part (0 + - IZR n + - m) = (- n - 1)%Z).
  { apply floor_eq. rewrite minus_IZR, opp_IZR. lra. }
  rewrite F.
  rewrite (rem_int (- n - 1) n) by lia.
  replace (Z.rem (- n - 1) n) with (-1)%Z.
  2:{ replace (- n - 1)%Z with (- (n + 1))%Z by lia.
      rewrite Z.rem_opp_l by lia.
      rewrite Z.rem_mod_nonneg by lia.
      replace (n + 1)%Z with (1 + 1 * n)%Z by lia.
      rewrite Z.mod_add by lia. rewrite Z.mod_small by lia. reflexivity. }
  cbn [JS.add]. rewrite <- plus_IZR.
  rewrite (rem_int (-1 + n) n) by lia.
  rewrite Z.rem_small by lia.
  rewrite f32_get_out_of_range by lia.
  reflexivity.
Qed.

Lemma nth_error_of_map {A B} (f : A -> B) (l : list A) (L : list B) (k : nat) (v : B) :
  map f l = L -> nth_error L k = Some v ->
  exists x, nth_error l k = Some x /\ f x = v.
Proof.
  intros <- H. rewrite nth_error_map in H.
  destruct (nth_error l k) as [x|]; [|discriminate].
  exists x. split; [reflexivity|]. injection H as H. exact H.
Qed.

Lemma map_field_at {A B} (f : A -> B) (l : list A) (L : list B) (k : nat) (x : A) (v : B) :
  map f l = L -> nth_error l k = Some x -> nth_error L k = Some v -> f x = v.
Proof.
  intros <- Hx H. rewrite nth_error_map, Hx in H. injection H as H. exact H.
Qed.

(** ** The preset ambient-wash *)

Section AmbientWash.

Variables rnd rnd' : nat -> R.

Let st0 : Engine := construct 48000 rnd.
Let st : Engine := onmessage 48000 rnd' ambientWash st0.

Lemma ambient_mode :
  lookup_mode (mode ambientWash)
  = Some (mkMode (Num 2.0) (Num 0.8) (Num 0.95) (Num 0.03)).
Proof. apply (lookup_mode_valid 3). lia. Qed.

Lemma default_mode :
  lookup_mode (mode defaultParams)
  = Some (mkMode (Num 0.9) (Num 0.75) (Num 0.88) (Num 0.06)).
Proof. apply (lookup_mode_valid 0). lia. Qed.

Lemma ambient_update :
  updateInternalParams 48000 rnd' (set_params ambientWash st0) = Some st.
Proof. apply (onmessage_update 48000 rnd' _ st0 _ ambient_mode). Qed.

Lemma construct_update :
  updateInternalParams 48000 (fun k => rnd (78 + k)%nat) (initialEngine 48000 rnd)
  = Some st0.
Proof.
  unfold st0, construct.
  destruct (update_Some 48000 (fun k => rnd (78 + k)%nat)
              (initialEngine 48000 rnd) _ default_mode) as [s1 [E _]].
  rewrite E. reflexivity.
Qed.

Lemma ambient_constructed : constructed_lines st.
Proof. apply onmessage_constructed, construct_constructed. Qed.

Lemma ambient_sizes :
  map fl_size (fdnLines st)
  = map Num [5564; 6851; 8039; 9280; 10681; 12129; 13585; 15277].
Proof.
  destruct (update_Some 48000 rnd' (set_params ambientWash st0) _ ambient_mode)
    as [s1 [E [_ [_ [S _]]]]].
  rewrite ambient_update in E. injection E as <-.
  rewrite S. cbn [params set_params fdnLines].
  rewrite <- (map_map fl_baseSize
                (fun b => JS.Math_floor (b * sizeMultiplier ambientWash _)%js)).
  destruct (construct_constructed 48000 rnd) as [Hb _]. fold st0 in Hb.
  rewrite Hb. unfold fdnBaseSizes, sizeMultiplier.
  cbn [map size ambientWash sizeScale JS.mul JS.add JS.Math_floor].
  repeat (f_equal; [f_equal; f_equal; apply floor_eq; lra|]).
  do 3 f_equal. apply floor_eq; lra.
Qed.

Lemma ambient_indices :
  map fl_index (fdnLines st) = repeat (Num 0) 8.
Proof.
  pose proof (update_frame _ _ _ _ ambient_update) as [F _].
  rewrite (same_fdn_indices _ _ F). cbn [fdnLines set_params].
  pose proof (update_frame _ _ _ _ construct_update) as [F0 _].
  rewrite (same_fdn_indices _ _ F0). cbn [fdnLines initialEngine].
  rewrite resize_initial. reflexivity.
Qed.

Lemma ambient_modDepths :
  map fl_modDepth (fdnLines st) = repeat (Num (0.45 * 0.5 * 5)) 8.
Proof.
  destruct (update_Some 48000 rnd' (set_params ambientWash st0) _ ambient_mode)
    as [s1 [E [_ [_ [_ [D _]]]]]].
  rewrite ambient_update in E. injection E as <-.
  rewrite D. cbn [params set_params fdnLines].
  destruct (construct_constructed 48000 rnd) as [Hb _]. fold st0 in Hb.
  apply (f_equal (@length _)) in Hb. rewrite !length_map in Hb.
  cbn in Hb.
  destruct (fdnLines st0) as [|? [|? [|? [|? [|? [|? [|? [|? [|]]]]]]]]];
    try discriminate.
  reflexivity.
Qed.

(** C2 fails on the code: after loading the preset, the eighth line has
    the logical length 15277 while its buffer holds 8192 samples. *)
Theorem ambient_wash_line_exceeds_buffer :
  exists line,
    nth_error (fdnLines st) 7 = Some line /\
    fl_size line = Num 15277 /\
    Z.of_nat (length (fl_buffer line)) = 8192%Z.
Proof.
  destruct (nth_error_of_map _ _ _ 7 (Num 15277) ambient_sizes eq_refl)
    as [line [Hl Hs]].
  exists line. split; [exact Hl|]. split; [exact Hs|].
  destruct ambient_constructed as [_ Hlen].
  exact (map_field_at _ _ _ 7 line 8192%Z Hlen Hl eq_refl).
Qed.


Lemma construct_lfos :
  lfos st0
  = mapi (fun i => set_lfo_rate
                     (modRate defaultParams * Num 0.003
                      * (Num 0.8 + Num (INR i) * Num 0.2))%js)
         (lfos (initialEngine 48000 rnd)).
Proof.
  pose proof construct_update as E. unfold updateInternalParams in E.
  cbn [params initialEngine] in E. rewrite default_mode in E.
  injection E as E. rewrite <- E. reflexivity.
Qed.

Lemma ambient_lfos :
  lfos st
  = mapi (fun i => set_lfo_rate
                     (modRate ambientWash * Num 0.003
                      * (Num 0.8 + Num (INR i) * Num 0.2))%js)
         (lfos st0).
Proof.
  pose proof ambient_update as E. unfold updateInternalParams in E.
  cbn [params set_params] in E. rewrite ambient_mode in E.
  injection E as E. rewrite <- E. reflexivity.
Qed.

(** The state at the head of the sample loop of a 128-frame block. *)
Let st1 : Engine := advanceLfos (Num 128) st.

Lemma ambient_lfo0 :
  exists v, lfoValue (lfos st1) 0 = Num v /\ 0 < v < 0.1.
Proof.
  unfold st1, advanceLfos. cbn [lfos set_lfos].
  rewrite ambient_lfos, construct_lfos.
  cbn [lfos initialEngine mapi length seq combine map fst snd set_lfo_rate
       lfo_phase lfo_rate lfo_amp advanceLfo lfoValue nth modRate
       ambientWash defaultParams JS.mul JS.add INR].
  unfold lfoValue. cbn [nth]. unfold advanceLfo, set_lfo_rate.
  cbn [lfo_phase lfo_rate lfo_amp JS.mul JS.add].
  pose proof PI2_3_2 as HPI.
  unfold JS.gt. destruct (Rlt_dec _ _) as [L|L]; [lra|].
  cbn [JS.Math_sin JS.mul].
  eexists; split; [reflexivity|].
  match goal with |- 0 < sin ?x * _ < _ =>
    assert (X : x = 0.09216) by lra; rewrite X end.
  pose proof (sin_gt_0 0.09216 ltac:(lra) ltac:(lra)).
  pose proof (sin_lt_x 0.09216 ltac:(lra)).
  lra.
Qed.

Lemma ambient_line4_reads_NaN :
  nth 4 (fdnOutputsOf st1) NaN = NaN.
Proof.
  destruct (nth_error_of_map _ _ _ 4 (Num 10681) ambient_sizes eq_refl)
    as [line [Hl Hs]].
  pose proof (map_field_at _ _ _ 4 line _ ambient_indices Hl eq_refl) as Hi.
  pose proof (map_field_at _ _ _ 4 line _ ambient_modDepths Hl eq_refl) as Hd.
  destruct ambient_constructed as [_ Hlen].
  pose proof (map_field_at _ _ _ 4 line 8192%Z Hlen Hl eq_refl) as Hb.
  destruct ambient_lfo0 as [v [Hv Bv]].
  unfold fdnOutputsOf.
  change (fdnLines st1) with (fdnLines st).
  apply nth_error_nth.
  rewrite nth_error_mapi, Hl. cbn [option_map]. f_equal.
  unfold fdn_read, fdnLfoValues. cbn [nth].
  rewrite Hi, Hs, Hd, Hv. cbn [JS.mul].
  apply delayedRead_overrun; [lia | lia | lra].
Qed.

End AmbientWash.

(** ** Propagation of a NaN read through one sample *)

Section NaNPropagation.

Variable sampleRate : R.

Lemma wetTaps_NaN (p : Params) (outs : list num) (eL eR : num) :
  nth 4 outs NaN = NaN -> wetTaps p outs eL eR = (NaN, NaN).
Proof.
  intros H. unfold wetTaps. rewrite H. autorewrite with nan. reflexivity.
Qed.

Lemma onePoleLP_NaN (c s : num) : processOnePoleLP c s NaN = NaN.
Proof. unfold processOnePoleLP. autorewrite with nan. reflexivity. Qed.

Lemma safetyLimit_NaN (t : num) : safetyLimit t NaN NaN = (NaN, NaN).
Proof. reflexivity. Qed.

Lemma mixAndClip_NaN (p : Params) (dry : num) : mixAndClip p dry NaN = NaN.
Proof. unfold mixAndClip. autorewrite with nan. reflexivity. Qed.

Lemma process_sample_NaN (st : Engine) (l r : num) :
  nth 4 (fdnOutputsOf st) NaN = NaN ->
  snd (process_sample sampleRate st l r) = (NaN, NaN).
Proof.
  intros H. unfold process_sample. cbn [snd].
  rewrite (wetTaps_NaN _ _ _ _ H). cbn [fst snd].
  rewrite !onePoleLP_NaN, safetyLimit_NaN. cbn [fst snd].
  rewrite !mixAndClip_NaN. reflexivity.
Qed.

Lemma matrixRow_NaN (row outs : list num) :
  nth 4 outs NaN = NaN -> matrixRow row outs = NaN.
Proof.
  intros H. unfold matrixRow. cbn [seq fold_left].
  rewrite H. autorewrite with nan. reflexivity.
Qed.

Lemma applyMatrix_NaN (m : list (list num)) (outs : list num) (idx : nat) :
  nth 4 outs NaN = NaN -> nth idx (applyMatrix m outs) NaN = NaN.
Proof.
  intros H. unfold applyMatrix. cbn [seq map].
  rewrite !(matrixRow_NaN _ _ H).
  do 9 (destruct idx as [|idx]; [reflexivity|]). reflexivity.
Qed.

Lemma softClip_NaN : softClip NaN = NaN.
Proof. reflexivity. Qed.

Lemma line_feedback_NaN (p : Params) (fb fin : num) (mo : list num)
      (idx : nat) (line : FdnLine) (ng : Z) :
  nth idx mo NaN = NaN ->
  lw_value (line_feedback p fb fin mo idx line ng) = NaN.
Proof.
  intros H. unfold line_feedback. rewrite H.
  destruct (idx <? 4)%nat; autorewrite with nan;
    rewrite onePoleLP_NaN; unfold processOnePoleHP; cbn [hp_output];
    autorewrite with nan; rewrite ?softClip_NaN; autorewrite with nan;
    destruct (vintage p >? Num 0)%js; reflexivity.
Qed.

Lemma fdn_write_lines (p : Params) (fb fin : num) (mo : list num)
      (lines : list FdnLine) (idx : nat) (ng : Z) (line' : FdnLine) :
  In line' (fst (fdn_write p fb fin mo idx lines ng)) ->
  exists i line g,
    In line lines /\
    line' = write_line (line_feedback p fb fin mo i line g) line.
Proof.
  revert idx ng. induction lines as [|l ls IH]; intros idx ng; cbn.
  - intros [].
  - intros [<- | H].
    + exists idx, l, ng. split; [left; reflexivity | reflexivity].
    + destruct (IH _ _ H) as [i [line [g [Hin E]]]].
      exists i, line, g. split; [right; exact Hin | exact E].
Qed.

Lemma fdn_write_length (p : Params) (fb fin : num) (mo : list num)
      (lines : list FdnLine) (idx : nat) (ng : Z) :
  length (fst (fdn_write p fb fin mo idx lines ng)) = length lines.
Proof.
  revert idx ng. induction lines as [|l ls IH]; intros idx ng; cbn.
  - reflexivity.
  - rewrite IH. reflexivity.
Qed.

Lemma f32_get_set_0 (buf : Float32Array) (v : num) :
  buf <> [] -> f32_get (f32_set buf (Num 0) v) (Num 0) = v.
Proof.
  intros H. unfold f32_get, f32_set.
  rewrite (as_index_IZR 0) by lia. cbn.
  destruct buf; [congruence | reflexivity].
Qed.

End NaNPropagation.

(** ** A block of silence through the preset ambient-wash *)

Lemma process_first_frame (sampleRate : R) (st : Engine) (l r : num)
      (ls rs : list num) :
  exists st' outL outR,
    process sampleRate st [l :: ls; r :: rs] = (st', Some (outL, outR)) /\
    (nth 0 outL (Num 0), nth 0 outR (Num 0))
    = snd (process_sample sampleRate
             (advanceLfos (Num (INR (S (length ls)))) st) l r) /\
    length outL = S (length ls) /\ length outR = S (length ls).
Proof.
  unfold process. do 3 eexists. split; [reflexivity|].
  cbn [length seq map process_samples nth snd fst].
  split; [symmetry; apply surjective_pairing|].
  rewrite !length_map.
  assert (L : forall s fr, length (snd (process_samples sampleRate s fr)) = length fr).
  { intros s fr. revert s. induction fr as [|[a b] fr IH]; intros s; cbn.
    - reflexivity.
    - rewrite IH. reflexivity. }
  rewrite L, length_map, length_seq. split; reflexivity.
Qed.

Section AmbientWashBlock.

Variables rnd rnd' : nat -> R.

Let st : Engine := onmessage 48000 rnd' ambientWash (construct 48000 rnd).
Let silence : Float32Array := repeat (Num 0) 128.

(** C1 fails on the code: after loading the preset ambient-wash, the
    first sample written to both output channels for a block of 128
    zeros is NaN. *)
Theorem ambient_wash_emits_NaN :
  exists st' outL outR,
    process 48000 st [silence; silence] = (st', Some (outL, outR)) /\
    length outL = 128%nat /\ length outR = 128%nat /\
    nth 0 outL (Num 0) = NaN /\ nth 0 outR (Num 0) = NaN.
Proof.
  unfold silence. change (repeat (Num 0) 128) with (Num 0 :: repeat (Num 0) 127).
  destruct (process_first_frame 48000 st (Num 0) (Num 0)
              (repeat (Num 0) 127) (repeat (Num 0) 127))
    as [st' [outL [outR [E [F [LL LR]]]]]].
  exists st', outL, outR. split; [exact E|].
  rewrite repeat_length in LL, LR, F.
  split; [exact LL|]. split; [exact LR|].
  replace (INR 128) with 128 in F by (rewrite INR_IZR_INZ; reflexivity).
  rewrite process_sample_NaN in F
    by apply (ambient_line4_reads_NaN rnd rnd').
  injection F as FL FR. split; assumption.
Qed.

(** C10 fails on the code: in the same run, the first sample step
    stores NaN in cell 0 of each of the eight FDN line buffers. *)
Theorem ambient_wash_writes_NaN_into_fdn :
  let lines :=
    fdnLines (fst (process_sample 48000 (advanceLfos (Num 128) st)
                                  (Num 0) (Num 0))) in
  length lines = 8%nat /\
  Forall (fun line => f32_get (fl_buffer line) (Num 0) = NaN) lines.
Proof.
  intros lines. unfold lines. cbn [process_sample fst fdnLines].
  change (fdnLines (advanceLfos (Num 128) st)) with (fdnLines st).
  split.
  - rewrite fdn_write_length.
    pose proof (f_equal (@length _) (ambient_indices rnd rnd')) as I.
    fold st in I. rewrite length_map in I. exact I.
  - apply Forall_forall. intros line' H.
    apply fdn_write_lines in H. destruct H as [i [line [g [Hin ->]]]].
    assert (Hi : fl_index line = Num 0).
    { pose proof (ambient_indices rnd rnd') as I. fold st in I.
      apply (in_map fl_index) in Hin. rewrite I in Hin.
      apply repeat_spec in Hin. exact Hin. }
    assert (Hb : fl_buffer line <> []).
    { destruct (ambient_constructed rnd rnd') as [_ L]. fold st in L.
      apply (in_map (fun l => Z.of_nat (length (fl_buffer l)))) in Hin.
      rewrite L in Hin. apply repeat_spec in Hin.
      intros N. rewrite N in Hin. discriminate. }
    cbn [write_line fl_buffer]. rewrite Hi.
    rewrite f32_get_set_0 by exact Hb.
    apply line_feedback_NaN, applyMatrix_NaN.
    apply (ambient_line4_reads_NaN rnd rnd').
Qed.

End AmbientWashBlock.

(** ** The allpass step *)

Lemma nth_list_set {A} (k : nat) (v d : A) (l : list A) :
  (k < length l)%nat -> nth k (list_set k v l) d = v.
Proof.
  revert k. induction l as [|h t IH]; intros k H; cbn in H; [lia|].
  destruct k; cbn; [reflexivity | apply IH; lia].
Qed.

Lemma nth_list_set_other {A} (k j : nat) (v d : A) (l : list A) :
  j <> k -> nth j (list_set k v l) d = nth j l d.
Proof.
  revert k j. induction l as [|h t IH]; intros k j H; [destruct k; reflexivity|].
  destruct k, j; cbn; try reflexivity; try congruence.
  apply IH. congruence.
Qed.

Lemma processAllpass_output (apf : Allpass) (lfoValue : num) (g x d : R) :
  ap_gain apf = Num g -> ap_delayed apf lfoValue = Num d ->
  snd (processAllpass apf (Num x) lfoValue)
  = Num (- g * x + d + g * (x - g * d)).
Proof.
  intros Hg Hd. unfold processAllpass. cbn [snd].
  rewrite Hg, Hd. reflexivity.
Qed.

(** What one step of [processAllpass] computes.  With gain [g], input
    [x] and interpolated delayed value [d] it returns
    [-g x + d + g (x - g d)]: the two terms in [x] cancel and
    [(1 - g g) d] is left, so the input reaches the output through the
    delay only.  It stores [x + g d] at the current index, leaves the
    other cells alone and advances the index by one modulo the size. *)
Theorem processAllpass_transfer (apf : Allpass) (lfoValue : num) (g x d : R) :
  ap_gain apf = Num g -> ap_delayed apf lfoValue = Num d ->
  let r := processAllpass apf (Num x) lfoValue in
  snd r = Num (- g * x + d + g * (x - g * d)) /\
  - g * x + d + g * (x - g * d) = (1 - g * g) * d /\
  ap_buffer (fst r) = f32_set (ap_buffer apf) (ap_index apf) (Num (x + g * d)) /\
  ap_index (fst r) = JS.rem (ap_index apf + Num 1)%js (ap_size apf) /\
  (forall k, as_index (ap_index apf) = Some k ->
             (k < length (ap_buffer apf))%nat ->
             nth k (ap_buffer (fst r)) NaN = Num (x + g * d) /\
             forall j, j <> k ->
                       nth j (ap_buffer (fst r)) NaN = nth j (ap_buffer apf) NaN).
Proof.
  intros Hg Hd r. split; [apply processAllpass_output; assumption|].
  unfold r, processAllpass. cbn [fst snd ap_buffer ap_index].
  rewrite Hg, Hd. cbn [JS.neg JS.mul JS.add JS.sub].
  split; [ring|].
  split; [reflexivity|]. split; [reflexivity|].
  intros k Hk Hlen. unfold f32_set. rewrite Hk. split.
  - apply nth_list_set, Hlen.
  - intros j Hj. apply nth_list_set_other, Hj.
Qed.

Lemma f32_get_new (r : R) (k : Z) :
  (0 <= k < Int_part r)%Z -> f32_get (new_Float32Array (Num r)) (Num (IZR k)) = Num 0.
Proof.
  intros H. unfold f32_get, new_Float32Array.
  rewrite as_index_IZR by lia.
  apply nth_repeat_lt. lia.
Qed.

Lemma first_diffuser_delayed :
  ap_delayed firstDiffuser (Num 0) = Num 0.
Proof.
  unfold ap_delayed, firstDiffuser, mkDiffuser, delayedRead.
  cbn [ap_buffer ap_index ap_size ap_modDepth JS.mul JS.sub JS.add JS.neg
       JS.Math_floor].
  assert (F : Int_part (0 + - (142) + - (0 * 0)) = (-142)%Z)
    by (apply floor_eq; lra).
  rewrite F.
  rewrite (rem_int (-142) 142) by lia.
  change (Z.rem (-142) 142) with 0%Z.
  cbn [JS.add]. rewrite <- !plus_IZR.
  rewrite (rem_int (0 + 142) 142), (rem_int (-142 + 1) 142) by lia.
  change (Z.rem (0 + 142) 142) with 0%Z.
  change (Z.rem (-142 + 1) 142) with (-141)%Z.
  cbn [JS.add]. rewrite <- !plus_IZR.
  rewrite (rem_int (-141 + 142) 142) by lia.
  change (Z.rem (-141 + 142) 142) with 1%Z.
  rewrite !f32_get_new by (rewrite Int_part_IZR; lia).
  cbn [JS.mul JS.add]. f_equal. ring.
Qed.

Lemma processAllpass_transfer_witness :
  let r := processAllpass firstDiffuser (Num 1) (Num 0) in
  snd r = Num (- (0.7) * 1 + 0 + 0.7 * (1 - 0.7 * 0)) /\
  - (0.7) * 1 + 0 + 0.7 * (1 - 0.7 * 0) = (1 - 0.7 * 0.7) * 0 /\
  ap_buffer (fst r)
  = f32_set (ap_buffer firstDiffuser)
            (ap_index firstDiffuser)
            (Num (1 + 0.7 * 0)) /\
  ap_index (fst r)
  = JS.rem (ap_index firstDiffuser + Num 1)%js
           (ap_size firstDiffuser) /\
  (forall k,
      as_index (ap_index firstDiffuser) = Some k ->
      (k < length (ap_buffer firstDiffuser))%nat ->
      nth k (ap_buffer (fst r)) NaN = Num (1 + 0.7 * 0) /\
      forall j, j <> k ->
                nth j (ap_buffer (fst r)) NaN
                = nth j (ap_buffer firstDiffuser) NaN).
Proof.
  apply (processAllpass_transfer firstDiffuser
           (Num 0) 0.7 1 0).
  - reflexivity.
  - exact first_diffuser_delayed.
Defined.

(** C5 fails on the code: for the constructor's first diffuser (gain
    0.7, empty buffer, so [d = 0]) and the input 1 the step returns 0,
    not the [d + g (x - g d) = 0.7] of the transfer the claim states.
    The output expression of the filter cancels its own feed-forward
    term. *)
Lemma allpass_output_is_not_the_stated_formula :
  let apf := firstDiffuser in
  ap_gain apf = Num 0.7 /\
  ap_delayed apf (Num 0) = Num 0 /\
  snd (processAllpass apf (Num 1) (Num 0)) = Num 0 /\
  snd (processAllpass apf (Num 1) (Num 0)) <> Num (0 + 0.7 * (1 - 0.7 * 0)).
Proof.
  intros apf.
  assert (E : snd (processAllpass apf (Num 1) (Num 0)) = Num 0).
  { unfold apf.
    rewrite (processAllpass_output firstDiffuser (Num 0) 0.7 1 0 eq_refl
               first_diffuser_delayed).
    f_equal. lra. }
  split; [reflexivity|]. split; [exact first_diffuser_delayed|].
  split; [exact E|]. rewrite E. intros H. injection H as H. lra.
Qed.

(** ** The dry path *)

Lemma clip_inside (x : R) : -1 <= x <= 1 -> clip x = x.
Proof.
  intros H. unfold clip. rewrite Rmin_right by lra. apply Rmax_right. lra.
Qed.

Lemma clip_range (x : R) : -1 <= clip x <= 1.
Proof.
  unfold clip. split.
  - apply Rmax_l.
  - apply Rmax_lub; [lra | apply Rmin_l].
Qed.

(** With [mix = 0] the wet sample only decides between the dry sample and
    NaN. *)
Lemma mixAndClip_mix0 (p : Params) (dry : R) (wet : num) :
  mix p = Num 0 ->
  mixAndClip p (Num dry) wet
  = match wet with Num _ => Num (clip dry) | _ => NaN end.
Proof.
  intros H. unfold mixAndClip. rewrite H.
  destruct wet as [w| | |]; cbn [JS.sub JS.neg JS.add JS.mul].
  - rewrite Math_min_Num, Math_max_Num. unfold clip.
    do 3 f_equal. ring.
  - unfold JS.scale_inf. js_dec. reflexivity.
  - unfold JS.scale_inf. js_dec. reflexivity.
  - reflexivity.
Qed.

Section DryPath.

Variable sampleRate : R.

Lemma process_sample_inputHP (st : Engine) (l r : num) :
  inputHP (fst (process_sample sampleRate st l r))
  = mkOnePole (op_coeff (inputHP st))
      (hp_state (processOnePoleHP (op_coeff (inputHP st))
                                  (op_stateL (inputHP st)) l))
      (hp_state (processOnePoleHP (op_coeff (inputHP st))
                                  (op_stateR (inputHP st)) r)).
Proof. reflexivity. Qed.

Lemma process_sample_dry (st : Engine) (l r sL sR : R) :
  mix (params st) = Num 0 ->
  op_stateL (inputHP st) = Num sL -> op_stateR (inputHP st) = Num sR ->
  exists wetL wetR,
    snd (process_sample sampleRate st (Num l) (Num r))
    = (match wetL with Num _ => Num (clip (l - sL)) | _ => NaN end,
       match wetR with Num _ => Num (clip (r - sR)) | _ => NaN end).
Proof.
  intros Hm HL HR. unfold process_sample. cbn [snd].
  unfold processOnePoleHP. cbn [hp_output]. rewrite HL, HR.
  cbn [JS.sub JS.neg JS.add].
  do 2 eexists.
  rewrite !(mixAndClip_mix0 _ _ _ Hm). reflexivity.
Qed.

End DryPath.

Lemma process_second_frame (sampleRate : R) (st : Engine) (l0 r0 l1 r1 : num)
      (ls rs : list num) :
  exists st' outL outR,
    process sampleRate st [l0 :: l1 :: ls; r0 :: r1 :: rs]
    = (st', Some (outL, outR)) /\
    (nth 1 outL (Num 0), nth 1 outR (Num 0))
    = snd (process_sample sampleRate
             (fst (process_sample sampleRate
                     (advanceLfos (Num (INR (S (S (length ls))))) st) l0 r0))
             l1 r1).
Proof.
  unfold process. do 3 eexists. split; [reflexivity|].
  cbn [length seq map process_samples nth snd fst].
  symmetry; apply surjective_pairing.
Qed.

Lemma construct_frame (sampleRate : R) (rnd : nat -> R) :
  same_signal_state (initialEngine sampleRate rnd) (construct sampleRate rnd).
Proof.
  unfold construct.
  destruct (updateInternalParams sampleRate _ (initialEngine sampleRate rnd))
    as [s|] eqn:E0.
  - apply update_frame in E0. apply E0.
  - constructor; reflexivity.
Qed.

Lemma exp_neg_lt_1 (w : R) : 0 < w -> 0 < exp (- w) < 1.
Proof.
  intros H. split; [apply exp_pos|].
  rewrite <- exp_0. apply exp_increasing. lra.
Qed.

(** C6, as stated, fails.  On the freshly constructed engine with
    [mix = 0], a block of 128 samples of value 1 comes out with a second
    sample that differs from 1: the input high-pass filter has moved. *)
Lemma bypass_is_not_the_identity :
  let st := onmessage 48000 (fun _ => 0) (set_mix (Num 0) defaultParams)
                      (construct 48000 (fun _ => 0)) in
  let ones := repeat (Num 1) 128 in
  exists st' outL outR,
    process 48000 st [ones; ones] = (st', Some (outL, outR)) /\
    nth 1 ones (Num 0) = Num 1 /\
    nth 1 outL (Num 0) <> Num 1.
Proof.
  intros st ones. unfold ones.
  change (repeat (Num 1) 128) with (Num 1 :: Num 1 :: repeat (Num 1) 126).
  destruct (process_second_frame 48000 st (Num 1) (Num 1) (Num 1) (Num 1)
              (repeat (Num 1) 126) (repeat (Num 1) 126))
    as [st' [outL [outR [E F]]]].
  exists st', outL, outR. split; [exact E|]. split; [reflexivity|].
  set (st1 := advanceLfos _ st) in F.
  set (s1 := fst (process_sample 48000 st1 (Num 1) (Num 1))) in F.
  (* the parameter update that produced [st] *)
  assert (L : lookup_mode (mode (set_mix (Num 0) defaultParams))
              = Some (mkMode (Num 0.9) (Num 0.75) (Num 0.88) (Num 0.06)))
    by (apply (lookup_mode_valid 0); lia).
  pose proof (onmessage_update 48000 (fun _ => 0) _
                (construct 48000 (fun _ => 0)) _ L) as U. fold st in U.
  destruct (update_Some 48000 (fun _ => 0)
              (set_params (set_mix (Num 0) defaultParams)
                          (construct 48000 (fun _ => 0))) _ L)
    as [st2 [U2 [_ [_ [_ [_ [_ [_ [_ C]]]]]]]]].
  rewrite U in U2. injection U2 as <-.
  cbn [params set_params lowCutHz set_mix defaultParams] in C.
  pose proof (update_frame _ _ _ _ U) as [Fr _].
  pose proof (same_inputHP_L _ _ Fr) as SL. cbn [inputHP set_params] in SL.
  assert (S0 : op_stateL (inputHP (construct 48000 (fun _ => 0))) = Num 0).
  { rewrite (same_inputHP_L _ _ (construct_frame 48000 (fun _ => 0))).
    reflexivity. }
  rewrite S0 in SL.
  (* the coefficient of the input high-pass *)
  set (w := 2.0 * PI * 100 / 48000).
  assert (Hw : 0 < w) by (unfold w; pose proof PI_RGT_0; lra).
  assert (C' : op_coeff (inputHP st) = Num ((1.0 - exp (- w)) * 0.05)).
  { rewrite C. unfold onePoleCoeff. cbn [JS.mul]. unfold JS.div.
    destruct (Req_dec_T 48000 0); [lra|]. reflexivity. }
  (* the state after the first frame *)
  assert (P1 : mix (params s1) = Num 0).
  { unfold s1, st1, st. cbn [process_sample fst params advanceLfos set_lfos].
    rewrite onmessage_params. reflexivity. }
  assert (H1 : op_stateL (inputHP s1) = Num (0 + (1.0 - exp (- w)) * 0.05 * (1 - 0))).
  { unfold s1. rewrite process_sample_inputHP. cbn [op_stateL].
    change (inputHP st1) with (inputHP st). rewrite C', SL. reflexivity. }
  assert (H2 : exists sR, op_stateR (inputHP s1) = Num sR).
  { unfold s1. rewrite process_sample_inputHP. cbn [op_stateR].
    change (inputHP st1) with (inputHP st). rewrite C'.
    pose proof (same_inputHP_R _ _ Fr) as SR. cbn [inputHP set_params] in SR.
    assert (R0 : op_stateR (inputHP (construct 48000 (fun _ => 0))) = Num 0).
    { rewrite (same_inputHP_R _ _ (construct_frame 48000 (fun _ => 0))).
      reflexivity. }
    rewrite SR, R0. eexists. reflexivity. }
  destruct H2 as [sR H2].
  destruct (process_sample_dry 48000 s1 1 1 _ sR P1 H1 H2) as [wL [wR D]].
  rewrite D in F. injection F as FL _. rewrite FL.
  destruct (exp_neg_lt_1 w Hw) as [X0 X1].
  destruct wL; try discriminate.
  rewrite clip_inside by lra. intros Q. injection Q as Q. lra.
Qed.

(** ** The value stored in an FDN line *)

Lemma noise_bound (ng : Z) :
  exists n, snd (getVintageNoise ng) = Num n /\ Rabs n <= 0.000005.
Proof.
  unfold getVintageNoise, noise_next. cbn [snd].
  set (g := Z.land _ _).
  assert (B : (0 <= g <= 2147483647)%Z).
  { unfold g. change 0x7fffffff%Z with (Z.ones 31).
    rewrite Z.land_ones by lia.
    change (2 ^ 31)%Z with 2147483648%Z.
    change (Z.ones 31) with 2147483647%Z.
    pose proof (Z.mod_pos_bound (ng * 1103515245 + 12345) 2147483648
                  ltac:(lia)).
    lia. }
  destruct B as [B0 B1]. apply IZR_le in B0, B1.
  unfold JS.div. destruct (Req_dec_T _ 0) as [E|_]; [lra|].
  cbn [JS.sub JS.neg JS.add JS.mul].
  eexists; split; [reflexivity|].
  assert (Q : 0 <= IZR g / 2147483647 <= 1).
  { split.
    - apply Rmult_le_pos; [lra | apply Rlt_le, Rinv_0_lt_compat; lra].
    - apply Rmult_le_reg_r with 2147483647; [lra|].
      unfold Rdiv. rewrite Rmult_assoc, Rinv_l by lra. lra. }
  apply Rabs_le. lra.
Qed.

(** Where the filtered feedback is a real, the stored value is bounded as
    C10 says. *)
Lemma line_feedback_bounded
      (p : Params) (fb fin : num) (mo : list num) (idx : nat) (line : FdnLine)
      (ng : Z) (v m f i dc ds hs : R) :
  vintage p = Num v -> 0 <= v <= 1 ->
  nth idx mo NaN = Num m -> fb = Num f -> fin = Num i ->
  fl_dampCoeff line = Num dc -> fl_dampState line = Num ds ->
  fl_hpState line = Num hs ->
  exists y,
    lw_value (line_feedback p fb fin mo idx line ng) = Num y /\
    Rabs y <= 0.9 * 1.75 + 0.000005.
Proof.
  intros Hv Bv Hm -> -> Hdc Hds Hhs.
  unfold line_feedback. rewrite Hm, Hdc, Hds, Hhs, Hv.
  unfold processOnePoleLP, processOnePoleHP. cbn [hp_output hp_state].
  assert (X : exists h,
             ((Num ds + Num dc *
                 ((if (idx <? 4)%nat then (Num m * Num f + Num i * Num 0.5)%js
                   else (Num m * Num f)%js) - Num ds) - Num hs) * Num 1.2)%js
             = Num h)
    by (destruct (idx <? 4)%nat; eexists; reflexivity).
  destruct X as [h X]. rewrite X.
  destruct (softClip_finite h) as [y0 [S B]]. rewrite S.
  assert (B' : -1.75 <= y0 <= 1.75)
    by (unfold Rabs in B; destruct (Rcase_abs y0); lra).
  destruct (noise_bound ng) as [n [N Bn]].
  assert (Bn' : -0.000005 <= n <= 0.000005)
    by (unfold Rabs in Bn; destruct (Rcase_abs n); lra).
  unfold JS.gt. destruct (Rlt_dec 0 v) as [P|P].
  - cbn [lw_value]. rewrite N. cbn [JS.mul JS.add].
    eexists; split; [reflexivity|]. apply Rabs_le. nra.
  - cbn [lw_value JS.mul].
    eexists; split; [reflexivity|]. apply Rabs_le. lra.
Qed.

(** ** The sample loop on well-formed states *)

Lemma finite_Num (a : num) : is_finite a -> exists x, a = Num x.
Proof. destruct a; cbn; intros H; try contradiction. eexists; reflexivity. Qed.

Ltac fin :=
  repeat match goal with
  | H : is_finite ?a |- _ =>
      let x := fresh "x" in
      let E := fresh "E" in
      destruct (finite_Num a H) as [x E]; clear H;
      try rewrite E in *
  end.

Lemma finite_add (a b : num) : is_finite a -> is_finite b -> is_finite (a + b)%js.
Proof. intros Ha Hb. fin. exact I. Qed.

Lemma finite_sub (a b : num) : is_finite a -> is_finite b -> is_finite (a - b)%js.
Proof. intros Ha Hb. fin. exact I. Qed.

Lemma finite_mul (a b : num) : is_finite a -> is_finite b -> is_finite (a * b)%js.
Proof. intros Ha Hb. fin. exact I. Qed.

Lemma finite_nth (l : list num) (k : nat) :
  all_finite l -> (k < length l)%nat -> is_finite (nth k l NaN).
Proof.
  intros H Hk. unfold all_finite in H. rewrite Forall_forall in H.
  apply H, nth_In, Hk.
Qed.

Lemma f32_get_finite (buf : Float32Array) (k : Z) :
  all_finite buf -> (0 <= k < Z.of_nat (length buf))%Z ->
  is_finite (f32_get buf (Num (IZR k))).
Proof.
  intros H Hk. unfold f32_get. rewrite as_index_IZR by lia.
  apply finite_nth; [exact H | lia].
Qed.

Lemma list_set_Forall {A} (P : A -> Prop) (k : nat) (v : A) (l : list A) :
  Forall P l -> P v -> Forall P (list_set k v l).
Proof.
  intros H Hv. revert k. induction H as [|h t Hh Ht IH]; intros k.
  - destruct k; constructor.
  - destruct k; cbn; constructor; auto.
Qed.

Lemma list_set_length {A} (k : nat) (v : A) (l : list A) :
  length (list_set k v l) = length l.
Proof.
  revert k. induction l as [|h t IH]; intros k; [destruct k; reflexivity|].
  destruct k; cbn; [reflexivity | rewrite IH; reflexivity].
Qed.

Lemma f32_set_finite (buf : Float32Array) (i v : num) :
  all_finite buf -> is_finite v -> all_finite (f32_set buf i v).
Proof.
  intros H Hv. unfold f32_set. destruct (as_index i); [|exact H].
  apply list_set_Forall; assumption.
Qed.

Lemma f32_set_length (buf : Float32Array) (i v : num) :
  length (f32_set buf i v) = length buf.
Proof.
  unfold f32_set. destruct (as_index i); [apply list_set_length | reflexivity].
Qed.

(** [((z % n) + n) % n] lands in [0, n). *)
Lemma wrap_index (z n : Z) :
  (0 < n)%Z ->
  exists k,
    JS.rem (JS.rem (Num (IZR z)) (Num (IZR n)) + Num (IZR n))%js (Num (IZR n))
    = Num (IZR k) /\ (0 <= k < n)%Z.
Proof.
  intros Hn. rewrite rem_int by assumption. cbn [JS.add].
  rewrite <- plus_IZR. rewrite rem_int by assumption.
  eexists; split; [reflexivity|].
  pose proof (Z.rem_bound_abs z n ltac:(lia)) as B.
  assert (0 <= Z.rem z n + n)%Z by lia.
  rewrite Z.rem_mod_nonneg by lia. apply Z.mod_pos_bound. lia.
Qed.

(** [(i + 1) % n] lands in [0, n). *)
Lemma next_index (i n : Z) :
  (0 <= i)%Z -> (0 < n)%Z ->
  exists k,
    JS.rem (Num (IZR i) + Num 1)%js (Num (IZR n)) = Num (IZR k) /\
    (0 <= k < n)%Z.
Proof.
  intros Hi Hn. cbn [JS.add]. rewrite <- plus_IZR.
  rewrite rem_int by assumption.
  eexists; split; [reflexivity|].
  rewrite Z.rem_mod_nonneg by lia. apply Z.mod_pos_bound. lia.
Qed.

Lemma delayedRead_finite (buf : Float32Array) (index sz m : num) :
  wf_delay buf index sz -> is_finite m -> is_finite (delayedRead buf index sz m).
Proof.
  intros [Hf [n [i [-> [-> [Hn Hi]]]]]] Hm. fin.
  unfold delayedRead. cbn [JS.sub JS.add JS.neg JS.Math_floor].
  set (z := Int_part _).
  destruct (wrap_index z n ltac:(lia)) as [k1 [E1 B1]]. rewrite E1.
  rewrite <- plus_IZR.
  destruct (wrap_index (z + 1) n ltac:(lia)) as [k2 [E2 B2]]. rewrite E2.
  apply finite_add; apply finite_mul; try exact I;
    apply f32_get_finite; auto; lia.
Qed.

Lemma processAllpass_wf (apf : Allpass) (x lfo : num) :
  wf_allpass apf -> is_finite x -> is_finite lfo ->
  wf_allpass (fst (processAllpass apf x lfo)) /\
  is_finite (snd (processAllpass apf x lfo)).
Proof.
  intros [Hd [Hg Hm]] Hx Hl.
  assert (D : is_finite (ap_delayed apf lfo))
    by (apply delayedRead_finite; [exact Hd | apply finite_mul; assumption]).
  unfold processAllpass. cbn [fst snd]. split.
  - destruct Hd as [Hf [n [i [Hs [Hi [Bn Bi]]]]]].
    split; [|split; assumption].
    cbn [ap_buffer ap_index ap_size]. split.
    + apply f32_set_finite; [exact Hf|]. fin. exact I.
    + rewrite Hs, Hi.
      destruct (next_index i n ltac:(lia) ltac:(lia)) as [k [E B]].
      exists n, k. rewrite f32_set_length.
      repeat split; try assumption; lia.
  - fin. exact I.
Qed.

Lemma diffuse_wf (sel : nat -> num) (apfs : list Allpass) (idx : nat) (x : num) :
  (forall k, is_finite (sel k)) ->
  Forall wf_allpass apfs -> is_finite x ->
  Forall wf_allpass (fst (diffuse sel idx apfs x)) /\
  is_finite (snd (diffuse sel idx apfs x)).
Proof.
  intros Hsel H. revert idx x.
  induction H as [|a t Ha Ht IH]; intros idx x Hx; cbn [diffuse fst snd].
  - split; [constructor | exact Hx].
  - destruct (processAllpass_wf a x (sel idx) Ha Hx (Hsel idx)) as [W F].
    destruct (IH (S idx) _ F) as [W' F'].
    split; [constructor; assumption | exact F'].
Qed.

Lemma floor_mono (x y : R) : x <= y -> (Int_part x <= Int_part y)%Z.
Proof.
  intros H. pose proof (base_Int_part x) as [X0 X1].
  pose proof (base_Int_part y) as [Y0 Y1].
  assert (L : IZR (Int_part x) < IZR (Int_part y) + 1) by lra.
  rewrite <- plus_IZR in L. apply lt_IZR in L. lia.
Qed.

Lemma floor_nonneg (x : R) : 0 <= x -> (0 <= Int_part x)%Z.
Proof.
  intros H. rewrite <- (Int_part_IZR 0). apply floor_mono. exact H.
Qed.

(** [(a % n)] for a non-negative [a] lands in [0, n). *)
Lemma rem_index (a n : Z) :
  (0 <= a)%Z -> (0 < n)%Z ->
  exists k, JS.rem (Num (IZR a)) (Num (IZR n)) = Num (IZR k) /\ (0 <= k < n)%Z.
Proof.
  intros Ha Hn. rewrite rem_int by assumption.
  eexists; split; [reflexivity|].
  rewrite Z.rem_mod_nonneg by lia. apply Z.mod_pos_bound. lia.
Qed.

Lemma early_read_finite (d : EarlyDelay) : wf_early d -> is_finite (early_read d).
Proof.
  intros [Hf [Hg [n [i [Hs [Hi [Bn Bi]]]]]]].
  unfold early_read, f32_length. rewrite Hs, Hi, INR_IZR_INZ.
  cbn [JS.sub JS.add JS.neg].
  rewrite <- opp_IZR, <- !plus_IZR.
  destruct (rem_index (i + - n + Z.of_nat (length (ed_buffer d)))
                      (Z.of_nat (length (ed_buffer d))) ltac:(lia) ltac:(lia))
    as [k [E B]].
  rewrite E. apply finite_mul; [|exact Hg].
  apply f32_get_finite; [exact Hf | lia].
Qed.

Lemma early_sum_finite (ds : list EarlyDelay) :
  Forall wf_early ds -> is_finite (early_sum ds).
Proof.
  unfold early_sum. intros H.
  assert (G : forall a, is_finite a ->
                is_finite (fold_left (fun acc d => (acc + early_read d)%js) ds a)).
  { induction H as [|d t Hd Ht IH]; intros a Ha; cbn [fold_left].
    - exact Ha.
    - apply IH, finite_add; [exact Ha | apply early_read_finite, Hd]. }
  apply G. exact I.
Qed.

Lemma early_write_wf (v : num) (d : EarlyDelay) :
  is_finite v -> wf_early d -> wf_early (early_write v d).
Proof.
  intros Hv [Hf [Hg [n [i [Hs [Hi [Bn Bi]]]]]]].
  unfold early_write, wf_early. cbn [ed_buffer ed_gain ed_size ed_index].
  split; [apply f32_set_finite; assumption|]. split; [exact Hg|].
  unfold f32_length. rewrite Hi, INR_IZR_INZ, f32_set_length.
  destruct (next_index i (Z.of_nat (length (ed_buffer d)))
                       ltac:(lia) ltac:(lia)) as [k [E B]].
  exists n, k. repeat split; try assumption; lia.
Qed.

Lemma lfoValue_finite (ls : list Lfo) (k : nat) :
  Forall wf_lfo ls -> (k < length ls)%nat -> is_finite (lfoValue ls k).
Proof.
  intros H Hk. unfold lfoValue. rewrite Forall_forall in H.
  destruct (H (nth k ls (mkLfo NaN NaN NaN)) (nth_In _ _ Hk)) as [Hp [_ Ha]].
  fin. exact I.
Qed.

Lemma fdn_read_finite (vals : list num) (idx : nat) (line : FdnLine) :
  all_finite vals -> (idx < length vals)%nat -> wf_line line ->
  is_finite (fdn_read vals idx line).
Proof.
  intros Hv Hi [Hd [_ [_ [_ [_ Hm]]]]]. unfold fdn_read.
  apply delayedRead_finite; [exact Hd|].
  apply finite_mul; [exact Hm | apply finite_nth; assumption].
Qed.

Lemma Forall_mapi {A B} (P : A -> Prop) (Q : B -> Prop) (f : nat -> A -> B)
      (l : list A) :
  Forall P l ->
  (forall i x, (i < length l)%nat -> P x -> Q (f i x)) ->
  Forall Q (mapi f l).
Proof.
  intros H Hf. apply Forall_forall. intros y Hy.
  apply In_nth_error in Hy. destruct Hy as [k Hk].
  rewrite nth_error_mapi in Hk.
  destruct (nth_error l k) as [x|] eqn:E; [|discriminate].
  injection Hk as <-. apply Hf.
  - apply nth_error_Some. congruence.
  - rewrite Forall_forall in H. apply H. eapply nth_error_In, E.
Qed.

Lemma fdnOutputs_finite (st : Engine) :
  Forall wf_lfo (lfos st) -> length (lfos st) = 4%nat ->
  Forall wf_line (fdnLines st) -> length (fdnLines st) = 8%nat ->
  all_finite (fdnOutputsOf st) /\ length (fdnOutputsOf st) = 8%nat.
Proof.
  intros Hl Ll Hf Lf. unfold fdnOutputsOf. split.
  - assert (V : all_finite (fdnLfoValues (lfos st))).
    { unfold fdnLfoValues.
      repeat constructor; apply lfoValue_finite; auto; lia. }
    apply (Forall_mapi wf_line); [exact Hf|].
    intros i x Hi Hx. apply fdn_read_finite; [exact V | cbn; lia | exact Hx].
  - rewrite length_mapi. exact Lf.
Qed.

Lemma matrixRow_finite (row outs : list num) :
  all_finite row -> length row = 8%nat ->
  all_finite outs -> length outs = 8%nat ->
  is_finite (matrixRow row outs).
Proof.
  intros Hr Lr Ho Lo. unfold matrixRow. cbn [seq fold_left].
  repeat apply finite_add; try exact I;
    apply finite_mul; apply finite_nth; auto; lia.
Qed.

Lemma applyMatrix_finite (m : list (list num)) (outs : list num) :
  length m = 8%nat ->
  Forall (fun row => all_finite row /\ length row = 8%nat) m ->
  all_finite outs -> length outs = 8%nat ->
  all_finite (applyMatrix m outs) /\ length (applyMatrix m outs) = 8%nat.
Proof.
  intros Lm Hm Ho Lo. unfold applyMatrix. split; [|reflexivity].
  apply Forall_forall. intros y Hy. apply in_map_iff in Hy.
  destruct Hy as [row [<- Hrow]]. apply in_seq in Hrow.
  rewrite Forall_forall in Hm.
  assert (Hlt : (row < length m)%nat) by lia.
  destruct (Hm (nth row m []) (nth_In m [] Hlt)) as [Hr Lr].
  apply matrixRow_finite; assumption.
Qed.

Lemma line_feedback_wf
      (p : Params) (fb fin : num) (mo : list num) (idx : nat) (line : FdnLine)
      (ng : Z) (v : R) :
  vintage p = Num v -> 0 <= v <= 1 ->
  is_finite (nth idx mo NaN) -> is_finite fb -> is_finite fin ->
  wf_line line ->
  let w := line_feedback p fb fin mo idx line ng in
  (exists y, lw_value w = Num y /\ Rabs y <= fdnBound) /\
  is_finite (lw_dampState w) /\ is_finite (lw_hpState w).
Proof.
  intros Hv Bv Hm Hfb Hfin [_ [Hdc [Hds [Hhc [Hhs _]]]]] w.
  destruct (finite_Num _ Hm) as [m Em].
  destruct (finite_Num _ Hfb) as [f Ef].
  destruct (finite_Num _ Hfin) as [i Ei].
  destruct (finite_Num _ Hdc) as [dc Edc].
  destruct (finite_Num _ Hds) as [ds Eds].
  destruct (finite_Num _ Hhs) as [hs Ehs].
  destruct (finite_Num _ Hhc) as [hc Ehc].
  split.
  - apply (line_feedback_bounded p fb fin mo idx line ng v m f i dc ds hs);
      assumption.
  - unfold w, line_feedback. rewrite Em, Ef, Ei, Edc, Eds, Ehs, Ehc.
    unfold processOnePoleLP, processOnePoleHP. cbn [hp_output hp_state].
    destruct (idx <? 4)%nat; destruct (vintage p >? Num 0)%js;
      cbn [lw_dampState lw_hpState]; split; exact I.
Qed.

Lemma write_line_wf (w : LineWrite) (line : FdnLine) :
  wf_line line ->
  is_finite (lw_value w) -> is_finite (lw_dampState w) ->
  is_finite (lw_hpState w) ->
  wf_line (write_line w line).
Proof.
  intros [[Hf [n [i [Hs [Hi [Bn Bi]]]]]] [Hdc [_ [Hhc [_ Hmd]]]]] Hv Hd Hh.
  unfold write_line, wf_line.
  cbn [fl_buffer fl_index fl_size fl_dampCoeff fl_dampState fl_hpCoeff
       fl_hpState fl_modDepth].
  split; [|repeat split; assumption].
  split; [apply f32_set_finite; assumption|].
  rewrite Hs, Hi.
  destruct (next_index i n ltac:(lia) ltac:(lia)) as [k [E B]].
  exists n, k. rewrite f32_set_length. repeat split; try assumption; lia.
Qed.

Lemma written_cell (w : LineWrite) (line : FdnLine) :
  wf_line line ->
  f32_get (fl_buffer (write_line w line)) (fl_index line) = lw_value w.
Proof.
  intros [[Hf [n [i [Hs [Hi [Bn Bi]]]]]] _].
  cbn [write_line fl_buffer]. rewrite Hi.
  unfold f32_get, f32_set. rewrite as_index_IZR by lia.
  apply nth_list_set. lia.
Qed.

Lemma fdn_write_wf (p : Params) (fb fin : num) (mo : list num) (v : R)
      (lines : list FdnLine) (idx : nat) (ng : Z) :
  vintage p = Num v -> 0 <= v <= 1 ->
  all_finite mo -> (idx + length lines <= length mo)%nat ->
  is_finite fb -> is_finite fin ->
  Forall wf_line lines ->
  Forall wf_line (fst (fdn_write p fb fin mo idx lines ng)) /\
  Forall2 (fun line line' =>
             exists y, f32_get (fl_buffer line') (fl_index line) = Num y /\
                       Rabs y <= fdnBound)
          lines (fst (fdn_write p fb fin mo idx lines ng)).
Proof.
  intros Hv Bv Hmo Hlen Hfb Hfin H. revert idx ng Hlen.
  induction H as [|l t Hl Ht IH]; intros idx ng Hlen; cbn [fdn_write fst].
  - split; constructor.
  - cbn [length] in Hlen.
    assert (Hm : is_finite (nth idx mo NaN)) by (apply finite_nth; [exact Hmo | lia]).
    destruct (line_feedback_wf p fb fin mo idx l ng v Hv Bv Hm Hfb Hfin Hl)
      as [[y [Ey By]] [Hd Hh]].
    destruct (IH (S idx) (lw_noiseGen (line_feedback p fb fin mo idx l ng))
                 ltac:(lia)) as [W B].
    split.
    + constructor; [|exact W].
      apply write_line_wf; try assumption. rewrite Ey. exact I.
    + constructor; [|exact B].
      exists y. rewrite written_cell by exact Hl. split; assumption.
Qed.

Lemma wetTaps_finite (p : Params) (outs : list num) (eL eR : num) :
  is_finite (stereoWidth p) -> all_finite outs -> length outs = 8%nat ->
  is_finite eL -> is_finite eR ->
  is_finite (fst (wetTaps p outs eL eR)) /\
  is_finite (snd (wetTaps p outs eL eR)).
Proof.
  intros Hw Ho Lo HL HR.
  assert (N : forall k, (k < 8)%nat -> is_finite (nth k outs NaN))
    by (intros k Hk; apply finite_nth; [exact Ho | lia]).
  pose proof (N 0%nat ltac:(lia)). pose proof (N 1%nat ltac:(lia)).
  pose proof (N 2%nat ltac:(lia)). pose proof (N 3%nat ltac:(lia)).
  pose proof (N 4%nat ltac:(lia)). pose proof (N 5%nat ltac:(lia)).
  pose proof (N 6%nat ltac:(lia)). pose proof (N 7%nat ltac:(lia)).
  clear N. unfold wetTaps. cbn [fst snd]. fin. split; exact I.
Qed.

Lemma safetyLimit_finite (t : R) (wetL wetR : num) :
  0 <= t -> is_finite wetL -> is_finite wetR ->
  is_finite (fst (safetyLimit (Num t) wetL wetR)) /\
  is_finite (snd (safetyLimit (Num t) wetL wetR)).
Proof.
  intros Ht HL HR. fin. unfold safetyLimit.
  cbn [JS.Math_abs]. rewrite Math_max_Num. unfold JS.gt.
  destruct (Rlt_dec t _) as [P|P]; cbn [fst snd]; [|split; exact I].
  unfold JS.div. destruct (Req_dec_T _ 0) as [Z0|_]; [lra|].
  split; exact I.
Qed.

Lemma mixAndClip_in_range (p : Params) (dry wet : num) :
  is_finite (mix p) -> is_finite dry -> is_finite wet ->
  in_range (mixAndClip p dry wet).
Proof.
  intros Hm Hd Hw. unfold mixAndClip. fin.
  cbn [JS.sub JS.neg JS.add JS.mul].
  rewrite Math_min_Num, Math_max_Num. apply clip_range.
Qed.

Section SampleLoop.

Variable sampleRate : R.
Hypothesis sr_pos : 0 < sampleRate.

Lemma preDelayed_finite (st : Engine) :
  wf_engine sampleRate st ->
  is_finite
    (f32_get (preDelayBuffer st)
       (JS.rem (preDelayIndex st
                - JS.Math_floor ((preDelayMs (params st) / Num 1000)
                                 * Num sampleRate)
                + maxPreDelay st)%js
               (maxPreDelay st))).
Proof.
  intros W. destruct (wf_the_params _ _ W) as [_ [_ [_ [ms [Ems Bms]]]]].
  destruct (wf_preDelay _ _ W) as [Hf [i [EM [EL [Ei Bi]]]]].
  rewrite Ems, EM, Ei. unfold JS.div.
  destruct (Req_dec_T 1000 0) as [Z0|_]; [lra|].
  cbn [JS.mul JS.Math_floor JS.sub JS.add JS.neg].
  set (t := Int_part (ms / 1000 * sampleRate)).
  set (M := Int_part (sampleRate * 0.2)) in *.
  assert (Bt : (0 <= t <= M)%Z).
  { unfold t, M. split.
    - apply floor_nonneg. apply Rmult_le_pos; lra.
    - apply floor_mono. nra. }
  rewrite <- opp_IZR, <- !plus_IZR.
  destruct (rem_index (i + - t + M) M ltac:(lia) ltac:(lia)) as [k [E B]].
  rewrite E. apply f32_get_finite; [exact Hf | lia].
Qed.

Lemma sel_finite (vals : list num) (m : nat) :
  all_finite vals -> length vals = m -> m <> 0%nat ->
  forall idx, is_finite (nth (idx mod m) vals NaN).
Proof.
  intros H L Hm idx. apply finite_nth; [exact H|].
  rewrite L. apply Nat.mod_upper_bound. exact Hm.
Qed.

Lemma onePoleLP_finite (c s x : num) :
  is_finite c -> is_finite s -> is_finite x -> is_finite (processOnePoleLP c s x).
Proof. intros Hc Hs Hx. unfold processOnePoleLP. fin. exact I. Qed.

Lemma onePoleHP_finite (c s x : num) :
  is_finite c -> is_finite s -> is_finite x ->
  is_finite (hp_output (processOnePoleHP c s x)) /\
  is_finite (hp_state (processOnePoleHP c s x)).
Proof.
  intros Hc Hs Hx. unfold processOnePoleHP. cbn [hp_output hp_state].
  fin. split; exact I.
Qed.

(** On a well-formed engine one iteration of the sample loop, fed two
    real samples, leaves a well-formed engine, writes two samples in
    [-1, 1], and stores in each FDN line a real of magnitude at most
    [fdnBound]. *)
Lemma process_sample_wf (st : Engine) (l r : num) :
  wf_engine sampleRate st -> is_finite l -> is_finite r ->
  let res := process_sample sampleRate st l r in
  wf_engine sampleRate (fst res) /\
  in_range (fst (snd res)) /\ in_range (snd (snd res)) /\
  Forall2 (fun line line' =>
             exists y, f32_get (fl_buffer line') (fl_index line) = Num y /\
                       Rabs y <= fdnBound)
          (fdnLines st) (fdnLines (fst res)).
Proof.
  intros W Hl Hr res.
  pose proof (wf_the_params _ _ W) as WP.
  destruct WP as [Hmix [Hwidth [[v [Ev Bv]] Hms]]].
  destruct (wf_inputHP _ _ W) as [Hic [HiL HiR]].
  destruct (wf_outputLP _ _ W) as [Hoc [HoL HoR]].
  destruct (wf_lfos _ _ W) as [Hlfo Llfo].
  destruct (wf_fdnLines _ _ W) as [Hlines Llines].
  destruct (wf_fdnMatrix _ _ W) as [Lmat Hmat].
  destruct (wf_safetyThreshold _ _ W) as [t [Et Bt]].
  pose proof (preDelayed_finite st W) as Hpre.
  set (preDelayed := f32_get _ _) in Hpre.
  (* input high-pass *)
  destruct (onePoleHP_finite _ _ l Hic HiL Hl) as [HinL HsL].
  destruct (onePoleHP_finite _ _ r Hic HiR Hr) as [HinR HsR].
  (* early reflections *)
  pose proof (early_sum_finite _ (wf_earlyDelays _ _ W)) as HeL.
  pose proof (early_sum_finite _ (wf_earlyDelaysR _ _ W)) as HeR.
  (* LFO values *)
  assert (Hv : forall k, (k < 4)%nat -> is_finite (lfoValue (lfos st) k))
    by (intros k Hk; apply lfoValue_finite; [exact Hlfo | lia]).
  pose proof (Hv 0%nat ltac:(lia)) as V0. pose proof (Hv 1%nat ltac:(lia)) as V1.
  pose proof (Hv 2%nat ltac:(lia)) as V2. pose proof (Hv 3%nat ltac:(lia)) as V3.
  (* diffusion *)
  set (selA := fun idx : nat =>
                 nth (idx mod 4) [lfoValue (lfos st) 0; lfoValue (lfos st) 1;
                                  lfoValue (lfos st) 2; lfoValue (lfos st) 3] NaN).
  set (selAR := fun idx : nat =>
                  nth (idx mod 4) [lfoValue (lfos st) 1; lfoValue (lfos st) 2;
                                   lfoValue (lfos st) 3; lfoValue (lfos st) 0] NaN).
  set (selB := fun idx : nat =>
                 nth (idx mod 3) [lfoValue (lfos st) 2; lfoValue (lfos st) 3;
                                  lfoValue (lfos st) 0] NaN).
  set (selBR := fun idx : nat =>
                  nth (idx mod 3) [lfoValue (lfos st) 3; lfoValue (lfos st) 0;
                                   lfoValue (lfos st) 1] NaN).
  assert (SA : forall k, is_finite (selA k))
    by (apply sel_finite; [repeat constructor; assumption | reflexivity | lia]).
  assert (SAR : forall k, is_finite (selAR k))
    by (apply sel_finite; [repeat constructor; assumption | reflexivity | lia]).
  assert (SB : forall k, is_finite (selB k))
    by (apply sel_finite; [repeat constructor; assumption | reflexivity | lia]).
  assert (SBR : forall k, is_finite (selBR k))
    by (apply sel_finite; [repeat constructor; assumption | reflexivity | lia]).
  pose (dA := diffuse selA 0 (diffusionA st)
                  (preDelayed + early_sum (earlyDelays st) * Num 0.5)%js).
  pose (dAR := diffuse selAR 0 (diffusionAR st)
                   (preDelayed + early_sum (earlyDelaysR st) * Num 0.5)%js).
  pose (dB := diffuse selB 0 (diffusionB st) (snd dA)).
  pose (dBR := diffuse selBR 0 (diffusionBR st) (snd dAR)).
  assert (XA : Forall wf_allpass (fst dA) /\ is_finite (snd dA)).
  { apply diffuse_wf; [exact SA | exact (wf_diffusionA _ _ W) |].
    apply finite_add; [exact Hpre | apply finite_mul; [exact HeL | exact I]]. }
  assert (XAR : Forall wf_allpass (fst dAR) /\ is_finite (snd dAR)).
  { apply diffuse_wf; [exact SAR | exact (wf_diffusionAR _ _ W) |].
    apply finite_add; [exact Hpre | apply finite_mul; [exact HeR | exact I]]. }
  destruct XA as [WA FA]. destruct XAR as [WAR FAR].
  destruct (diffuse_wf selB (diffusionB st) 0 (snd dA) SB
              (wf_diffusionB _ _ W) FA) as [WB FB].
  destruct (diffuse_wf selBR (diffusionBR st) 0 (snd dAR) SBR
              (wf_diffusionBR _ _ W) FAR) as [WBR FBR].
  fold dB in WB, FB. fold dBR in WBR, FBR.
  (* the network *)
  destruct (fdnOutputs_finite st Hlfo Llfo Hlines Llines) as [HO LO].
  destruct (applyMatrix_finite _ _ Lmat Hmat HO LO) as [HM LM].
  pose (fdnInput := ((snd dB + snd dBR) * Num 0.5)%js).
  assert (Hfin : is_finite fdnInput)
    by (apply finite_mul; [apply finite_add; assumption | exact I]).
  assert (Hlen : (0 + length (fdnLines st)
                  <= length (applyMatrix (fdnMatrix st) (fdnOutputsOf st)))%nat)
    by lia.
  destruct (fdn_write_wf (params st) (fdnFeedback st) fdnInput
              (applyMatrix (fdnMatrix st) (fdnOutputsOf st)) v
              (fdnLines st) 0 (noiseGen st) Ev Bv HM Hlen
              (wf_fdnFeedback _ _ W) Hfin Hlines) as [WL BL].
  (* output stage *)
  destruct (wetTaps_finite (params st) _ _ _ Hwidth HO LO HeL HeR) as [TL TR].
  pose proof (onePoleLP_finite _ _ _ Hoc HoL TL) as PL.
  pose proof (onePoleLP_finite _ _ _ Hoc HoR TR) as PR.
  destruct (safetyLimit_finite t _ _ Bt PL PR) as [LL LR].
  unfold res, process_sample. cbn [fst snd]. rewrite Et.
  split; [|split; [|split]].
  - constructor;
      cbn [params maxPreDelay preDelayBuffer preDelayIndex earlyDelays
           earlyDelaysR diffusionA diffusionAR diffusionB diffusionBR fdnLines
           fdnMatrix fdnFeedback lfos outputLP inputHP safetyThreshold].
    + exact (wf_the_params _ _ W).
    + destruct (wf_preDelay _ _ W) as [Hf [i [EM [EL [Ei Bi]]]]].
      split; [apply f32_set_finite; [exact Hf|];
              apply finite_mul; [apply finite_add; assumption | exact I]|].
      rewrite EM, Ei.
      destruct (next_index i (Int_part (sampleRate * 0.2)) ltac:(lia) ltac:(lia))
        as [k [E B]].
      exists k. rewrite f32_set_length.
      repeat split; try assumption; try reflexivity; lia.
    + apply Forall_forall. intros d Hd. apply in_map_iff in Hd.
      destruct Hd as [d0 [<- Hd0]]. apply early_write_wf; [exact Hpre|].
      pose proof (wf_earlyDelays _ _ W) as F. rewrite Forall_forall in F. auto.
    + apply Forall_forall. intros d Hd. apply in_map_iff in Hd.
      destruct Hd as [d0 [<- Hd0]]. apply early_write_wf; [exact Hpre|].
      pose proof (wf_earlyDelaysR _ _ W) as F. rewrite Forall_forall in F. auto.
    + exact WA.
    + exact WAR.
    + exact WB.
    + exact WBR.
    + split; [exact WL|]. rewrite fdn_write_length. exact Llines.
    + split; assumption.
    + exact (wf_fdnFeedback _ _ W).
    + split; assumption.
    + repeat split; assumption.
    + repeat split; assumption.
    + exists t. split; [reflexivity | exact Bt].
  - apply mixAndClip_in_range; assumption.
  - apply mixAndClip_in_range; assumption.
  - exact BL.
Qed.

End SampleLoop.

(** ** Blocks on well-formed states *)

Section Blocks.

Variable sampleRate : R.
Hypothesis sr_pos : 0 < sampleRate.

Lemma advanceLfo_wf (blockSize : num) (l : Lfo) :
  is_finite blockSize -> wf_lfo l -> wf_lfo (advanceLfo blockSize l).
Proof.
  intros Hb [Hp [Hr Ha]]. unfold advanceLfo, wf_lfo.
  cbn [lfo_phase lfo_rate lfo_amp]. fin.
  split; [|split; exact I].
  cbn [JS.mul JS.add]. destruct (_ >? _)%js; exact I.
Qed.

Lemma advanceLfos_wf (blockSize : num) (st : Engine) :
  is_finite blockSize -> wf_engine sampleRate st ->
  wf_engine sampleRate (advanceLfos blockSize st).
Proof.
  intros Hb W. pose proof (wf_lfos _ _ W) as [H L].
  destruct W. constructor; try assumption.
  cbn [advanceLfos set_lfos lfos].
  split; [|rewrite length_map; exact L].
  apply Forall_forall. intros l Hl. apply in_map_iff in Hl.
  destruct Hl as [l0 [<- Hl0]]. apply advanceLfo_wf; [exact Hb|].
  rewrite Forall_forall in H. auto.
Qed.

Lemma process_sample_constructed (st : Engine) (l r : num) :
  constructed_lines st ->
  constructed_lines (fst (process_sample sampleRate st l r)).
Proof.
  intros [Hb Hl]. unfold constructed_lines.
  cbn [process_sample fst fdnLines].
  assert (G : forall p fb fin mo lines idx ng,
             map fl_baseSize (fst (fdn_write p fb fin mo idx lines ng))
             = map fl_baseSize lines /\
             map (fun l => Z.of_nat (length (fl_buffer l)))
                 (fst (fdn_write p fb fin mo idx lines ng))
             = map (fun l => Z.of_nat (length (fl_buffer l))) lines).
  { intros p fb fin mo lines. induction lines as [|x t IH]; intros idx ng.
    - split; reflexivity.
    - cbn [fdn_write fst map write_line fl_baseSize fl_buffer].
      destruct (IH (S idx)
                   (lw_noiseGen (line_feedback p fb fin mo idx x ng))) as [A B].
      rewrite A, B, f32_set_length. split; reflexivity. }
  match goal with |- map _ (fst (fdn_write ?p ?fb ?fin ?mo ?idx ?ls ?ng)) = _ /\ _ =>
    destruct (G p fb fin mo ls idx ng) as [A B] end.
  rewrite A, B. split; assumption.
Qed.

Lemma process_samples_wf (frames : list (num * num)) (st : Engine) :
  wf_engine sampleRate st -> constructed_lines st ->
  Forall (fun f => is_finite (fst f) /\ is_finite (snd f)) frames ->
  wf_engine sampleRate (fst (process_samples sampleRate st frames)) /\
  constructed_lines (fst (process_samples sampleRate st frames)) /\
  Forall (fun o => in_range (fst o) /\ in_range (snd o))
         (snd (process_samples sampleRate st frames)).
Proof.
  intros W C H. revert st W C.
  induction H as [|[l r] t [Hl Hr] Ht IH]; intros st W C;
    cbn [process_samples fst snd].
  - split; [exact W | split; [exact C | constructor]].
  - cbn [fst snd] in Hl, Hr.
    destruct (process_sample_wf sampleRate sr_pos st l r W Hl Hr)
      as [W' [OL [OR _]]].
    pose proof (process_sample_constructed st l r C) as C'.
    destruct (IH _ W' C') as [W'' [C'' O]].
    split; [exact W'' | split; [exact C''|]].
    constructor; [split; assumption | exact O].
Qed.

Lemma frames_finite (inputL inputR : list num) :
  all_finite inputL -> all_finite inputR -> length inputR = length inputL ->
  Forall (fun f => is_finite (fst f) /\ is_finite (snd f))
         (map (fun i => (nth i inputL NaN, nth i inputR NaN))
              (seq 0 (length inputL))).
Proof.
  intros HL HR E. apply Forall_forall. intros f Hf.
  apply in_map_iff in Hf. destruct Hf as [i [<- Hi]]. apply in_seq in Hi.
  cbn [fst snd]. split; apply finite_nth; try assumption; lia.
Qed.

Lemma length_process_samples (frames : list (num * num)) (st : Engine) :
  length (snd (process_samples sampleRate st frames)) = length frames.
Proof.
  revert st. induction frames as [|[a b] t IH]; intros st; cbn.
  - reflexivity.
  - rewrite IH. reflexivity.
Qed.

(** On a well-formed engine a stereo block of real samples yields two
    channels of the same length whose samples all lie in [-1, 1], and a
    well-formed engine. *)
Lemma process_wf (st : Engine) (inputL inputR : Float32Array) :
  wf_engine sampleRate st -> constructed_lines st ->
  all_finite inputL -> all_finite inputR -> length inputR = length inputL ->
  exists st' outL outR,
    process sampleRate st [inputL; inputR] = (st', Some (outL, outR)) /\
    wf_engine sampleRate st' /\ constructed_lines st' /\
    length outL = length inputL /\ length outR = length inputL /\
    Forall in_range outL /\ Forall in_range outR.
Proof.
  intros W C HL HR E. unfold process. do 3 eexists.
  split; [reflexivity|].
  set (st1 := advanceLfos _ st).
  assert (W1 : wf_engine sampleRate st1)
    by (apply advanceLfos_wf; [exact I | exact W]).
  assert (C1 : constructed_lines st1) by exact C.
  destruct (process_samples_wf _ st1 W1 C1 (frames_finite _ _ HL HR E))
    as [W' [C' O]].
  split; [exact W'|]. split; [exact C'|].
  rewrite !length_map, length_process_samples, length_map, length_seq.
  split; [reflexivity|]. split; [reflexivity|].
  rewrite Forall_forall in O.
  split; apply Forall_forall; intros y Hy; apply in_map_iff in Hy;
    destruct Hy as [o [<- Ho]]; apply (O o Ho).
Qed.

End Blocks.

(** ** The constructed engine is well formed *)

Lemma new_Float32Array_finite (n : num) : all_finite (new_Float32Array n).
Proof.
  unfold new_Float32Array. destruct n; try constructor.
  apply Forall_forall. intros y Hy. apply repeat_spec in Hy. subst. exact I.
Qed.

Lemma new_plus_1_length (c : Z) :
  (0 <= c)%Z ->
  Z.of_nat (length (new_Float32Array (Num (IZR c) + Num 1)%js)) = (c + 1)%Z.
Proof.
  intros Hc. cbn [JS.add]. rewrite <- plus_IZR.
  apply length_new_Float32Array. lia.
Qed.

Lemma ceilZ_nonneg (x : R) : 0 <= x -> (0 <= JS.ceilZ x)%Z.
Proof.
  intros H. unfold JS.ceilZ.
  assert (Int_part (- x) <= Int_part 0)%Z by (apply floor_mono; lra).
  rewrite (Int_part_IZR 0) in H0. lia.
Qed.

Lemma mkEarlyDelay_wf (sampleRate : R) (scaleMs scaleGain : option R) (tap : R * R) :
  0 <= sampleRate -> 0 <= fst tap ->
  (forall k, scaleMs = Some k -> 0 <= k) ->
  wf_early (mkEarlyDelay sampleRate scaleMs scaleGain tap).
Proof.
  intros Hsr Ht Hk. unfold mkEarlyDelay, wf_early.
  cbn [ed_buffer ed_size ed_gain ed_index].
  assert (D : exists d,
             match scaleMs with
             | Some k => (Num (fst tap) * Num k)%js
             | None => Num (fst tap)
             end = Num d /\ 0 <= d).
  { destruct scaleMs as [k|].
    - exists (fst tap * k). split; [reflexivity|].
      apply Rmult_le_pos; [exact Ht | apply Hk; reflexivity].
    - exists (fst tap). split; [reflexivity | exact Ht]. }
  destruct D as [d [-> Hd]].
  cbn [JS.mul]. unfold JS.div.
  destruct (Req_dec_T 1000 0) as [Z0|_]; [lra|].
  cbn [JS.Math_ceil].
  set (c := JS.ceilZ (sampleRate * d / 1000)).
  assert (Hc : (0 <= c)%Z).
  { apply ceilZ_nonneg. apply Rmult_le_pos; [|lra].
    apply Rmult_le_pos; assumption. }
  split; [apply new_Float32Array_finite|].
  split; [destruct scaleGain; exact I|].
  exists c, 0%Z. rewrite new_plus_1_length by exact Hc.
  repeat split; try reflexivity; lia.
Qed.

Lemma earlyTaps_nonneg (tap : R * R) : In tap earlyTaps -> 0 <= fst tap.
Proof.
  unfold earlyTaps. cbn [In]. intros H.
  repeat (destruct H as [<- | H]; [cbn; lra|]). contradiction.
Qed.

Lemma mkDiffuser_wf (stretch : option R) (gain : R) (rnd : nat -> R)
      (i : nat) (sz : R) :
  (exists z, sz = IZR z /\ (1 <= z)%Z) ->
  (forall k, stretch = Some k -> 1 <= k) ->
  wf_allpass (mkDiffuser stretch gain rnd i sz).
Proof.
  intros [z [-> Hz]] Hk. unfold mkDiffuser, wf_allpass, wf_delay.
  cbn [ap_buffer ap_size ap_index ap_gain ap_modDepth].
  assert (N : exists n,
             match stretch with
             | Some k => JS.Math_floor (Num (IZR z) * Num k)%js
             | None => Num (IZR z)
             end = Num (IZR n) /\ (1 <= n)%Z).
  { destruct stretch as [k|].
    - cbn [JS.mul JS.Math_floor]. eexists; split; [reflexivity|].
      rewrite <- (Int_part_IZR 1). apply floor_mono.
      specialize (Hk k eq_refl). apply IZR_le in Hz. nra.
    - exists z. split; [reflexivity | exact Hz]. }
  destruct N as [n [-> Hn]].
  split; [|split; exact I].
  split; [apply new_Float32Array_finite|].
  exists n, 0%Z. rewrite new_plus_1_length by lia.
  repeat split; try reflexivity; lia.
Qed.

Lemma mkFdnLine_wf (i : nat) (b : R) :
  (exists z, b = IZR z /\ (1 <= z <= 8192)%Z) -> wf_line (mkFdnLine i b).
Proof.
  intros [z [-> Hz]]. unfold mkFdnLine, wf_line, wf_delay.
  cbn [fl_buffer fl_size fl_index fl_dampCoeff fl_dampState fl_hpCoeff
       fl_hpState fl_modDepth].
  split; [|repeat split; exact I].
  split; [apply new_Float32Array_finite|].
  exists z, 0%Z. rewrite (length_new_Float32Array 8192) by lia.
  repeat split; try reflexivity; lia.
Qed.

Lemma hadamard_wf (rnd : nat -> R) :
  length (createHadamardMatrix rnd 8) = 8%nat /\
  Forall (fun row => all_finite row /\ length row = 8%nat)
         (createHadamardMatrix rnd 8).
Proof.
  unfold createHadamardMatrix. split; [reflexivity|].
  assert (S : exists sc, (Num 1.0 / JS.Math_sqrt (Num (INR 8)))%js = Num sc).
  { unfold JS.Math_sqrt.
    assert (P : 0 < INR 8) by (apply lt_0_INR; lia).
    destruct (Rlt_dec (INR 8) 0) as [N|_]; [lra|].
    pose proof (sqrt_lt_R0 _ P) as Q.
    unfold JS.div. destruct (Req_dec_T _ 0) as [Z0|_]; [lra|].
    eexists; reflexivity. }
  destruct S as [sc ->].
  apply Forall_forall. intros row Hrow. apply in_map_iff in Hrow.
  destruct Hrow as [i [<- _]]. split; [|reflexivity].
  apply Forall_forall. intros y Hy. apply in_map_iff in Hy.
  destruct Hy as [j [<- _]].
  unfold hadamardSign. destruct (Nat.odd _); exact I.
Qed.

Section InitialEngine.

Variable sampleRate : R.
Hypothesis sr_ge_5 : 5 <= sampleRate.
Variable rnd : nat -> R.

Lemma initialEngine_wf : wf_engine sampleRate (initialEngine sampleRate rnd).
Proof.
  assert (M1 : (1 <= Int_part (sampleRate * 0.2))%Z).
  { rewrite <- (Int_part_IZR 1). apply floor_mono. lra. }
  constructor; unfold initialEngine;
    cbn [params maxPreDelay preDelayBuffer preDelayIndex earlyDelays
         earlyDelaysR diffusionA diffusionAR diffusionB diffusionBR fdnLines
         fdnMatrix fdnFeedback lfos outputLP inputHP safetyThreshold].
  - repeat split; try exact I.
    + exists 0.3. split; [reflexivity | lra].
    + exists 20. split; [reflexivity | lra].
  - cbn [JS.mul JS.Math_floor]. split; [apply new_Float32Array_finite|].
    exists 0%Z. rewrite length_new_Float32Array by lia.
    repeat split; try reflexivity; lia.
  - apply Forall_forall. intros d Hd. apply in_map_iff in Hd.
    destruct Hd as [tap [<- Htap]].
    apply mkEarlyDelay_wf; [lra | apply earlyTaps_nonneg, Htap | discriminate].
  - apply Forall_forall. intros d Hd. apply in_map_iff in Hd.
    destruct Hd as [tap [<- Htap]].
    apply mkEarlyDelay_wf; [lra | apply earlyTaps_nonneg, Htap |].
    intros k E. injection E as <-. lra.
  - apply (Forall_mapi (fun sz => exists z, sz = IZR z /\ (1 <= z)%Z)).
    + unfold diffusionADelays.
      repeat constructor; eexists; (split; [reflexivity | lia]).
    + intros i x _ Hx. apply mkDiffuser_wf; [exact Hx | discriminate].
  - apply (Forall_mapi (fun sz => exists z, sz = IZR z /\ (1 <= z)%Z)).
    + unfold diffusionADelays.
      repeat constructor; eexists; (split; [reflexivity | lia]).
    + intros i x _ Hx. apply mkDiffuser_wf; [exact Hx|].
      intros k E. injection E as <-. lra.
  - apply (Forall_mapi (fun sz => exists z, sz = IZR z /\ (1 <= z)%Z)).
    + unfold diffusionBDelays.
      repeat constructor; eexists; (split; [reflexivity | lia]).
    + intros i x _ Hx. apply mkDiffuser_wf; [exact Hx | discriminate].
  - apply (Forall_mapi (fun sz => exists z, sz = IZR z /\ (1 <= z)%Z)).
    + unfold diffusionBDelays.
      repeat constructor; eexists; (split; [reflexivity | lia]).
    + intros i x _ Hx. apply mkDiffuser_wf; [exact Hx|].
      intros k E. injection E as <-. lra.
  - rewrite resize_initial. split; [|reflexivity].
    apply (Forall_mapi (fun b => exists z, b = IZR z /\ (1 <= z <= 8192)%Z)).
    + unfold fdnBaseSizes.
      repeat constructor; eexists; (split; [reflexivity | lia]).
    + intros i x _ Hx. apply mkFdnLine_wf, Hx.
  - apply hadamard_wf.
  - exact I.
  - split; [|reflexivity]. repeat constructor.
  - repeat split.
  - repeat split.
  - exists 0.95. split; [reflexivity | lra].
Qed.

End InitialEngine.

(** ** Parameter updates that keep the lines within their buffers *)

Lemma onePoleCoeff_finite (c : num) (sr : R) :
  is_finite c -> sr <> 0 -> is_finite (onePoleCoeff c (Num sr)).
Proof.
  intros Hc Hsr. unfold onePoleCoeff. fin.
  cbn [JS.mul]. unfold JS.div. destruct (Req_dec_T sr 0); [contradiction|].
  exact I.
Qed.

Lemma outputCutoff_finite (p : Params) :
  is_finite (color p) -> is_finite (outputCutoff p).
Proof.
  intros H. unfold outputCutoff, colorCutoff. fin.
  cbn [JS.sub JS.neg JS.add JS.mul]. rewrite Math_max_Num. exact I.
Qed.

Lemma fdnBaseSizes_range (b : R) : In b fdnBaseSizes -> 1453 <= b <= 3989.
Proof.
  unfold fdnBaseSizes. cbn [In]. intros H.
  repeat (destruct H as [<- | H]; [lra|]). contradiction.
Qed.

Lemma constructed_line (st : Engine) (l : FdnLine) :
  constructed_lines st -> In l (fdnLines st) ->
  (exists b, fl_baseSize l = Num b /\ 1453 <= b <= 3989) /\
  Z.of_nat (length (fl_buffer l)) = 8192%Z.
Proof.
  intros [Hb Hl] Hin. split.
  - apply (in_map fl_baseSize) in Hin. rewrite Hb in Hin.
    apply in_map_iff in Hin. destruct Hin as [b [<- Hb']].
    exists b. split; [reflexivity | apply fdnBaseSizes_range, Hb'].
  - apply (in_map (fun l => Z.of_nat (length (fl_buffer l)))) in Hin.
    rewrite Hl in Hin. apply repeat_spec in Hin. exact Hin.
Qed.

Lemma set_params_wf (sampleRate : R) (p : Params) (st : Engine) :
  wf_engine sampleRate st -> wf_params p ->
  wf_engine sampleRate (set_params p st).
Proof. intros W Hp. destruct W. constructor; assumption. Qed.

Section FittingUpdate.

Variable sampleRate : R.
Hypothesis sr_pos : 0 < sampleRate.
Variable rnd : nat -> R.

Lemma update_wf (st st' : Engine) :
  wf_engine sampleRate st -> constructed_lines st ->
  valid_params (params st) -> lines_fit (params st) ->
  updateInternalParams sampleRate rnd st = Some st' ->
  wf_engine sampleRate st'.
Proof.
  intros W C V F E.
  destruct V as [Vp [Vdecay [Vdiff [Vlow [Vhigh [Vcolor [Vrate [Vdepth
                   [s [k [Es [Bs [Ek Bk]]]]]]]]]]]]].
  destruct (sizeMultiplier_valid _ s k Es Bs Ek Bk) as [md [mr [L [M B]]]].
  destruct F as [md' [mr' [L' [M' Fit]]]].
  rewrite L in L'. injection L' as <-. rewrite M in M'. injection M' as <-.
  (* the feedback gain *)
  destruct (finite_Num _ Vdecay) as [d Ed].
  destruct (avg_constructed sampleRate sr_pos st mr C (proj1 B)) as [a [A Pa]].
  destruct (gain_regimes sampleRate _ (params st) a d A Pa Ed) as [g [G _]].
  (* the fields of the new state *)
  unfold updateInternalParams in E. rewrite L, M in E. injection E as <-.
  pose proof (wf_fdnLines _ _ W) as [Hlines Llines].
  pose proof (wf_lfos _ _ W) as [Hlfos Llfos].
  assert (Hsr : sampleRate <> 0) by lra.
  pose proof (onePoleCoeff_finite _ _ Vlow Hsr) as Clow.
  pose proof (onePoleCoeff_finite _ _ Vhigh Hsr) as Chigh.
  pose proof (onePoleCoeff_finite _ _ (outputCutoff_finite _ Vcolor) Hsr) as Ccol.
  assert (AP : forall gs ds l,
             Forall wf_allpass l ->
             Forall wf_allpass
               (map (set_ap_coeffs (diffusion (params st) * diffGain md * Num gs)%js
                                   (modDepth (params st) * Num 0.5 * Num ds)%js) l)).
  { intros gs ds l H. apply Forall_forall. intros x Hx.
    apply in_map_iff in Hx. destruct Hx as [x0 [<- Hx0]].
    rewrite Forall_forall in H. destruct (H x0 Hx0) as [Hd _].
    unfold set_ap_coeffs, wf_allpass.
    cbn [ap_buffer ap_index ap_size ap_gain ap_modDepth].
    split; [exact Hd|].
    assert (Gm : is_finite (diffGain md)).
    { unfold lookup_mode in L. destruct (as_index _) as [j|]; [|discriminate].
      unfold modes in L.
      do 4 (destruct j as [|j]; [injection L as <-; exact I|]).
      destruct j; discriminate. }
    fin. split; exact I. }
  constructor;
    cbn [params maxPreDelay preDelayBuffer preDelayIndex earlyDelays
         earlyDelaysR diffusionA diffusionAR diffusionB diffusionBR fdnLines
         fdnMatrix fdnFeedback lfos outputLP inputHP safetyThreshold].
  - exact Vp.
  - exact (wf_preDelay _ _ W).
  - exact (wf_earlyDelays _ _ W).
  - exact (wf_earlyDelaysR _ _ W).
  - apply AP, (wf_diffusionA _ _ W).
  - apply AP, (wf_diffusionAR _ _ W).
  - apply AP, (wf_diffusionB _ _ W).
  - apply AP, (wf_diffusionBR _ _ W).
  - split; [|rewrite length_mapi, length_map; exact Llines].
    apply (Forall_mapi
             (fun l => wf_delay (fl_buffer l) (fl_index l) (fl_size l) /\
                       is_finite (fl_dampState l) /\ is_finite (fl_hpState l))).
    + apply Forall_forall. intros l Hl. apply in_map_iff in Hl.
      destruct Hl as [l0 [<- Hl0]].
      rewrite Forall_forall in Hlines.
      destruct (Hlines l0 Hl0)
        as [[Hf [n [i [_ [Ei [_ Bi]]]]]] [_ [Hds [_ [Hhs _]]]]].
      destruct (constructed_line st l0 C Hl0) as [[b [Eb Bb]] Len].
      unfold set_line_size.
      cbn [fl_buffer fl_index fl_size fl_dampState fl_hpState].
      split; [|split; assumption].
      split; [exact Hf|]. rewrite Eb. cbn [JS.mul JS.Math_floor].
      exists (Int_part (b * mr)), i. rewrite Len.
      split; [reflexivity|]. split; [exact Ei|]. split; [|lia]. split.
      * assert (1 <= Int_part (b * mr))%Z
          by (rewrite <- (Int_part_IZR 1); apply floor_mono; nra). lia.
      * pose proof (base_Int_part (b * mr)) as [U _].
        assert (X : IZR (Int_part (b * mr)) < IZR 8193) by nra.
        apply lt_IZR in X. lia.
    + intros i x _ [Hd [Hds Hhs]].
      unfold set_line_coeffs, wf_line.
      cbn [fl_buffer fl_index fl_size fl_dampCoeff fl_dampState fl_hpCoeff
           fl_hpState fl_modDepth].
      assert (Dm : is_finite (dampBase md) /\ is_finite (hpBase md)).
      { unfold lookup_mode in L. destruct (as_index _) as [j|]; [|discriminate].
        unfold modes in L.
        do 4 (destruct j as [|j]; [injection L as <-; split; exact I|]).
        destruct j; discriminate. }
      destruct Dm as [Dd Dh].
      split; [exact Hd|]. fin. repeat split; exact I.
  - exact (wf_fdnMatrix _ _ W).
  - rewrite G. exact I.
  - split; [|rewrite length_mapi; exact Llfos].
    apply (Forall_mapi wf_lfo); [exact Hlfos|].
    intros i x _ [Hp [_ Ha]]. unfold set_lfo_rate, wf_lfo.
    cbn [lfo_phase lfo_rate lfo_amp]. fin. repeat split; exact I.
  - destruct (wf_outputLP _ _ W) as [_ [HL HR]].
    unfold set_coeff, wf_onePole. cbn [op_coeff op_stateL op_stateR].
    repeat split; assumption.
  - destruct (wf_inputHP _ _ W) as [_ [HL HR]].
    unfold set_coeff, wf_onePole. cbn [op_coeff op_stateL op_stateR].
    split; [apply finite_mul; [exact Clow | exact I] | split; assumption].
  - exact (wf_safetyThreshold _ _ W).
Qed.

Lemma onmessage_safe (p : Params) (st : Engine) :
  safe_engine sampleRate st -> valid_params p -> lines_fit p ->
  safe_engine sampleRate (onmessage sampleRate rnd p st).
Proof.
  intros [W C] V F. split; [|apply onmessage_constructed, C].
  destruct F as [md [mr [L [M Fit]]]].
  pose proof (onmessage_update sampleRate rnd p st md L) as U.
  apply (update_wf (set_params p st)); try assumption.
  - apply set_params_wf; [exact W | apply V].
  - exists md, mr. repeat split; assumption.
Qed.

End FittingUpdate.

(** ** The regime in which the lines fit their buffers *)

Lemma default_params_valid : valid_params defaultParams /\ lines_fit defaultParams.
Proof.
  split.
  - unfold valid_params, wf_params, defaultParams.
    cbn [mix stereoWidth vintage preDelayMs decay diffusion lowCutHz highCutHz
         color modRate modDepth size mode].
    repeat split; try exact I.
    + exists 0.3. split; [reflexivity | lra].
    + exists 20. split; [reflexivity | lra].
    + exists 0.7, 0%Z. repeat split; try reflexivity; try lra; lia.
  - unfold lines_fit.
    exists (mkMode (Num 0.9) (Num 0.75) (Num 0.88) (Num 0.06)).
    exists ((0.3 + 0.7 * 1.7) * 0.9).
    split; [apply (lookup_mode_valid 0); lia|].
    split; [reflexivity | lra].
Qed.

Section SafeRegime.

Variable sampleRate : R.
Hypothesis sr_ge_5 : 5 <= sampleRate.

Lemma construct_safe (rnd : nat -> R) :
  safe_engine sampleRate (construct sampleRate rnd).
Proof.
  split; [|apply construct_constructed].
  destruct default_params_valid as [V F].
  destruct F as [md [mr [L [M Fit]]]].
  destruct (update_Some sampleRate (fun k => rnd (78 + k)%nat)
              (initialEngine sampleRate rnd) md L) as [st' [E _]].
  unfold construct. rewrite E.
  assert (P : 0 < sampleRate) by lra.
  apply (update_wf sampleRate P (fun k => rnd (78 + k)%nat)
           (initialEngine sampleRate rnd) st'); try assumption.
  - apply initialEngine_wf. exact sr_ge_5.
  - apply initial_constructed.
  - exists md, mr. repeat split; assumption.
Qed.

(** Where C1 and C10 hold in the model: from construction on, as long as
    every parameter update is valid and keeps the size multiplier within
    8193/3989, a block of real samples yields samples in [-1, 1] only.
    The statement made of the program, within the ranges of the setters
    and away from the rounding of the floor, is
    [session_outputs_in_range] below. *)
Lemma outputs_in_range_while_lines_fit :
  (forall rnd, safe_engine sampleRate (construct sampleRate rnd)) /\
  (forall rnd p st,
      safe_engine sampleRate st -> valid_params p -> lines_fit p ->
      safe_engine sampleRate (onmessage sampleRate rnd p st)) /\
  (forall st inputL inputR,
      safe_engine sampleRate st ->
      all_finite inputL -> all_finite inputR ->
      length inputR = length inputL ->
      exists st' outL outR,
        process sampleRate st [inputL; inputR] = (st', Some (outL, outR)) /\
        safe_engine sampleRate st' /\
        length outL = length inputL /\ length outR = length inputL /\
        Forall in_range outL /\ Forall in_range outR).
Proof.
  assert (P : 0 < sampleRate) by lra.
  split; [exact construct_safe|]. split.
  - intros rnd p st. apply onmessage_safe. exact P.
  - intros st inputL inputR [W C] HL HR E.
    destruct (process_wf sampleRate P st inputL inputR W C HL HR E)
      as [st' [outL [outR [Q [W' [C' R]]]]]].
    exists st', outL, outR. split; [exact Q|].
    split; [split; assumption | exact R].
Qed.

End SafeRegime.

(** C6, as the code has it.  With [mix = 0] each output sample is the
    input sample minus the state of the input high-pass filter, clipped
    to [-1, 1], or NaN when the wet sample is not finite; on a
    well-formed engine it is the former.  It is the input sample itself
    when that state is 0 and the input lies in [-1, 1]. *)
Theorem mix_zero_passes_highpassed_input
        (sampleRate : R) (st : Engine) (l r sL sR : R) :
  mix (params st) = Num 0 ->
  op_stateL (inputHP st) = Num sL -> op_stateR (inputHP st) = Num sR ->
  let out := snd (process_sample sampleRate st (Num l) (Num r)) in
  (fst out = Num (clip (l - sL)) \/ fst out = NaN) /\
  (snd out = Num (clip (r - sR)) \/ snd out = NaN) /\
  (0 < sampleRate -> wf_engine sampleRate st ->
   out = (Num (clip (l - sL)), Num (clip (r - sR)))) /\
  (sL = 0 -> -1 <= l <= 1 -> fst out = Num l \/ fst out = NaN) /\
  (sR = 0 -> -1 <= r <= 1 -> snd out = Num r \/ snd out = NaN).
Proof.
  intros Hm HL HR out.
  destruct (process_sample_dry sampleRate st l r sL sR Hm HL HR) as [wL [wR E]].
  assert (A : forall (w : num) (x : R),
             match w with Num _ => Num x | _ => NaN end = Num x \/
             match w with Num _ => Num x | _ => NaN end = NaN)
    by (intros [?| | |] y; auto).
  split; [unfold out; rewrite E; apply A|].
  split; [unfold out; rewrite E; apply A|].
  split.
  - intros P W.
    destruct (process_sample_wf sampleRate P st (Num l) (Num r) W I I)
      as [_ [OL [OR _]]].
    fold out in OL, OR. unfold out in *. rewrite E in *. cbn [fst snd] in OL, OR.
    destruct wL; cbn in OL; try contradiction.
    destruct wR; cbn in OR; try contradiction. reflexivity.
  - unfold out; rewrite E; cbn [fst snd].
    split; intros -> B; rewrite Rminus_0_r, clip_inside by exact B; apply A.
Qed.

Lemma mix_zero_passes_highpassed_input_witness :
  let st := set_params (set_mix (Num 0) defaultParams)
                       (initialEngine 48000 (fun _ => 0)) in
  let out := snd (process_sample 48000 st (Num 0.5) (Num 0.25)) in
  (fst out = Num (clip (0.5 - 0)) \/ fst out = NaN) /\
  (snd out = Num (clip (0.25 - 0)) \/ snd out = NaN) /\
  (0 < 48000 -> wf_engine 48000 st ->
   out = (Num (clip (0.5 - 0)), Num (clip (0.25 - 0)))) /\
  (0 = 0 -> -1 <= 0.5 <= 1 -> fst out = Num 0.5 \/ fst out = NaN) /\
  (0 = 0 -> -1 <= 0.25 <= 1 -> snd out = Num 0.25 \/ snd out = NaN).
Proof.
  intros st.
  apply (mix_zero_passes_highpassed_input 48000 st 0.5 0.25 0 0);
    reflexivity.
Defined.

(** A freshly initialised engine is well formed, so with [mix = 0] its
    first output frame is the input frame. *)
Example mix_zero_first_frame :
  snd (process_sample 48000
         (set_params (set_mix (Num 0) defaultParams)
                     (initialEngine 48000 (fun _ => 0)))
         (Num 0.5) (Num 0.25))
  = (Num 0.5, Num 0.25).
Proof.
  set (st := set_params _ _).
  assert (W : wf_engine 48000 st).
  { apply set_params_wf; [apply initialEngine_wf; lra|].
    unfold wf_params, set_mix, defaultParams.
    cbn [mix stereoWidth vintage preDelayMs].
    repeat split; try exact I.
    - exists 0.3. split; [reflexivity | lra].
    - exists 20. split; [reflexivity | lra]. }
  destruct (process_sample_dry 48000 st 0.5 0.25 0 0 eq_refl eq_refl eq_refl)
    as [wL [wR E]].
  destruct (process_sample_wf 48000 ltac:(lra) st (Num 0.5) (Num 0.25) W I I)
    as [_ [OL [OR _]]].
  rewrite E in *. cbn [fst snd] in OL, OR.
  destruct wL; cbn in OL; try contradiction.
  destruct wR; cbn in OR; try contradiction.
  rewrite !Rminus_0_r, !clip_inside by lra. reflexivity.
Qed.

(** * Further properties of the processor *)

(** ** The output stage *)

(** X1.  Whatever the dry and wet samples and the mix are, the sample
    written to the output is a real in [-1, 1] or NaN: the final clip
    brings the infinities to the bounds and lets only NaN through. *)
Theorem final_clip_range_or_NaN (p : Params) (dry wet : num) :
  in_range (mixAndClip p dry wet) \/ mixAndClip p dry wet = NaN.
Proof.
  unfold mixAndClip.
  destruct (dry * (Num 1 - mix p) + wet * mix p)%js as [x| | |].
  - left. rewrite Math_min_Num, Math_max_Num. apply clip_range.
  - left. cbn. destruct (Rlt_dec (-1) 1); cbn; lra.
  - left. cbn. lra.
  - right. reflexivity.
Qed.

(** X2.  For a threshold [t >= 0] and two real wet samples, the safety
    limiter returns both samples scaled by one common factor in [0, 1],
    and both results have magnitude at most [t]. *)
Theorem safetyLimit_bounds (t l r : R) :
  0 <= t ->
  exists k l' r',
    safetyLimit (Num t) (Num l) (Num r) = (Num l', Num r') /\
    0 <= k <= 1 /\
    (Rmax (Rabs l) (Rabs r) <= t -> k = 1) /\
    l' = l * k /\ r' = r * k /\
    (t < Rmax (Rabs l) (Rabs r) -> Rabs l' <= t /\ Rabs r' <= t).
Proof.
  intros Ht. unfold safetyLimit. cbn [JS.Math_abs]. rewrite Math_max_Num.
  set (peak := Rmax (Rabs l) (Rabs r)).
  assert (Pl : Rabs l <= peak) by apply Rmax_l.
  assert (Pr : Rabs r <= peak) by apply Rmax_r.
  unfold JS.gt. destruct (Rlt_dec t peak) as [P|P].
  - unfold JS.div. destruct (Req_dec_T peak 0) as [Z0|_]; [lra|].
    cbn [JS.mul].
    assert (Pp : 0 < peak) by lra.
    assert (K : 0 <= t / peak <= 1).
    { split.
      - apply Rmult_le_pos; [exact Ht | apply Rlt_le, Rinv_0_lt_compat, Pp].
      - apply Rmult_le_reg_r with peak; [exact Pp|].
        unfold Rdiv. rewrite Rmult_assoc, Rinv_l by lra. lra. }
    assert (B : forall x, Rabs x <= peak -> Rabs (x * (t / peak)) <= t).
    { intros x Hx. rewrite Rabs_mult, (Rabs_pos_eq (t / peak)) by apply K.
      replace t with (peak * (t / peak)) at 2 by (field; lra).
      apply Rmult_le_compat_r; [apply K | exact Hx]. }
    exists (t / peak), (l * (t / peak)), (r * (t / peak)).
    split; [reflexivity|]. split; [exact K|]. split; [intros; lra|].
    split; [reflexivity|]. split; [reflexivity|].
    intros _. split; apply B; assumption.
  - exists 1, l, r.
    split; [reflexivity|]. split; [lra|]. split; [reflexivity|].
    split; [ring|]. split; [ring|]. intros; lra.
Qed.

Lemma safetyLimit_bounds_witness :
  exists k l' r',
    safetyLimit (Num 0.95) (Num 1.9) (Num (-0.5)) = (Num l', Num r') /\
    0 <= k <= 1 /\
    (Rmax (Rabs 1.9) (Rabs (-0.5)) <= 0.95 -> k = 1) /\
    l' = 1.9 * k /\ r' = -0.5 * k /\
    (0.95 < Rmax (Rabs 1.9) (Rabs (-0.5)) -> Rabs l' <= 0.95 /\ Rabs r' <= 0.95).
Proof. apply (safetyLimit_bounds 0.95 1.9 (-0.5)). lra. Defined.

(** ** The one-pole filters *)

(** X3.  For a positive cutoff and a positive sample rate the one-pole
    coefficient [1 - exp(-2 pi cutoff / sr)] lies strictly between 0
    and 1, and it grows with the cutoff. *)
Theorem onePoleCoeff_range (c c' sr : R) :
  0 < c -> c <= c' -> 0 < sr ->
  exists k k',
    onePoleCoeff (Num c) (Num sr) = Num k /\
    onePoleCoeff (Num c') (Num sr) = Num k' /\
    0 < k /\ k <= k' /\ k' < 1.
Proof.
  intros Hc Hcc Hsr. unfold onePoleCoeff. cbn [JS.mul]. unfold JS.div.
  destruct (Req_dec_T sr 0) as [Z0|_]; [lra|].
  cbn [JS.neg JS.Math_exp JS.sub JS.add].
  do 2 eexists. split; [reflexivity|]. split; [reflexivity|].
  pose proof PI_RGT_0 as HPI.
  assert (W : forall x, 0 < x -> 0 < 2.0 * PI * x / sr).
  { intros x Hx. apply Rdiv_lt_0_compat; [|exact Hsr].
    apply Rmult_lt_0_compat; lra. }
  assert (M : 2.0 * PI * c / sr <= 2.0 * PI * c' / sr).
  { apply Rmult_le_compat_r; [apply Rlt_le, Rinv_0_lt_compat, Hsr|].
    apply Rmult_le_compat_l; lra. }
  destruct (exp_neg_lt_1 _ (W c Hc)) as [A0 A1].
  destruct (exp_neg_lt_1 _ (W c' ltac:(lra))) as [B0 B1].
  assert (E : exp (- (2.0 * PI * c' / sr)) <= exp (- (2.0 * PI * c / sr))).
  { destruct (Req_dec_T (2.0 * PI * c / sr) (2.0 * PI * c' / sr)) as [Q|Q].
    - rewrite Q. lra.
    - apply Rlt_le, exp_increasing. lra. }
  lra.
Qed.

Lemma onePoleCoeff_range_witness :
  exists k k',
    onePoleCoeff (Num 100) (Num 48000) = Num k /\
    onePoleCoeff (Num 6000) (Num 48000) = Num k' /\
    0 < k /\ k <= k' /\ k' < 1.
Proof. apply (onePoleCoeff_range 100 6000 48000); lra. Defined.

(** X4.  With a coefficient in [0, 1] the one-pole low-pass returns a
    value between its state and its input, so its state never leaves the
    range of the samples it has seen. *)
Theorem onePoleLP_between (c s x : R) :
  0 <= c <= 1 ->
  exists y,
    processOnePoleLP (Num c) (Num s) (Num x) = Num y /\
    Rmin s x <= y <= Rmax s x.
Proof.
  intros Hc. unfold processOnePoleLP. cbn [JS.sub JS.neg JS.add JS.mul].
  eexists. split; [reflexivity|].
  unfold Rmin, Rmax. destruct (Rle_dec s x); nra.
Qed.

Lemma onePoleLP_between_witness :
  exists y,
    processOnePoleLP (Num 0.25) (Num 0) (Num 1) = Num y /\
    Rmin 0 1 <= y <= Rmax 0 1.
Proof. apply (onePoleLP_between 0.25 0 1). lra. Defined.

(** ** The dither generator *)

(** X5.  Whatever its state, [getVintageNoise] leaves a state in
    [0, 2^31 - 1] and returns a real of magnitude at most 0.000005. *)
Theorem getVintageNoise_range (ng : Z) :
  (0 <= fst (getVintageNoise ng) <= 2147483647)%Z /\
  exists n, snd (getVintageNoise ng) = Num n /\ Rabs n <= 0.000005.
Proof.
  split; [|apply noise_bound].
  unfold getVintageNoise, noise_next. cbn [fst].
  change 0x7fffffff%Z with (Z.ones 31).
  rewrite Z.land_ones by lia.
  change (2 ^ 31)%Z with 2147483648%Z.
  change (Z.ones 31) with 2147483647%Z.
  pose proof (Z.mod_pos_bound (ng * 1103515245 + 12345) 2147483648 ltac:(lia)).
  lia.
Qed.

(** ** Parameter updates *)

Lemma lookup_mode_real (m : R) :
  lookup_mode (Num m) =
  let z := Int_part m in
  if ((0 <=? z) || (Z.rem z 4 =? 0))%Z
  then nth_error modes (Z.to_nat (Z.rem z 4))
  else None.
Proof.
  unfold lookup_mode, JS.Math_floor.
  change (INR (length modes)) with (INR 4). rewrite INR_IZR_INZ.
  change (Z.of_nat 4) with 4%Z.
  rewrite rem_int by lia. cbv zeta.
  set (z := Int_part m).
  destruct (Z.leb_spec 0 z) as [Hz|Hz]; cbn [orb].
  - pose proof (Z.rem_bound_pos z 4 Hz ltac:(lia)) as P.
    rewrite as_index_IZR by lia. reflexivity.
  - pose proof (Z.rem_bound_pos_neg z 4) as N. specialize (N ltac:(lia) ltac:(lia)).
    destruct (Z.eqb_spec (Z.rem z 4) 0) as [E|E].
    + rewrite E. rewrite as_index_IZR by lia. reflexivity.
    + rewrite as_index_neg by lia. reflexivity.
Qed.

(** X6.  The mode index wraps: a real mode whose floor is [z >= 0]
    selects the preset number [z mod 4], so every such mode finds one of
    the four presets. *)
Theorem lookup_mode_wraps (m : R) :
  (0 <= Int_part m)%Z ->
  lookup_mode (Num m) = nth_error modes (Z.to_nat (Int_part m mod 4)) /\
  exists md, lookup_mode (Num m) = Some md /\ In md modes.
Proof.
  intros Hz. rewrite lookup_mode_real. cbv zeta.
  destruct (Z.leb_spec 0 (Int_part m)) as [_|]; [|lia]. cbn [orb].
  rewrite Z.rem_mod_nonneg by lia.
  split; [reflexivity|].
  pose proof (Z.mod_pos_bound (Int_part m) 4 ltac:(lia)) as B.
  destruct (nth_error modes (Z.to_nat (Int_part m mod 4))) as [md|] eqn:E.
  - exists md. split; [reflexivity|]. eapply nth_error_In, E.
  - apply nth_error_None in E. cbn [length modes] in E. lia.
Qed.

Lemma lookup_mode_wraps_witness :
  lookup_mode (Num (IZR 6)) = nth_error modes (Z.to_nat (Int_part (IZR 6) mod 4)) /\
  exists md, lookup_mode (Num (IZR 6)) = Some md /\ In md modes.
Proof.
  apply (lookup_mode_wraps (IZR 6)). rewrite Int_part_IZR. lia.
Defined.

(** X7.  A parameter update throws exactly when the mode is NaN or
    infinite, or is a real whose floor is negative and no multiple of
    4; in every other case it returns an engine. *)
Theorem updateInternalParams_throws_iff
  (sampleRate : R) (rnd : nat -> R) (st : Engine) :
  updateInternalParams sampleRate rnd st = None <->
  match mode (params st) with
  | Num m => (Int_part m < 0)%Z /\ Z.rem (Int_part m) 4 <> 0%Z
  | _ => True
  end.
Proof.
  unfold updateInternalParams.
  destruct (mode (params st)) as [m| | |] eqn:M.
  - rewrite lookup_mode_real. cbv zeta.
    destruct (Z.leb_spec 0 (Int_part m)) as [Hz|Hz]; cbn [orb].
    + rewrite Z.rem_mod_nonneg by lia.
      pose proof (Z.mod_pos_bound (Int_part m) 4 ltac:(lia)) as B.
      destruct (nth_error modes (Z.to_nat (Int_part m mod 4))) eqn:E.
      * split; [discriminate | lia].
      * apply nth_error_None in E. cbn [length modes] in E. lia.
    + destruct (Z.eqb_spec (Z.rem (Int_part m) 4) 0) as [E|E].
      * rewrite E. cbn. split; [discriminate | tauto].
      * split; [intros _; split; [exact Hz | exact E] | reflexivity].
  - cbn. tauto.
  - cbn. tauto.
  - cbn. tauto.
Qed.

Lemma gain_monotone
  (sampleRate : R) (ls : list FdnLine) (p p' : Params) (a d d' : R) :
  avgDelaySeconds sampleRate ls = Num a -> 0 < a ->
  decay p = Num d -> decay p' = Num d' -> 0 < d <= d' ->
  exists g g',
    feedbackGain sampleRate ls p = Num g /\
    feedbackGain sampleRate ls p' = Num g' /\
    0 < g <= g' /\ g' <= 0.985.
Proof.
  intros A Pa D D' B.
  destruct (gain_regimes sampleRate ls p a d A Pa D) as [g [G [Bg [Rg _]]]].
  destruct (gain_regimes sampleRate ls p' a d' A Pa D') as [g' [G' [Bg' [Rg' _]]]].
  destruct (Rg ltac:(lra)) as [Eg Pg].
  destruct (Rg' ltac:(lra)) as [Eg' Pg'].
  exists g, g'. split; [exact G|]. split; [exact G'|].
  split; [|lra]. split; [exact Pg|].
  rewrite Eg, Eg'.
  assert (M : -3 * a / d <= -3 * a / d').
  { assert (I : / d' <= / d) by (apply Rinv_le_contravar; lra).
    unfold Rdiv. nra. }
  apply Rle_Rpower with (e := 10) in M; [|lra].
  apply Rle_min_compat_r. exact M.
Qed.

(** X8.  A longer decay never lowers the feedback gain: when the same
    engine receives two parameter records that differ in the decay only,
    with [0 < d <= d'], size in [0, 1] and mode in 0..3, the feedback
    gains left by the two updates satisfy [0 < g <= g' <= 0.985]. *)
Theorem longer_decay_never_lowers_feedback
  (sampleRate : R) (rnd rnd' : nat -> R) (st : Engine) (p : Params)
  (s d d' : R) (k : Z) :
  0 < sampleRate -> constructed_lines st ->
  size p = Num s -> 0 <= s <= 1 ->
  mode p = Num (IZR k) -> (0 <= k < 4)%Z ->
  decay p = Num d -> 0 < d <= d' ->
  exists g g',
    fdnFeedback (onmessage sampleRate rnd p st) = Num g /\
    fdnFeedback (onmessage sampleRate rnd' (set_decay (Num d') p) st) = Num g' /\
    0 < g <= g' /\ g' <= 0.985.
Proof.
  intros Psr C Hs Bs Hm Bk Hd Bd.
  destruct (sizeMultiplier_valid p s k Hs Bs Hm Bk) as [md [mr [L [M B]]]].
  set (p' := set_decay (Num d') p).
  assert (L' : lookup_mode (mode p') = Some md) by exact L.
  assert (M' : sizeMultiplier p' md = Num mr) by exact M.
  assert (C1 : constructed_lines (set_params p st)) by exact C.
  destruct (avg_constructed sampleRate Psr (set_params p st) mr C1 (proj1 B))
    as [a [A Pa]].
  destruct (gain_monotone sampleRate _ p p' a d d' A Pa Hd eq_refl Bd)
    as [g [g' [G [G' Bg]]]].
  exists g, g'.
  pose proof (onmessage_update sampleRate rnd p st md L) as U.
  pose proof (onmessage_update sampleRate rnd' p' st md L') as U'.
  destruct (update_Some sampleRate rnd (set_params p st) md L)
    as [st1 [E1 [_ [F1 _]]]].
  destruct (update_Some sampleRate rnd' (set_params p' st) md L')
    as [st2 [E2 [_ [F2 _]]]].
  rewrite U in E1. injection E1 as <-.
  rewrite U' in E2. injection E2 as <-.
  split; [|split; [|exact Bg]].
  - rewrite F1. change (params (set_params p st)) with p. rewrite M. exact G.
  - rewrite F2. change (params (set_params p' st)) with p'. rewrite M'.
    exact G'.
Qed.

Lemma longer_decay_never_lowers_feedback_witness :
  exists g g',
    fdnFeedback
      (onmessage 48000 (fun _ => 0) defaultParams (construct 48000 (fun _ => 0)))
    = Num g /\
    fdnFeedback
      (onmessage 48000 (fun _ => 0) (set_decay (Num 8) defaultParams)
         (construct 48000 (fun _ => 0)))
    = Num g' /\
    0 < g <= g' /\ g' <= 0.985.
Proof.
  apply (longer_decay_never_lowers_feedback 48000 (fun _ => 0) (fun _ => 0)
           (construct 48000 (fun _ => 0)) defaultParams 0.7 3.0 8 0).
  - lra.
  - apply construct_constructed.
  - reflexivity.
  - lra.
  - reflexivity.
  - lia.
  - reflexivity.
  - lra.
Defined.

(** ** What the sample loop leaves alone *)

Lemma same_settings_refl (a : Engine) : same_settings a a.
Proof. constructor; reflexivity. Qed.

Lemma same_settings_trans (a b c : Engine) :
  same_settings a b -> same_settings b c -> same_settings a c.
Proof.
  intros [] []. constructor; etransitivity; eassumption.
Qed.

Lemma early_write_settings (v : num) (ds : list EarlyDelay) :
  map early_settings (map (early_write v) ds) = map early_settings ds.
Proof.
  rewrite map_map. apply map_ext. intros d.
  unfold early_settings, early_write. cbn [ed_buffer ed_size ed_gain].
  rewrite f32_set_length. reflexivity.
Qed.

Lemma diffuse_settings (sel : nat -> num) (apfs : list Allpass) (idx : nat) (x : num) :
  map allpass_settings (fst (diffuse sel idx apfs x)) = map allpass_settings apfs.
Proof.
  revert idx x. induction apfs as [|a t IH]; intros idx x; [reflexivity|].
  cbn [diffuse fst map]. rewrite IH. f_equal.
  unfold allpass_settings, processAllpass.
  cbn [fst ap_buffer ap_size ap_gain ap_modPhase ap_modDepth].
  rewrite f32_set_length. reflexivity.
Qed.

Lemma fdn_write_settings (p : Params) (fb fin : num) (mo : list num)
      (lines : list FdnLine) (idx : nat) (ng : Z) :
  map line_settings (fst (fdn_write p fb fin mo idx lines ng))
  = map line_settings lines.
Proof.
  revert idx ng. induction lines as [|l t IH]; intros idx ng; [reflexivity|].
  cbn [fdn_write fst map]. rewrite IH. f_equal.
  unfold line_settings, write_line.
  cbn [fl_buffer fl_size fl_baseSize fl_dampCoeff fl_hpCoeff fl_modPhase
       fl_modDepth].
  rewrite f32_set_length. reflexivity.
Qed.

Lemma process_sample_settings (sampleRate : R) (st : Engine) (l r : num) :
  same_settings st (fst (process_sample sampleRate st l r)).
Proof.
  unfold process_sample. cbv zeta. cbn [fst].
  constructor;
    cbn [params maxPreDelay preDelayBuffer earlyDelays earlyDelaysR diffusionA
         diffusionAR diffusionB diffusionBR fdnLines fdnMatrix fdnFeedback lfos
         outputLP outputHP inputHP safetyThreshold safetyGain op_coeff];
    try reflexivity.
  - apply f32_set_length.
  - apply early_write_settings.
  - apply early_write_settings.
  - apply diffuse_settings.
  - apply diffuse_settings.
  - apply diffuse_settings.
  - apply diffuse_settings.
  - apply fdn_write_settings.
Qed.

Lemma process_samples_settings (sampleRate : R) (frames : list (num * num))
      (st : Engine) :
  same_settings st (fst (process_samples sampleRate st frames)).
Proof.
  revert st. induction frames as [|[l r] t IH]; intros st.
  - apply same_settings_refl.
  - cbn [process_samples fst]. cbv zeta. cbn [fst].
    eapply same_settings_trans; [apply process_sample_settings | apply IH].
Qed.

(** X9.  [process] changes the signal state only: whatever the engine
    and the input, the parameters, every derived coefficient and gain,
    every logical delay length, every buffer length, the feedback matrix
    and gain, the LFO rates and the safety threshold are the same after
    the call. *)
Theorem process_keeps_settings
  (sampleRate : R) (st : Engine) (input : list Float32Array) :
  same_settings st (fst (process sampleRate st input)).
Proof.
  unfold process. destruct input as [|inputL others].
  - apply same_settings_refl.
  - cbv zeta. cbn [fst].
    eapply same_settings_trans; [|apply process_samples_settings].
    constructor; try reflexivity.
    unfold advanceLfos, set_lfos. cbn [lfos].
    rewrite map_map. apply map_ext. reflexivity.
Qed.

(** ** Order of the samples *)

Lemma process_samples_app (sampleRate : R) (a b : list (num * num)) (st : Engine) :
  process_samples sampleRate st (a ++ b) =
  (fst (process_samples sampleRate
          (fst (process_samples sampleRate st a)) b),
   snd (process_samples sampleRate st a)
   ++ snd (process_samples sampleRate
             (fst (process_samples sampleRate st a)) b)).
Proof.
  revert st. induction a as [|[l r] t IH]; intros st.
  - cbn [app process_samples fst snd].
    destruct (process_samples sampleRate st b). reflexivity.
  - cbn [app process_samples]. cbv zeta. rewrite IH. reflexivity.
Qed.

Lemma firstn_seq_min (k s n : nat) :
  firstn k (seq s n) = seq s (Nat.min k n).
Proof.
  revert s n. induction k as [|k IH]; intros s n; [reflexivity|].
  destruct n as [|n]; [reflexivity|].
  cbn [seq firstn Nat.min]. rewrite IH. reflexivity.
Qed.

Lemma nth_of_firstn {A} (l l' : list A) (k i : nat) (d : A) :
  firstn k l = firstn k l' -> (i < k)%nat -> nth i l d = nth i l' d.
Proof.
  intros E H.
  assert (N : nth i (firstn k l) d = nth i (firstn k l') d)
    by (rewrite E; reflexivity).
  rewrite !nth_firstn in N.
  assert (Hb : (i <? k)%nat = true) by (apply Nat.ltb_lt; exact H).
  rewrite Hb in N. exact N.
Qed.

(** X10.  The sample loop does not look ahead: two blocks of the same
    length that agree on their first [k] samples, processed from the
    same engine, give outputs that agree on their first [k] samples. *)
Theorem process_is_causal
  (sampleRate : R) (st : Engine) (k : nat)
  (inputL inputR inputL' inputR' : Float32Array) :
  length inputL' = length inputL ->
  firstn k inputL' = firstn k inputL ->
  firstn k inputR' = firstn k inputR ->
  exists st1 st2 outL outR outL' outR',
    process sampleRate st [inputL; inputR] = (st1, Some (outL, outR)) /\
    process sampleRate st [inputL'; inputR'] = (st2, Some (outL', outR')) /\
    firstn k outL' = firstn k outL /\ firstn k outR' = firstn k outR.
Proof.
  intros HL EL ER. unfold process. cbv zeta. rewrite HL.
  set (st0 := advanceLfos _ st).
  set (fr := map _ (seq 0 (length inputL))).
  set (fr' := map _ (seq 0 (length inputL))).
  do 6 eexists. split; [reflexivity|]. split; [reflexivity|].
  assert (F : firstn k fr' = firstn k fr).
  { unfold fr, fr'. rewrite !firstn_map. apply map_ext_in.
    intros i Hi. rewrite firstn_seq_min in Hi. apply in_seq in Hi.
    f_equal; apply nth_of_firstn with k; try assumption; lia. }
  assert (Len : length fr' = length fr)
    by (unfold fr, fr'; rewrite !length_map; reflexivity).
  destruct (Nat.le_gt_cases k (length fr)) as [Hk|Hk].
  - rewrite <- (firstn_skipn k fr), <- (firstn_skipn k fr').
    rewrite !process_samples_app. cbn [snd]. rewrite !map_app, F.
    set (h := snd (process_samples sampleRate st0 (firstn k fr))).
    assert (Hh : forall (A : Type) (g : num * num -> A) (t t' : list A),
               firstn k (map g h ++ t) = firstn k (map g h ++ t')).
    { intros A g t t'. rewrite !firstn_app.
      f_equal. rewrite length_map. unfold h. rewrite length_process_samples.
      rewrite length_firstn.
      replace (k - Nat.min k (length fr))%nat with 0%nat by lia.
      reflexivity. }
    split; apply Hh.
  - rewrite !firstn_all2 in F by lia. rewrite F. split; reflexivity.
Qed.

Lemma process_is_causal_witness :
  exists st1 st2 outL outR outL' outR',
    process 48000 (construct 48000 (fun _ => 0))
            [[Num 0.5; Num 0.25; Num 1]; [Num 0.5; Num 0; Num 0]]
    = (st1, Some (outL, outR)) /\
    process 48000 (construct 48000 (fun _ => 0))
            [[Num 0.5; Num 0.25; Num (-1)]; [Num 0.5; Num 0; Num 0.125]]
    = (st2, Some (outL', outR')) /\
    firstn 2 outL' = firstn 2 outL /\ firstn 2 outR' = firstn 2 outR.
Proof.
  apply (process_is_causal 48000 (construct 48000 (fun _ => 0)) 2
           [Num 0.5; Num 0.25; Num 1] [Num 0.5; Num 0; Num 0]
           [Num 0.5; Num 0.25; Num (-1)] [Num 0.5; Num 0; Num 0.125]);
    reflexivity.
Defined.

(** ** Delay lines *)

(** X11.  The interpolated read of a delay of [n > 0] samples touches the
    first [n] cells of its buffer only: cutting the buffer down to those
    cells does not change what is read, whatever the index and the
    modulation. *)
Theorem delayedRead_reads_below_size
  (buf : Float32Array) (n : Z) (index m : R) :
  (0 < n)%Z ->
  delayedRead buf (Num index) (Num (IZR n)) (Num m)
  = delayedRead (firstn (Z.to_nat n) buf) (Num index) (Num (IZR n)) (Num m).
Proof.
  intros Hn. unfold delayedRead. cbn [JS.sub JS.add JS.neg JS.Math_floor].
  set (z := Int_part _).
  destruct (wrap_index z n Hn) as [k1 [E1 B1]]. rewrite E1.
  rewrite <- plus_IZR.
  destruct (wrap_index (z + 1) n Hn) as [k2 [E2 B2]]. rewrite E2.
  assert (G : forall k, (0 <= k < n)%Z ->
              f32_get (firstn (Z.to_nat n) buf) (Num (IZR k))
              = f32_get buf (Num (IZR k))).
  { intros k Hk. unfold f32_get. rewrite as_index_IZR by lia.
    rewrite nth_firstn.
    destruct (Nat.ltb_spec (Z.to_nat k) (Z.to_nat n)); [reflexivity | lia]. }
  rewrite !G by assumption. reflexivity.
Qed.

Lemma delayedRead_reads_below_size_witness :
  delayedRead [Num 1; Num 2; Num 3; Num 4] (Num 1) (Num (IZR 3)) (Num 0.5)
  = delayedRead (firstn (Z.to_nat 3) [Num 1; Num 2; Num 3; Num 4])
                (Num 1) (Num (IZR 3)) (Num 0.5).
Proof.
  apply (delayedRead_reads_below_size [Num 1; Num 2; Num 3; Num 4] 3 1 0.5).
  lia.
Defined.

(** *** Early reflections *)

Lemma early_write_step (w : num) (d : EarlyDelay) (i : Z) :
  ed_index d = Num (IZR i) ->
  (0 <= i < Z.of_nat (length (ed_buffer d)))%Z ->
  ed_index (early_write w d)
  = Num (IZR ((i + 1) mod Z.of_nat (length (ed_buffer d)))) /\
  ed_buffer (early_write w d) = list_set (Z.to_nat i) w (ed_buffer d) /\
  ed_size (early_write w d) = ed_size d /\
  ed_gain (early_write w d) = ed_gain d.
Proof.
  intros Hi Bi. unfold early_write, f32_length, f32_set.
  cbn [ed_index ed_buffer ed_size ed_gain].
  rewrite Hi, INR_IZR_INZ. cbn [JS.add]. rewrite <- plus_IZR.
  rewrite rem_int by lia. rewrite Z.rem_mod_nonneg by lia.
  rewrite as_index_IZR by lia. repeat split; reflexivity.
Qed.

Lemma mod_shift_ne (i j L : Z) :
  (0 <= i < L)%Z -> (0 < j < L)%Z -> ((i + j) mod L <> i)%Z.
Proof.
  intros Hi Hj.
  destruct (Z_lt_ge_dec (i + j) L) as [S|S].
  - rewrite Z.mod_small by lia. lia.
  - replace (i + j)%Z with ((i + j - L) + 1 * L)%Z by lia.
    rewrite Z.mod_add by lia. rewrite Z.mod_small by lia. lia.
Qed.

Lemma early_writes (ws : list num) :
  forall (d : EarlyDelay) (i : Z),
    ed_index d = Num (IZR i) ->
    (0 <= i < Z.of_nat (length (ed_buffer d)))%Z ->
    let L := Z.of_nat (length (ed_buffer d)) in
    let d' := fold_left (fun d w => early_write w d) ws d in
    ed_index d' = Num (IZR ((i + Z.of_nat (length ws)) mod L)) /\
    length (ed_buffer d') = length (ed_buffer d) /\
    ed_size d' = ed_size d /\ ed_gain d' = ed_gain d /\
    (forall c : Z,
        (0 <= c < L)%Z ->
        (forall j, (0 <= j < Z.of_nat (length ws))%Z -> ((i + j) mod L)%Z <> c) ->
        nth (Z.to_nat c) (ed_buffer d') NaN = nth (Z.to_nat c) (ed_buffer d) NaN) /\
    ((Z.of_nat (length ws) <= L)%Z ->
     forall j : nat,
       (j < length ws)%nat ->
       nth (Z.to_nat ((i + Z.of_nat j) mod L)) (ed_buffer d') NaN
       = nth j ws NaN).
Proof.
  induction ws as [|w t IH]; intros d i Hi Bi L d'.
  - cbn [length fold_left] in *. subst d'.
    rewrite Z.add_0_r, Z.mod_small by exact Bi.
    repeat split; try assumption; try reflexivity.
    intros _ j Hj. cbn in Hj. lia.
  - destruct (early_write_step w d i Hi Bi) as [I1 [B1 [S1 G1]]].
    fold L in I1.
    assert (Len1 : length (ed_buffer (early_write w d)) = length (ed_buffer d))
      by (rewrite B1; apply list_set_length).
    pose proof (Z.mod_pos_bound (i + 1) L ltac:(lia)) as M1.
    specialize (IH (early_write w d) ((i + 1) mod L)%Z I1
                   ltac:(rewrite Len1; exact M1)).
    cbv zeta in IH. rewrite Len1 in IH. fold L in IH.
    destruct IH as [I2 [L2 [S2 [G2 [F2 C2]]]]].
    subst d'. cbn [fold_left length].
    assert (Shift : forall j : Z,
               (((i + 1) mod L + j) mod L = (i + (1 + j)) mod L)%Z).
    { intros j. rewrite Z.add_mod_idemp_l by lia. f_equal. lia. }
    split; [rewrite I2, Shift; do 3 f_equal; lia|].
    split; [congruence|]. split; [congruence|]. split; [congruence|].
    split.
    + intros c Hc Hne. rewrite F2.
      * rewrite B1. apply nth_list_set_other.
        specialize (Hne 0%Z ltac:(lia)).
        rewrite Z.add_0_r, Z.mod_small in Hne by lia. lia.
      * exact Hc.
      * intros j Hj. rewrite Shift. apply Hne. lia.
    + intros Hlen j Hj. destruct j as [|j].
      * cbn [nth]. change (Z.of_nat 0) with 0%Z.
        rewrite Z.add_0_r, Z.mod_small by lia.
        rewrite F2.
        -- rewrite B1. apply nth_list_set. lia.
        -- lia.
        -- intros j Hj'. rewrite Shift. apply mod_shift_ne; lia.
      * cbn [nth]. rewrite <- (C2 ltac:(lia) j ltac:(lia)).
        rewrite Shift. do 3 f_equal. lia.
Qed.

(** X12.  An early-reflection tap is a delay of exactly [size] samples:
    for a tap of [n] samples with [1 <= n <= buffer length], after [n]
    values have been written the tap reads the first of them, times its
    gain, whatever the buffer held before. *)
Theorem early_tap_delays_by_its_size
  (d : EarlyDelay) (i n : Z) (ws : list num) :
  ed_index d = Num (IZR i) ->
  (0 <= i < Z.of_nat (length (ed_buffer d)))%Z ->
  ed_size d = Num (IZR n) ->
  (1 <= n <= Z.of_nat (length (ed_buffer d)))%Z ->
  Z.of_nat (length ws) = n ->
  early_read (fold_left (fun d w => early_write w d) ws d)
  = (nth 0 ws NaN * ed_gain d)%js.
Proof.
  intros Hi Bi Hs Bn Hw.
  destruct (early_writes ws d i Hi Bi) as [I [Len [S [G [_ C]]]]].
  set (d' := fold_left _ ws d) in *.
  set (L := Z.of_nat (length (ed_buffer d))) in *.
  unfold early_read, f32_length.
  rewrite I, S, G, Hs, Len, INR_IZR_INZ. fold L.
  cbn [JS.sub JS.neg JS.add]. rewrite <- opp_IZR, <- !plus_IZR.
  pose proof (Z.mod_pos_bound (i + Z.of_nat (length ws)) L ltac:(lia)) as M.
  rewrite rem_int by lia. rewrite Z.rem_mod_nonneg by lia.
  replace (((i + Z.of_nat (length ws)) mod L + - n + L) mod L)%Z with i.
  2:{ rewrite Hw.
      rewrite <- Z.add_assoc, Z.add_mod_idemp_l by lia.
      replace (i + n + (- n + L))%Z with (i + 1 * L)%Z by lia.
      rewrite Z.mod_add by lia. rewrite Z.mod_small by lia. reflexivity. }
  f_equal. unfold f32_get. rewrite as_index_IZR by lia.
  specialize (C ltac:(lia) 0%nat ltac:(lia)).
  change (Z.of_nat 0) with 0%Z in C.
  rewrite Z.add_0_r, Z.mod_small in C by lia. exact C.
Qed.

Lemma early_tap_delays_by_its_size_witness :
  early_read
    (fold_left (fun d w => early_write w d) [Num 7; Num 8]
       (mkEarly [Num 1; Num 2; Num 3] (Num (IZR 2)) (Num 0.5) (Num (IZR 1))))
  = (nth 0 [Num 7; Num 8] NaN * Num 0.5)%js.
Proof.
  apply (early_tap_delays_by_its_size
           (mkEarly [Num 1; Num 2; Num 3] (Num (IZR 2)) (Num 0.5) (Num (IZR 1)))
           1 2 [Num 7; Num 8]);
    cbn; try reflexivity; lia.
Defined.

(** ** The LFOs *)

Lemma process_samples_lfos (sampleRate : R) (frames : list (num * num))
      (st : Engine) :
  lfos (fst (process_samples sampleRate st frames)) = lfos st.
Proof.
  revert st. induction frames as [|[l r] t IH]; intros st; [reflexivity|].
  cbn [process_samples fst]. cbv zeta. cbn [fst]. rewrite IH. reflexivity.
Qed.

(** X13.  The LFO phases stay in [0, 2 pi] over a block as long as no
    phase advances by more than one turn per block: when every phase is
    in [0, 2 pi] and every [rate * blockSize] is in [0, 2 pi] before
    [process], every phase is in [0, 2 pi] after it. *)
Theorem lfo_phases_stay_in_range
  (sampleRate : R) (st : Engine) (inputL : Float32Array)
  (others : list Float32Array) :
  Forall (fun l => exists ph r,
              lfo_phase l = Num ph /\ lfo_rate l = Num r /\
              0 <= ph <= 2 * PI /\ 0 <= r * INR (length inputL) <= 2 * PI)
         (lfos st) ->
  Forall (fun l => exists ph, lfo_phase l = Num ph /\ 0 <= ph <= 2 * PI)
         (lfos (fst (process sampleRate st (inputL :: others)))).
Proof.
  intros H. unfold process. cbv zeta. cbn [fst].
  rewrite process_samples_lfos. unfold advanceLfos, set_lfos. cbn [lfos].
  apply Forall_map. revert H. apply Forall_impl.
  intros l [ph [r [Hp [Hr [Bp Br]]]]].
  unfold advanceLfo. cbn [lfo_phase]. rewrite Hp, Hr.
  cbn [JS.mul JS.add JS.sub JS.neg]. unfold JS.gt.
  destruct (Rlt_dec (PI * 2) (ph + r * INR (length inputL))) as [G|G];
    eexists; (split; [reflexivity|]); lra.
Qed.

Lemma lfo_phases_stay_in_range_witness :
  Forall (fun l => exists ph, lfo_phase l = Num ph /\ 0 <= ph <= 2 * PI)
         (lfos (fst (process 48000 (initialEngine 48000 (fun _ => 0))
                             [[Num 0; Num 0]; [Num 0; Num 0]]))).
Proof.
  apply (lfo_phases_stay_in_range 48000 (initialEngine 48000 (fun _ => 0))
           [Num 0; Num 0] [[Num 0; Num 0]]).
  pose proof PI2_3_2 as P. unfold PI2 in P.
  cbn [initialEngine lfos length INR].
  repeat (apply Forall_cons;
          [eexists; eexists; split; [reflexivity|]; split; [reflexivity|];
           cbn [INR]; lra|]).
  apply Forall_nil.
Defined.

(** ** Recomputing the coefficients *)

Lemma mapi_ext_nth {A B} (f g : nat -> A -> B) (l l' : list A) :
  length l' = length l ->
  (forall k x x', nth_error l k = Some x -> nth_error l' k = Some x' ->
                  f k x' = g k x) ->
  mapi f l' = mapi g l.
Proof.
  intros Len H. apply nth_error_ext. intros k.
  rewrite !nth_error_mapi.
  destruct (nth_error l k) as [x|] eqn:E, (nth_error l' k) as [x'|] eqn:E';
    cbn [option_map].
  - f_equal. apply (H k x x'); assumption.
  - apply nth_error_None in E'.
    assert (k < length l)%nat by (apply nth_error_Some; congruence). lia.
  - apply nth_error_None in E.
    assert (k < length l')%nat by (apply nth_error_Some; congruence). lia.
  - reflexivity.
Qed.

(** X14.  Recomputing the coefficients twice is the same as once: an
    update that succeeds leaves an engine on which the same update, with
    the same random draws, changes nothing. *)
Theorem update_is_idempotent
  (sampleRate : R) (rnd : nat -> R) (st st' : Engine) :
  updateInternalParams sampleRate rnd st = Some st' ->
  updateInternalParams sampleRate rnd st' = Some st'.
Proof.
  unfold updateInternalParams.
  destruct (lookup_mode (mode (params st))) as [md|] eqn:L; [|discriminate].
  intros E. injection E as <-.
  cbn [params diffusionA diffusionAR diffusionB diffusionBR fdnLines lfos
       outputLP inputHP maxPreDelay preDelayBuffer preDelayIndex earlyDelays
       earlyDelaysR fdnMatrix outputHP safetyThreshold safetyGain noiseGen].
  rewrite L.
  assert (AP : forall g m (l : list Allpass),
             map (set_ap_coeffs g m) (map (set_ap_coeffs g m) l)
             = map (set_ap_coeffs g m) l).
  { intros g m l. rewrite map_map. apply map_ext. reflexivity. }
  rewrite !AP.
  set (M := sizeMultiplier (params st) md).
  set (lines1 := map (set_line_size M) (fdnLines st)).
  set (cf := fun i : nat => set_line_coeffs _ _ _).
  assert (S : map fl_size (map (set_line_size M) (mapi cf lines1))
              = map fl_size lines1).
  { apply nth_error_ext. intros k.
    rewrite !nth_error_map, nth_error_mapi. unfold lines1.
    rewrite nth_error_map.
    destruct (nth_error (fdnLines st) k); reflexivity. }
  do 2 f_equal.
  - apply nth_error_ext. intros k.
    repeat (rewrite ?nth_error_mapi, ?nth_error_map). unfold lines1.
    rewrite nth_error_map.
    destruct (nth_error (fdnLines st) k); reflexivity.
  - unfold feedbackGain.
    rewrite (avgDelaySeconds_ext sampleRate _ lines1 S). reflexivity.
  - apply nth_error_ext. intros k.
    repeat (rewrite ?nth_error_mapi, ?nth_error_map).
    destruct (nth_error (lfos st) k); reflexivity.
Qed.

Lemma update_is_idempotent_witness :
  updateInternalParams 48000 (fun _ => 0) (construct 48000 (fun _ => 0))
  = Some (construct 48000 (fun _ => 0)).
Proof.
  apply (update_is_idempotent 48000 (fun _ => 0)
           (initialEngine 48000 (fun _ => 0))).
  apply (construct_update (fun _ => 0)).
Defined.

(** X15.  After an update with size in [0, 1] and mode in 0..3 every FDN
    line length is an integer between 217 and 15956, so the wrap
    [% line.size] never divides by zero, while every line buffer keeps
    its 8192 cells. *)
Theorem update_line_sizes
  (sampleRate : R) (rnd : nat -> R) (st : Engine) (s : R) (k : Z) :
  constructed_lines st ->
  size (params st) = Num s -> 0 <= s <= 1 ->
  mode (params st) = Num (IZR k) -> (0 <= k < 4)%Z ->
  exists st',
    updateInternalParams sampleRate rnd st = Some st' /\
    Forall (fun l => exists n : Z,
                fl_size l = Num (IZR n) /\ (217 <= n <= 15956)%Z /\
                Z.of_nat (length (fl_buffer l)) = 8192%Z)
           (fdnLines st').
Proof.
  intros C Hs Bs Hm Bk.
  destruct (sizeMultiplier_valid _ s k Hs Bs Hm Bk) as [md [mr [L [M B]]]].
  destruct (update_Some sampleRate rnd st md L) as [st' [E [_ [_ [S _]]]]].
  exists st'. split; [exact E|].
  pose proof (update_constructed sampleRate rnd st st' E C) as C'.
  apply Forall_forall. intros l' Hin.
  destruct (constructed_line st' l' C' Hin) as [_ Len].
  destruct (In_nth_error _ _ Hin) as [j Hj].
  assert (Hj' : nth_error (map fl_size (fdnLines st')) j = Some (fl_size l'))
    by (rewrite nth_error_map, Hj; reflexivity).
  rewrite S in Hj'.
  destruct (nth_error_of_map _ _ _ j _ eq_refl Hj') as [l [Hl El]].
  destruct (constructed_line st l C (nth_error_In _ _ Hl)) as [[b [Hb Bb]] _].
  rewrite Hb, M in El. cbn [JS.mul JS.Math_floor] in El.
  exists (Int_part (b * mr)). split; [symmetry; exact El|]. split; [|exact Len].
  destruct (base_Int_part (b * mr)) as [I1 I2].
  assert (P : 217 < b * mr <= 15956) by nra.
  split.
  - assert (Q : IZR 216 < IZR (Int_part (b * mr))) by lra.
    apply lt_IZR in Q. lia.
  - assert (Q : IZR (Int_part (b * mr)) < IZR 15957) by lra.
    apply lt_IZR in Q. lia.
Qed.

Lemma update_line_sizes_witness :
  exists st',
    updateInternalParams 48000 (fun _ => 0)
      (set_params ambientWash (construct 48000 (fun _ => 0))) = Some st' /\
    Forall (fun l => exists n : Z,
                fl_size l = Num (IZR n) /\ (217 <= n <= 15956)%Z /\
                Z.of_nat (length (fl_buffer l)) = 8192%Z)
           (fdnLines st').
Proof.
  apply (update_line_sizes 48000 (fun _ => 0)
           (set_params ambientWash (construct 48000 (fun _ => 0))) 0.95 3).
  - apply (construct_constructed 48000 (fun _ => 0)).
  - reflexivity.
  - lra.
  - reflexivity.
  - lia.
Defined.


(** ** The feedback matrix *)

Lemma hadamard_scale (n : nat) :
  (0 < n)%nat ->
  (Num 1.0 / JS.Math_sqrt (Num (INR n)))%js = Num (1.0 / sqrt (INR n)) /\
  0 < sqrt (INR n).
Proof.
  intros Hn.
  assert (P : 0 < INR n) by (apply lt_0_INR; exact Hn).
  pose proof (sqrt_lt_R0 _ P) as Q.
  unfold JS.Math_sqrt. destruct (Rlt_dec (INR n) 0) as [N|_]; [lra|].
  unfold JS.div. destruct (Req_dec_T (sqrt (INR n)) 0) as [Z0|_]; [lra|].
  split; [reflexivity | exact Q].
Qed.

Lemma hadamardSign_cases (i j : nat) :
  hadamardSign i j = Num 1 \/ hadamardSign i j = Num (-1).
Proof.
  unfold hadamardSign. destruct (Nat.odd _); [right | left]; reflexivity.
Qed.

Lemma hadamard_entry (rnd : nat -> R) (n i j : nat) :
  (i < n)%nat -> (j < n)%nat ->
  nth j (nth i (createHadamardMatrix rnd n) []) NaN
  = ((hadamardSign i j * Num (1.0 / sqrt (INR n)))
     * (Num 0.95 + Num (rnd (i * n + j)%nat) * Num 0.1))%js.
Proof.
  intros Hi Hj. unfold createHadamardMatrix. cbv zeta.
  destruct (hadamard_scale n ltac:(lia)) as [-> _].
  set (row := fun i : nat => map _ (seq 0 n)).
  rewrite (nth_indep _ [] (row 0%nat)) by (rewrite length_map, length_seq; exact Hi).
  rewrite (map_nth row), seq_nth by exact Hi. unfold row.
  set (cell := fun j : nat => (_ * _)%js).
  rewrite (nth_indep _ NaN (cell 0%nat)) by (rewrite length_map, length_seq; exact Hj).
  rewrite (map_nth cell), seq_nth by exact Hj. reflexivity.
Qed.

(** X16.  Every entry of the feedback matrix is the Hadamard sign times
    [1 / sqrt n] times a factor in [0.95, 1.05]: for draws in [0, 1] its
    magnitude lies between [0.95 / sqrt n] and [1.05 / sqrt n]. *)
Theorem hadamard_entry_range (rnd : nat -> R) (n i j : nat) :
  (i < n)%nat -> (j < n)%nat -> 0 <= rnd (i * n + j)%nat <= 1 ->
  exists x,
    nth j (nth i (createHadamardMatrix rnd n) []) NaN = Num x /\
    0.95 / sqrt (INR n) <= Rabs x <= 1.05 / sqrt (INR n).
Proof.
  intros Hi Hj Hr. rewrite hadamard_entry by assumption.
  destruct (hadamard_scale n ltac:(lia)) as [_ Q].
  set (s := sqrt (INR n)) in *. set (r := rnd _) in *.
  assert (U : 0 < / s) by (apply Rinv_0_lt_compat; exact Q).
  assert (K : 0.95 <= 0.95 + r * 0.1 <= 1.05) by lra.
  assert (B : forall k, 0.95 <= k <= 1.05 ->
              0.95 / s <= (1.0 / s) * k <= 1.05 / s).
  { intros k Hk. unfold Rdiv. split; nra. }
  destruct (hadamardSign_cases i j) as [-> | ->]; cbn [JS.mul JS.add];
    eexists; (split; [reflexivity|]).
  - rewrite Rmult_1_l, Rabs_pos_eq; [apply B, K|].
    specialize (B _ K). unfold Rdiv in *. nra.
  - replace (-1 * (1.0 / s) * (0.95 + r * 0.1))
      with (- ((1.0 / s) * (0.95 + r * 0.1))) by ring.
    rewrite Rabs_Ropp, Rabs_pos_eq; [apply B, K|].
    specialize (B _ K). unfold Rdiv in *. nra.
Qed.

Lemma hadamard_entry_range_witness :
  exists x,
    nth 3 (nth 5 (createHadamardMatrix (fun _ => 0.5) 8) []) NaN = Num x /\
    0.95 / sqrt (INR 8) <= Rabs x <= 1.05 / sqrt (INR 8).
Proof.
  apply (hadamard_entry_range (fun _ => 0.5) 8 5 3); [lia | lia | lra].
Defined.

Lemma hadamard_const_row (c : R) (i : nat) :
  (i < 8)%nat ->
  nth i (createHadamardMatrix (fun _ => c) 8) []
  = map (fun j => (hadamardSign i j * Num (1.0 / sqrt (INR 8))
                   * (Num 0.95 + Num c * Num 0.1))%js) (seq 0 8).
Proof.
  intros Hi. apply nth_ext with (d := NaN) (d' := NaN).
  - unfold createHadamardMatrix. cbv zeta.
    set (row := fun i : nat => map _ (seq 0 8)).
    rewrite (nth_indep _ [] (row 0%nat)) by (rewrite length_map, length_seq; exact Hi).
    rewrite (map_nth row). unfold row. rewrite !length_map. reflexivity.
  - intros j Hj.
    assert (Hj8 : (j < 8)%nat).
    { revert Hj. unfold createHadamardMatrix. cbv zeta.
      set (row := fun i : nat => map _ (seq 0 8)).
      rewrite (nth_indep _ [] (row 0%nat)) by (rewrite length_map, length_seq; exact Hi).
      rewrite (map_nth row). unfold row. rewrite length_map, length_seq. auto. }
    rewrite hadamard_entry by assumption.
    set (cell := fun j : nat => (_ * _ * _)%js).
    rewrite (nth_indep _ NaN (cell 0%nat)) by (rewrite length_map, length_seq; exact Hj8).
    rewrite (map_nth cell), seq_nth by exact Hj8. reflexivity.
Qed.

(** X17.  Without the random perturbation the feedback matrix is
    orthogonal up to a scale: when every draw is the same [c], the dot
    product of two different rows of the 8 x 8 matrix is 0 and that of a
    row with itself is [(0.95 + 0.1 c)^2]. *)
Theorem hadamard_rows_orthogonal (c : R) (i i' : nat) :
  (i < 8)%nat -> (i' < 8)%nat ->
  matrixRow (nth i (createHadamardMatrix (fun _ => c) 8) [])
            (nth i' (createHadamardMatrix (fun _ => c) 8) [])
  = Num (if (i =? i')%nat then (0.95 + c * 0.1) * (0.95 + c * 0.1) else 0).
Proof.
  intros Hi Hi'. rewrite !hadamard_const_row by assumption.
  destruct (hadamard_scale 8 ltac:(lia)) as [_ Q].
  assert (Hu : (1.0 / sqrt (INR 8)) * (1.0 / sqrt (INR 8)) * 8 = 1).
  { assert (S8 : sqrt (INR 8) * sqrt (INR 8) = 8).
    { rewrite sqrt_sqrt; [|apply pos_INR]. cbn [INR]. ring. }
    assert (E : 1.0 / sqrt (INR 8) = / sqrt (INR 8)) by (unfold Rdiv; lra).
    rewrite E, <- Rinv_mult, S8. lra. }
  set (u := 1.0 / sqrt (INR 8)) in *. clearbody u. clear Q.
  set (k := 0.95 + c * 0.1).
  change (Num 0.95 + Num c * Num 0.1)%js with (Num k). clearbody k.
  unfold matrixRow.
  assert (Ci : In i (seq 0 8)) by (apply in_seq; lia).
  assert (Ci' : In i' (seq 0 8)) by (apply in_seq; lia).
  cbn [seq In] in Ci, Ci'.
  repeat destruct Ci as [<- | Ci]; try contradiction;
    repeat destruct Ci' as [<- | Ci']; try contradiction;
    unfold hadamardSign; cbn; f_equal;
    first [ ring
          | (transitivity (u * u * 8 * (k * k)); [ring | rewrite Hu; ring]) ].
Qed.

Lemma hadamard_rows_orthogonal_witness :
  matrixRow (nth 3 (createHadamardMatrix (fun _ => 0.5) 8) [])
            (nth 5 (createHadamardMatrix (fun _ => 0.5) 8) [])
  = Num (if (3 =? 5)%nat then (0.95 + 0.5 * 0.1) * (0.95 + 0.5 * 0.1) else 0).
Proof.
  apply (hadamard_rows_orthogonal 0.5 3 5); lia.
Defined.

(** ** Buffers of the feedback delay network *)

Lemma skipn_repeat {A} (x : A) (k n : nat) :
  skipn k (repeat x n) = repeat x (n - k).
Proof.
  revert n. induction k as [|k IH]; intros n.
  - rewrite Nat.sub_0_r. reflexivity.
  - destruct n as [|n]; [reflexivity|]. cbn [repeat skipn Nat.sub]. apply IH.
Qed.

Lemma new_tail (len : nat) (m : num) :
  exists t : nat,
    skipn len (new_Float32Array m) = repeat (Num 0) t /\
    forall x, m = Num x -> INR len < x -> (Int_part x <= Z.of_nat (len + t))%Z.
Proof.
  destruct m as [x| | |]; cbn [new_Float32Array].
  - exists (Z.to_nat (Int_part x) - len)%nat. split; [apply skipn_repeat|].
    intros y [= <-] H. lia.
  - exists 0%nat. split; [destruct len; reflexivity | discriminate].
  - exists 0%nat. split; [destruct len; reflexivity | discriminate].
  - exists 0%nat. split; [destruct len; reflexivity | discriminate].
Qed.

(** X18.  [resizeFDNBuffers] only ever grows a buffer: for base sizes
    that are reals (an infinite one makes [new Float32Array] throw),
    every line keeps all its other fields, its buffer keeps the old
    contents as a prefix and is filled up with zeros, and afterwards
    holds at least [floor maxSize] cells. *)
Theorem resizeFDNBuffers_keeps_contents (ls : list FdnLine) :
  Forall (fun l => is_finite (fl_baseSize l)) ls ->
  Forall2 (fun l l' =>
             set_line_buffer (fl_buffer l) l' = l /\
             firstn (length (fl_buffer l)) (fl_buffer l') = fl_buffer l /\
             Forall (eq (Num 0)) (skipn (length (fl_buffer l)) (fl_buffer l')) /\
             forall m, fdnMaxSize ls = Num m ->
                       (Int_part m <= Z.of_nat (length (fl_buffer l')))%Z)
          ls (resizeFDNBuffers ls).
Proof.
  intros _. unfold resizeFDNBuffers. cbv zeta.
  set (mx := fdnMaxSize ls). clearbody mx.
  induction ls as [|l t IH]; [constructor|].
  cbn [map]. constructor; [|exact IH].
  destruct (new_tail (length (fl_buffer l)) mx) as [k [T B]].
  unfold JS.lt, f32_length.
  destruct (mx >? Num (INR (length (fl_buffer l))))%js eqn:G.
  - unfold set_line_buffer. cbn [fl_buffer]. rewrite T.
    split; [destruct l; reflexivity|].
    split; [rewrite firstn_app, firstn_all, Nat.sub_diag; cbn [firstn];
            apply app_nil_r|].
    split.
    + rewrite skipn_app, skipn_all, Nat.sub_diag. cbn [skipn app].
      apply Forall_forall. intros x Hx. apply repeat_spec in Hx.
      symmetry. exact Hx.
    + intros m ->. rewrite length_app, repeat_length. apply B; [reflexivity|].
      unfold JS.gt in G. destruct (Rlt_dec _ _); [assumption | discriminate].
  - split; [destruct l; reflexivity|].
    split; [apply firstn_all|].
    split; [rewrite skipn_all; constructor|].
    intros m ->. unfold JS.gt in G.
    destruct (Rlt_dec (INR (length (fl_buffer l))) m) as [|N]; [discriminate|].
    apply Rnot_lt_le in N. rewrite INR_IZR_INZ in N.
    destruct (base_Int_part m) as [I1 _].
    apply le_IZR. lra.
Qed.

Lemma resizeFDNBuffers_keeps_contents_witness :
  Forall2 (fun l l' =>
             set_line_buffer (fl_buffer l) l' = l /\
             firstn (length (fl_buffer l)) (fl_buffer l') = fl_buffer l /\
             Forall (eq (Num 0)) (skipn (length (fl_buffer l)) (fl_buffer l')) /\
             forall m,
               fdnMaxSize
                 [mkLine [Num 0.5] (Num 2) (Num 2) (Num 0) (Num 0.9) (Num 0)
                         (Num 0.05) (Num 0) (Num 0) (Num 0)] = Num m ->
               (Int_part m <= Z.of_nat (length (fl_buffer l')))%Z)
          [mkLine [Num 0.5] (Num 2) (Num 2) (Num 0) (Num 0.9) (Num 0)
                  (Num 0.05) (Num 0) (Num 0) (Num 0)]
          (resizeFDNBuffers
             [mkLine [Num 0.5] (Num 2) (Num 2) (Num 0) (Num 0.9) (Num 0)
                     (Num 0.05) (Num 0) (Num 0) (Num 0)]).
Proof.
  apply (resizeFDNBuffers_keeps_contents
           [mkLine [Num 0.5] (Num 2) (Num 2) (Num 0) (Num 0.9) (Num 0)
                   (Num 0.05) (Num 0) (Num 0) (Num 0)]).
  repeat constructor.
Defined.

(** ** A whole session *)

Lemma setter_ranges_valid (p : Params) : setter_ranges p -> valid_params p.
Proof.
  intros [[mx [Emx _]] [[pd [Epd Bpd]] [[dc [Edc _]] [[sz [Esz Bsz]]
          [[df [Edf _]] [[lc [Elc _]] [[hc [Ehc _]] [[co [Eco _]]
          [[mr [Emr _]] [[md [Emd _]] [[sw [Esw _]] [[vi [Evi Bvi]]
          [k [Ek Bk]]]]]]]]]]]]]].
  unfold valid_params, wf_params.
  rewrite Emx, Esw, Edc, Edf, Elc, Ehc, Eco, Emr, Emd.
  split; [split; [exact I|]; split; [exact I|]; split;
          [exists vi; split; assumption | exists pd; split; assumption]|].
  do 7 (split; [exact I|]).
  exists sz, k. split; [exact Esz|]. split; [exact Bsz|].
  split; [exact Ek | lia].
Qed.

Lemma margin_fit (p : Params) : lines_fit_with_margin p -> lines_fit p.
Proof.
  intros [md [mr [L [M B]]]]. exists md, mr.
  split; [exact L|]. split; [exact M | lra].
Qed.

Lemma in_range_finite (l : list num) : Forall in_range l -> all_finite l.
Proof.
  apply Forall_impl. intros a H. destruct a; [exact I | | |]; contradiction.
Qed.

(** *** The cells of the line buffers *)

Lemma fdn_write_buffers (p : Params) (fb fin : num) (mo : list num)
      (lines : list FdnLine) (idx : nat) (ng : Z) :
  Forall2 (fun line line' =>
             exists v, fl_buffer line'
                       = f32_set (fl_buffer line) (fl_index line) v)
          lines (fst (fdn_write p fb fin mo idx lines ng)).
Proof.
  revert idx ng. induction lines as [|l t IH]; intros idx ng;
    cbn [fdn_write fst]; constructor.
  - eexists. reflexivity.
  - apply IH.
Qed.

Lemma written_cells_bounded (lines lines' : list FdnLine) :
  Forall wf_line lines ->
  Forall (Forall (fun c => exists y, c = Num y /\ Rabs y <= fdnBound))
         (map fl_buffer lines) ->
  Forall2 (fun line line' =>
             exists v, fl_buffer line'
                       = f32_set (fl_buffer line) (fl_index line) v)
          lines lines' ->
  Forall2 (fun line line' =>
             exists y, f32_get (fl_buffer line') (fl_index line) = Num y /\
                       Rabs y <= fdnBound)
          lines lines' ->
  Forall (Forall (fun c => exists y, c = Num y /\ Rabs y <= fdnBound))
         (map fl_buffer lines').
Proof.
  intros W C S. revert W C.
  induction S as [|l l' t t' [v Ev] St IH]; intros W C B; [constructor|].
  inversion W as [|? ? Wl Wt]; subst.
  inversion B as [|? ? ? ? [y [Ey By]] Bt]; subst.
  cbn [map] in C. inversion C as [|? ? Cl Ct]; subst.
  cbn [map]. constructor; [|apply IH; assumption].
  destruct Wl as [[_ [n [i [_ [Ei [_ Bi]]]]]] _].
  rewrite Ev in Ey |- *. unfold f32_get, f32_set in *.
  rewrite Ei in *. rewrite as_index_IZR in * by lia.
  rewrite nth_list_set in Ey by lia.
  apply list_set_Forall; [exact Cl|].
  exists y. split; assumption.
Qed.

Lemma process_sample_cells (sampleRate : R) (st : Engine) (l r : num) :
  0 < sampleRate -> wf_engine sampleRate st ->
  is_finite l -> is_finite r ->
  fdn_cells_bounded st ->
  fdn_cells_bounded (fst (process_sample sampleRate st l r)).
Proof.
  intros Hsr W Hl Hr C.
  destruct (process_sample_wf sampleRate Hsr st l r W Hl Hr) as [_ [_ [_ B]]].
  unfold fdn_cells_bounded.
  apply (written_cells_bounded (fdnLines st)); try assumption.
  - apply (wf_fdnLines _ _ W).
  - unfold process_sample. cbv zeta. cbn [fst fdnLines].
    apply fdn_write_buffers.
Qed.

Lemma process_samples_cells (sampleRate : R) (frames : list (num * num)) :
  0 < sampleRate ->
  Forall (fun f => is_finite (fst f) /\ is_finite (snd f)) frames ->
  forall st,
    wf_engine sampleRate st -> fdn_cells_bounded st ->
    fdn_cells_bounded (fst (process_samples sampleRate st frames)).
Proof.
  intros Hsr H. induction H as [|[l r] t [Hl Hr] _ IH]; intros st W C.
  - exact C.
  - cbn [process_samples fst]. cbv zeta. cbn [fst]. cbn [fst snd] in Hl, Hr.
    apply IH.
    + apply (process_sample_wf sampleRate Hsr st l r W Hl Hr).
    + apply process_sample_cells; assumption.
Qed.

Lemma handle_cells (sampleRate : R) (st : Engine) (ev : Event) :
  0 < sampleRate -> wf_engine sampleRate st ->
  match ev with
  | inl _ => True
  | inr (inputL, inputR) =>
      all_finite inputL /\ all_finite inputR /\ length inputR = length inputL
  end ->
  fdn_cells_bounded st -> fdn_cells_bounded (handle sampleRate st ev).
Proof.
  intros Hsr W Hev C. destruct ev as [[rnd p] | [inputL inputR]];
    cbn [handle].
  - unfold fdn_cells_bounded, onmessage.
    destruct (updateInternalParams _ _ _) as [st2|] eqn:E; [|exact C].
    destruct (update_frame sampleRate rnd _ _ E) as [S _].
    rewrite (same_fdn_buffers _ _ S). exact C.
  - destruct Hev as [FL [FR Len]]. unfold process. cbv zeta. cbn [fst].
    apply process_samples_cells.
    + exact Hsr.
    + apply frames_finite; assumption.
    + apply advanceLfos_wf; [exact I | exact W].
    + exact C.
Qed.

Lemma construct_cells (sampleRate : R) (rnd : nat -> R) :
  fdn_cells_bounded (construct sampleRate rnd).
Proof.
  assert (C0 : fdn_cells_bounded (initialEngine sampleRate rnd)).
  { unfold fdn_cells_bounded, initialEngine. cbn [fdnLines].
    rewrite resize_initial. rewrite (map_mapi _ _ (fun _ => new_Float32Array (Num 8192))).
    - apply Forall_forall. intros b Hb. apply in_map_iff in Hb.
      destruct Hb as [x [<- _]]. unfold new_Float32Array.
      apply Forall_forall. intros c Hc. apply repeat_spec in Hc. subst c.
      exists 0. split; [reflexivity|]. rewrite Rabs_R0. unfold fdnBound. lra.
    - reflexivity. }
  unfold construct.
  destruct (updateInternalParams _ _ _) as [st1|] eqn:E; [|exact C0].
  destruct (update_frame sampleRate _ _ _ E) as [S _].
  unfold fdn_cells_bounded. rewrite (same_fdn_buffers _ _ S). exact C0.
Qed.

(** The invariant of a session within the ranges. *)
Lemma session_invariant (sampleRate : R) (rnd0 : nat -> R)
      (events : list Event) :
  3000 <= sampleRate <= 768000 ->
  Forall admissible events ->
  safe_engine sampleRate (after_events sampleRate rnd0 events) /\
  fdn_cells_bounded (after_events sampleRate rnd0 events).
Proof.
  intros Hsr H. unfold after_events.
  assert (I0 : safe_engine sampleRate (construct sampleRate rnd0) /\
               fdn_cells_bounded (construct sampleRate rnd0)).
  { split; [apply construct_safe; lra | apply construct_cells]. }
  revert I0. generalize (construct sampleRate rnd0).
  induction H as [|ev t Hev _ IH]; intros st [S C]; [split; assumption|].
  cbn [fold_left]. apply IH.
  assert (P : 0 < sampleRate) by lra.
  split.
  - destruct ev as [[rnd p] | [inL inR]]; cbn [handle].
    + destruct Hev as [_ [V F]].
      apply onmessage_safe;
        [exact P | exact S | apply setter_ranges_valid, V | apply margin_fit, F].
    + destruct Hev as [FL [FR Len]]. destruct S as [W Cn].
      destruct (process_wf sampleRate P st inL inR W Cn
                  (in_range_finite _ FL) (in_range_finite _ FR) Len)
        as [st' [oL [oR [E [W' [C' _]]]]]].
      rewrite E. split; assumption.
  - apply handle_cells; [exact P | apply S | | exact C].
    destruct ev as [[rnd p] | [inL inR]]; [exact I|].
    destruct Hev as [FL [FR Len]].
    split; [apply in_range_finite, FL|].
    split; [apply in_range_finite, FR | exact Len].
Qed.

(** X19.  The feedback delay network cannot build up: after every event
    of a session within the ranges (a sample rate from 3000 to 768000 Hz,
    draws of [Math.random] in [0, 1), every parameter message within the
    ranges of the setters and asking at most 8192 samples of the longest
    line, every input sample in [-1, 1]) each cell of each line buffer
    holds a real of magnitude at most [0.9 * 1.75 + 0.000005], the bound
    of the soft clip times 0.9 plus the dither. *)
Theorem fdn_stored_values_bounded
  (sampleRate : R) (rnd0 : nat -> R) (events : list Event) :
  3000 <= sampleRate <= 768000 -> unit_draws rnd0 ->
  Forall admissible events ->
  Forall (fun line =>
            Forall (fun c => exists y,
                        c = Num y /\ Rabs y <= 0.9 * 1.75 + 0.000005)
                   (fl_buffer line))
         (fdnLines (after_events sampleRate rnd0 events)).
Proof.
  intros Hsr _ Hev.
  destruct (session_invariant sampleRate rnd0 events Hsr Hev) as [_ C].
  unfold fdn_cells_bounded in C. rewrite Forall_map in C. exact C.
Qed.

Lemma fdn_stored_values_bounded_witness :
  Forall (fun line =>
            Forall (fun c => exists y,
                        c = Num y /\ Rabs y <= 0.9 * 1.75 + 0.000005)
                   (fl_buffer line))
         (fdnLines
            (after_events 48000 (fun _ => 0)
               [inl (fun _ => 0.5, defaultParams);
                inr ([Num 1; Num (-1)], [Num 0.5; Num 0])])).
Proof.
  apply (fdn_stored_values_bounded 48000 (fun _ => 0)
           [inl (fun _ => 0.5, defaultParams);
            inr ([Num 1; Num (-1)], [Num 0.5; Num 0])]).
  - lra.
  - intros k. lra.
  - apply Forall_cons.
    + split; [intros k; lra|]. split.
      * unfold setter_ranges, defaultParams. cbn.
        repeat split; try (eexists; split; [reflexivity | lra]).
        exists 0%Z. split; [reflexivity | lia].
      * exists (mkMode (Num 0.9) (Num 0.75) (Num 0.88) (Num 0.06)),
          ((0.3 + 0.7 * 1.7) * 0.9).
        split; [apply (lookup_mode_valid 0); lia|].
        split; [reflexivity | lra].
    + apply Forall_cons; [|apply Forall_nil].
      split; [repeat constructor; cbn; lra|].
      split; [repeat constructor; cbn; lra | reflexivity].
Defined.

(** X20.  In a session within the ranges the outputs stay in [-1, 1]:
    for a sample rate from 3000 to 768000 Hz and draws of [Math.random]
    in [0, 1), after any sequence of parameter messages within the
    ranges of the setters that ask at most 8192 samples of the longest
    line and of processed blocks with samples in [-1, 1], the next such
    block yields two channels of the input's length whose samples all
    lie in [-1, 1]. *)
Theorem session_outputs_in_range
  (sampleRate : R) (rnd0 : nat -> R) (events : list Event)
  (inputL inputR : Float32Array) :
  3000 <= sampleRate <= 768000 -> unit_draws rnd0 ->
  Forall admissible events ->
  Forall in_range inputL -> Forall in_range inputR ->
  length inputR = length inputL ->
  exists st' outL outR,
    process sampleRate (after_events sampleRate rnd0 events) [inputL; inputR]
    = (st', Some (outL, outR)) /\
    length outL = length inputL /\ length outR = length inputL /\
    Forall in_range outL /\ Forall in_range outR.
Proof.
  intros Hsr _ Hev FL FR Len.
  destruct (session_invariant sampleRate rnd0 events Hsr Hev) as [[W C] _].
  destruct (process_wf sampleRate ltac:(lra) _ inputL inputR W C
              (in_range_finite _ FL) (in_range_finite _ FR) Len)
    as [st' [oL [oR [E [_ [_ R]]]]]].
  exists st', oL, oR. split; [exact E | exact R].
Qed.

Lemma session_outputs_in_range_witness :
  exists st' outL outR,
    process 48000
      (after_events 48000 (fun _ => 0)
         [inl (fun _ => 0.5, defaultParams);
          inr ([Num 1; Num (-1)], [Num 0.5; Num 0])])
      [[Num 0.25; Num 1]; [Num (-1); Num 0]]
    = (st', Some (outL, outR)) /\
    length outL = length [Num 0.25; Num 1] /\
    length outR = length [Num 0.25; Num 1] /\
    Forall in_range outL /\ Forall in_range outR.
Proof.
  apply (session_outputs_in_range 48000 (fun _ => 0)
           [inl (fun _ => 0.5, defaultParams);
            inr ([Num 1; Num (-1)], [Num 0.5; Num 0])]
           [Num 0.25; Num 1] [Num (-1); Num 0]).
  - lra.
  - intros k. lra.
  - apply Forall_cons.
    + split; [intros k; lra|]. split.
      * unfold setter_ranges, defaultParams. cbn.
        repeat split; try (eexists; split; [reflexivity | lra]).
        exists 0%Z. split; [reflexivity | lia].
      * exists (mkMode (Num 0.9) (Num 0.75) (Num 0.88) (Num 0.06)),
          ((0.3 + 0.7 * 1.7) * 0.9).
        split; [apply (lookup_mode_valid 0); lia|].
        split; [reflexivity | lra].
    + apply Forall_cons; [|apply Forall_nil].
      split; [repeat constructor; cbn; lra|].
      split; [repeat constructor; cbn; lra | reflexivity].
  - repeat constructor; cbn; lra.
  - repeat constructor; cbn; lra.
  - reflexivity.
Defined.

(** * The node wrapper *)

Lemma clamp_real (lo hi : R) (value : num) :
  lo <= hi -> value <> NaN ->
  exists r, JS.Math_max (Num lo) (JS.Math_min (Num hi) value) = Num r /\
            lo <= r <= hi.
Proof.
  intros H V. destruct value as [x| | |]; [| | |congruence].
  - rewrite Math_min_Num, Math_max_Num. eexists. split; [reflexivity|].
    split; [apply Rmax_l|].
    apply Rmax_lub; [exact H | apply Rmin_l].
  - change (JS.Math_min (Num hi) PInf) with (Num hi).
    rewrite Math_max_Num, Rmax_right by exact H.
    exists hi. split; [reflexivity | lra].
  - exists lo. split; [|lra]. reflexivity.
Qed.

Lemma clamp_floor (value : num) :
  value <> NaN ->
  exists k : Z,
    JS.Math_max (Num 0) (JS.Math_min (Num 3) (JS.Math_floor value))
    = Num (IZR k) /\ (0 <= k <= 3)%Z.
Proof.
  intros V. destruct value as [x| | |]; [| | |congruence].
  - cbn [JS.Math_floor]. rewrite Math_min_Num, Math_max_Num.
    set (z := Int_part x).
    exists (Z.max 0 (Z.min 3 z)). split; [|lia].
    f_equal. unfold Rmin, Rmax.
    destruct (Rle_dec 3 (IZR z)) as [A|A].
    + destruct (Rle_dec 0 3); [|lra].
      apply le_IZR in A. f_equal. lia.
    + apply Rnot_le_lt in A. apply lt_IZR in A.
      destruct (Rle_dec 0 (IZR z)) as [B|B].
      * apply le_IZR in B. f_equal. lia.
      * apply Rnot_le_lt in B. apply lt_IZR in B. f_equal. lia.
  - change (JS.Math_min (Num 3) (JS.Math_floor PInf)) with (Num 3).
    rewrite Math_max_Num, Rmax_right by lra.
    exists 3%Z. split; [reflexivity | lia].
  - exists 0%Z. split; [|lia]. reflexivity.
Qed.

(** X21.  Every setter stores a value of its range: for any value but
    NaN (the infinities included) the property written is a real within
    the bounds of that setter, an integer from 0 to 3 for the mode; no
    other property changes, the one posted object holds exactly the
    stored value, and parameters that were within the ranges the
    processor relies on stay within them. *)
Theorem setter_stores_clamped_value
  (f : Node.Field) (value : num) (n : Node.QuadraVerbNode) :
  value <> NaN ->
  exists r,
    Node.get f (Node._params (Node.setter f value n)) = Num r /\
    match f with
    | Node.preDelayMsF => 0 <= r <= 200
    | Node.decayF => 0.1 <= r <= 30
    | Node.lowCutHzF => 20 <= r <= 1000
    | Node.highCutHzF => 500 <= r <= 20000
    | Node.modeF => exists k : Z, r = IZR k /\ (0 <= k <= 3)%Z
    | _ => 0 <= r <= 1
    end /\
    (forall g, g <> f ->
               Node.get g (Node._params (Node.setter f value n))
               = Node.get g (Node._params n)) /\
    Node.port (Node.setter f value n) = Node.port n ++ [[(f, Num r)]] /\
    (valid_params (Node._params n) ->
     valid_params (Node._params (Node.setter f value n))).
Proof.
  intros V.
  assert (Frame : forall (v : num) (g : Node.Field),
             g <> f -> Node.get g (Node.set f v (Node._params n))
                       = Node.get g (Node._params n)).
  { intros v g Hg. destruct f, g; try reflexivity; congruence. }
  destruct f; unfold Node.setter, Node.updateParameters;
    cbn [Node._params Node.port];
    match goal with
    | |- context [JS.Math_floor value] =>
        destruct (clamp_floor value V) as [k [E B]]; rewrite E;
        exists (IZR k)
    | |- context [JS.Math_max (Num ?lo) (JS.Math_min (Num ?hi) value)] =>
        destruct (clamp_real lo hi value ltac:(lra) V) as [r [E B]];
        rewrite E; exists r
    end;
    (split; [reflexivity|]);
    (split; [first [exact B | exists k; split; [reflexivity | exact B]]|]);
    (split; [apply Frame|]);
    (split; [reflexivity|]);
    intros [[W1 [W2 [[v [Hv Bv]] [ms [Hms Bms]]]]]
              [D [Df [Lc [Hc [Co [Mr [Md [s [j [Hs [Bs [Hm Bj]]]]]]]]]]]]];
    unfold valid_params, wf_params; cbn;
    repeat match goal with
           | |- _ /\ _ => split
           | |- is_finite (Num _) => exact I
           | |- is_finite _ => assumption
           end;
    try exact I;
    try (eexists; split; [first [reflexivity | eassumption] | lra]);
    try (exists s, j; split; [assumption|]; split; [lra|]; split; assumption);
    try (exists r, j; split; [reflexivity|]; split; [lra|]; split; assumption);
    try (exists s, k; split; [assumption|]; split; [lra|];
         split; [reflexivity | lia]).
Qed.

Lemma setter_stores_clamped_value_witness :
  exists r,
    Node.get Node.decayF
      (Node._params (Node.setter Node.decayF (Num 45)
                       (Node.new_QuadraVerbNode [])))
    = Num r /\
    0.1 <= r <= 30 /\
    (forall g, g <> Node.decayF ->
               Node.get g (Node._params (Node.setter Node.decayF (Num 45)
                                           (Node.new_QuadraVerbNode [])))
               = Node.get g (Node._params (Node.new_QuadraVerbNode []))) /\
    Node.port (Node.setter Node.decayF (Num 45) (Node.new_QuadraVerbNode []))
    = Node.port (Node.new_QuadraVerbNode []) ++ [[(Node.decayF, Num r)]] /\
    (valid_params (Node._params (Node.new_QuadraVerbNode [])) ->
     valid_params (Node._params (Node.setter Node.decayF (Num 45)
                                   (Node.new_QuadraVerbNode [])))).
Proof.
  apply (setter_stores_clamped_value Node.decayF (Num 45)
           (Node.new_QuadraVerbNode [])).
  discriminate.
Defined.

Lemma process_samples_params (sampleRate : R) (frames : list (num * num))
      (st : Engine) :
  params (fst (process_samples sampleRate st frames)) = params st.
Proof. apply kept_params, process_samples_settings. Qed.

Lemma process_samples_NaN_mix (sampleRate : R) (frames : list (num * num))
      (st : Engine) :
  mix (params st) = NaN ->
  Forall (fun o => o = (NaN, NaN)) (snd (process_samples sampleRate st frames)).
Proof.
  revert st. induction frames as [|[l r] t IH]; intros st M; [constructor|].
  cbn [process_samples snd]. cbv zeta. cbn [snd]. constructor.
  - unfold process_sample. cbn [snd]. unfold mixAndClip. rewrite M.
    autorewrite with nan. reflexivity.
  - apply IH.
    rewrite (kept_params _ _ (process_sample_settings sampleRate st l r)).
    exact M.
Qed.

(** X22.  The clamp of a setter does not stop NaN: a NaN handed to any
    setter is stored and posted as NaN; and a processor that has
    received the NaN mix writes NaN to every sample of both output
    channels, whatever its state and its input. *)
Theorem setter_does_not_stop_NaN
  (f : Node.Field) (n : Node.QuadraVerbNode)
  (sampleRate : R) (rnd : nat -> R) (st : Engine)
  (inputL : Float32Array) (others : list Float32Array) :
  Node.get f (Node._params (Node.setter f NaN n)) = NaN /\
  Node.port (Node.setter f NaN n) = Node.port n ++ [[(f, NaN)]] /\
  exists st' outL outR,
    process sampleRate
      (Node.receive sampleRate rnd [(Node.mixF, NaN)] st) (inputL :: others)
    = (st', Some (outL, outR)) /\
    length outL = length inputL /\ length outR = length inputL /\
    Forall (eq NaN) outL /\ Forall (eq NaN) outR.
Proof.
  split; [destruct f; reflexivity|]. split; [destruct f; reflexivity|].
  unfold process. cbv zeta.
  set (st1 := advanceLfos _ _). set (fr := map _ (seq 0 (length inputL))).
  do 3 eexists. split; [reflexivity|].
  assert (Len : length fr = length inputL)
    by (unfold fr; rewrite length_map, length_seq; reflexivity).
  rewrite !length_map, length_process_samples.
  split; [exact Len|]. split; [exact Len|].
  assert (M : mix (params st1) = NaN).
  { unfold st1, advanceLfos, set_lfos. cbn [params].
    unfold Node.receive. rewrite onmessage_params. reflexivity. }
  pose proof (process_samples_NaN_mix sampleRate fr st1 M) as H.
  split; apply Forall_map; revert H; apply Forall_impl;
    intros o ->; reflexivity.
Qed.

(** ** Node and processor *)

Lemma assign_object_of (p q : Params) : Node.assign p (Node.object_of q) = q.
Proof. destruct q. reflexivity. Qed.

Lemma construct_params (sampleRate : R) (rnd : nat -> R) :
  params (construct sampleRate rnd) = defaultParams.
Proof.
  unfold construct.
  destruct (updateInternalParams _ _ _) as [st1|] eqn:E; [|reflexivity].
  unfold updateInternalParams in E.
  destruct (lookup_mode _); [|discriminate].
  injection E as <-. reflexivity.
Qed.

Lemma receive_all_params (sampleRate : R) (msgs : list Node.Object) :
  forall (rnds : list (nat -> R)) (st : Engine),
    length rnds = length msgs ->
    params (fold_left (fun st m => Node.receive sampleRate (fst m) (snd m) st)
                      (combine rnds msgs) st)
    = fold_left Node.assign msgs (params st).
Proof.
  induction msgs as [|m t IH]; intros rnds st Len.
  - destruct rnds; reflexivity.
  - destruct rnds as [|rnd rnds]; [discriminate|].
    cbn [combine fold_left fst snd]. rewrite IH by (cbn in Len; lia).
    unfold Node.receive. rewrite onmessage_params. reflexivity.
Qed.

Lemma call_message (toLowerCase : Node.string -> Node.string)
      (c : Node.Call) (n : Node.QuadraVerbNode) :
  fold_left Node.assign (Node.port n) defaultParams = Node._params n ->
  fold_left Node.assign (Node.port (Node.call toLowerCase n c)) defaultParams
  = Node._params (Node.call toLowerCase n c).
Proof.
  intros H.
  assert (S : forall f v,
             fold_left Node.assign (Node.port (Node.setter f v n)) defaultParams
             = Node._params (Node.setter f v n)).
  { intros f v. unfold Node.setter, Node.updateParameters.
    cbn [Node.port Node._params]. rewrite fold_left_app, H. reflexivity. }
  destruct c as [f v | name | name]; cbn [Node.call].
  - apply S.
  - unfold Node.setMode. destruct (Node.lookup _ _); [apply S | apply S | exact H].
  - unfold Node.loadPreset. destruct (Node.lookup _ _); [| | exact H];
      unfold Node.updateParameters; cbn [Node.port Node._params];
      rewrite fold_left_app, H; cbn [fold_left];
      rewrite !assign_object_of; reflexivity.
Qed.

(** X23.  The processor follows the node: whatever options the node is
    built with and whatever setters, [setMode] and [loadPreset] calls
    are made on it, once every posted message has been received in
    order by a freshly constructed processor, the processor's parameters
    are the node's [_params]. *)
Theorem processor_params_follow_node
  (toLowerCase : Node.string -> Node.string) (sampleRate : R)
  (options : Node.Object) (calls : list Node.Call)
  (rnd0 : nat -> R) (rnds : list (nat -> R)) :
  length rnds
  = length (Node.port (fold_left (Node.call toLowerCase) calls
                                 (Node.new_QuadraVerbNode options))) ->
  params
    (fold_left (fun st m => Node.receive sampleRate (fst m) (snd m) st)
       (combine rnds
          (Node.port (fold_left (Node.call toLowerCase) calls
                                (Node.new_QuadraVerbNode options))))
       (construct sampleRate rnd0))
  = Node.getParameters
      (fold_left (Node.call toLowerCase) calls
                 (Node.new_QuadraVerbNode options)).
Proof.
  intros Len. rewrite receive_all_params by exact Len.
  rewrite construct_params. unfold Node.getParameters.
  assert (I0 : fold_left Node.assign
                 (Node.port (Node.new_QuadraVerbNode options)) defaultParams
               = Node._params (Node.new_QuadraVerbNode options)).
  { unfold Node.new_QuadraVerbNode, Node.updateParameters.
    cbn [Node.port Node._params app fold_left]. apply assign_object_of. }
  clear Len. revert I0. generalize (Node.new_QuadraVerbNode options).
  induction calls as [|c t IH]; intros n I0; [exact I0|].
  cbn [fold_left]. apply IH, call_message, I0.
Qed.

Lemma processor_params_follow_node_witness :
  params
    (fold_left (fun st m => Node.receive 48000 (fst m) (snd m) st)
       (combine [fun _ => 0; fun _ => 0.5; fun _ => 0.25; fun _ => 1]
          (Node.port
             (fold_left (Node.call Node.asciiLowerCase)
                [Node.SetField Node.sizeF (Num 2);
                 Node.SetMode "Hall"%string;
                 Node.LoadPreset "Dark-Plate"%string]
                (Node.new_QuadraVerbNode [(Node.mixF, Num 0.25)]))))
       (construct 48000 (fun _ => 0)))
  = Node.getParameters
      (fold_left (Node.call Node.asciiLowerCase)
         [Node.SetField Node.sizeF (Num 2);
          Node.SetMode "Hall"%string;
          Node.LoadPreset "Dark-Plate"%string]
         (Node.new_QuadraVerbNode [(Node.mixF, Num 0.25)])).
Proof.
  apply (processor_params_follow_node Node.asciiLowerCase 48000
           [(Node.mixF, Num 0.25)]
           [Node.SetField Node.sizeF (Num 2);
            Node.SetMode "Hall"%string;
            Node.LoadPreset "Dark-Plate"%string]
           (fun _ => 0)
           [fun _ => 0; fun _ => 0.5; fun _ => 0.25; fun _ => 1]).
  reflexivity.
Defined.

(** ** Presets *)

(** X24.  Every name of [getAvailablePresets] is a preset of
    [loadPreset]: for a name of the list that lower-casing leaves as it
    is, loading it makes [getParameters] return exactly the thirteen
    values of that preset, whatever the parameters were, posts them in
    full, and each of the thirteen values is within the range of its
    setter. *)
Theorem listed_presets_load
  (toLowerCase : Node.string -> Node.string)
  (name : Node.string) (n : Node.QuadraVerbNode) :
  In name Node.getAvailablePresets -> toLowerCase name = name ->
  exists p,
    Node.own Node.presets name = Some p /\
    Node.getParameters (Node.loadPreset toLowerCase name n) = p /\
    Node.port (Node.loadPreset toLowerCase name n)
    = Node.port n ++ [Node.object_of p] /\
    setter_ranges p.
Proof.
  intros Hin Low. unfold Node.loadPreset, Node.lookup. rewrite Low.
  cbn [Node.getAvailablePresets In] in Hin.
  repeat destruct Hin as [<- | Hin]; try contradiction;
    cbn [Node.own Node.presets String.eqb Ascii.eqb Bool.eqb];
    eexists; (split; [reflexivity|]);
    unfold Node.getParameters, Node.updateParameters;
    cbn [Node._params Node.port]; rewrite !assign_object_of;
    (split; [reflexivity|]); (split; [reflexivity|]);
    unfold setter_ranges;
    do 12 (split; [eexists; split; [reflexivity | lra]|]);
    eexists; (split; [reflexivity | lia]).
Qed.

Lemma listed_presets_load_witness :
  exists p,
    Node.own Node.presets "dark-plate"%string = Some p /\
    Node.getParameters
      (Node.loadPreset Node.asciiLowerCase "dark-plate"%string
         (Node.new_QuadraVerbNode []))
    = p /\
    Node.port (Node.loadPreset Node.asciiLowerCase "dark-plate"%string
                 (Node.new_QuadraVerbNode []))
    = Node.port (Node.new_QuadraVerbNode []) ++ [Node.object_of p] /\
    setter_ranges p.
Proof.
  apply (listed_presets_load Node.asciiLowerCase "dark-plate"%string
           (Node.new_QuadraVerbNode [])).
  - cbn. tauto.
  - reflexivity.
Defined.

Lemma received_line_sizes
  (sampleRate : R) (rnd : nat -> R) (st : Engine) (p : Params)
  (md : ModePreset) (mr : R) :
  constructed_lines st ->
  lookup_mode (mode p) = Some md -> sizeMultiplier p md = Num mr ->
  let st' := Node.receive sampleRate rnd (Node.object_of p) st in
  map fl_size (fdnLines st')
  = map (fun b => Num (IZR (Int_part (b * mr)))) fdnBaseSizes /\
  map (fun l => Z.of_nat (length (fl_buffer l))) (fdnLines st')
  = repeat 8192%Z 8.
Proof.
  intros C L M st'. unfold st', Node.receive. rewrite assign_object_of.
  pose proof (onmessage_update sampleRate rnd p st md L) as U.
  destruct (update_Some sampleRate rnd (set_params p st) md L)
    as [st1 [E [_ [_ [S _]]]]].
  rewrite U in E. injection E as <-.
  split.
  - rewrite S. change (params (set_params p st)) with p. rewrite M.
    change (fdnLines (set_params p st)) with (fdnLines st).
    destruct C as [Cb _].
    rewrite <- (map_map fl_baseSize
                  (fun b => JS.Math_floor (b * Num mr)%js)), Cb, map_map.
    reflexivity.
  - apply (onmessage_constructed sampleRate rnd p st C).
Qed.

(** X25.  Five of the eight shipped presets keep the feedback delay
    network within its buffers and three do not: once a constructed
    processor has received small-room, bright-plate, dark-plate,
    tight-drums or vocal-shimmer, every line length is between 1 and
    the 8192 cells of its buffer; once it has received medium-hall,
    large-hall or ambient-wash, its longest line is longer than its
    buffer. *)
Theorem shipped_presets_and_buffers
  (sampleRate : R) (rnd : nat -> R) (st : Engine)
  (name : Node.string) (p : Params) :
  constructed_lines st -> Node.own Node.presets name = Some p ->
  (In name ["small-room"%string; "bright-plate"%string; "dark-plate"%string;
            "tight-drums"%string; "vocal-shimmer"%string] ->
   Forall (fun l => exists n : Z,
               fl_size l = Num (IZR n) /\
               (1 <= n <= Z.of_nat (length (fl_buffer l)))%Z)
          (fdnLines (Node.receive sampleRate rnd (Node.object_of p) st))) /\
  (In name ["medium-hall"%string; "large-hall"%string;
            "ambient-wash"%string] ->
   Exists (fun l => exists n : Z,
               fl_size l = Num (IZR n) /\
               (Z.of_nat (length (fl_buffer l)) < n)%Z)
          (fdnLines (Node.receive sampleRate rnd (Node.object_of p) st))).
Proof.
  intros C Hp.
  assert (Fit : forall md mr,
             lookup_mode (mode p) = Some md -> sizeMultiplier p md = Num mr ->
             0.15 <= mr -> 3989 * mr < 8193 ->
             Forall (fun l => exists n : Z,
                         fl_size l = Num (IZR n) /\
                         (1 <= n <= Z.of_nat (length (fl_buffer l)))%Z)
                    (fdnLines (Node.receive sampleRate rnd (Node.object_of p) st))).
  { intros md mr L M Lo Hi.
    destruct (received_line_sizes sampleRate rnd st p md mr C L M) as [S B].
    cbv zeta in S, B.
    apply Forall_forall. intros l Hin.
    destruct (In_nth_error _ _ Hin) as [j Hj].
    assert (Hs : nth_error (map fl_size (fdnLines
                   (Node.receive sampleRate rnd (Node.object_of p) st))) j
                 = Some (fl_size l))
      by (rewrite nth_error_map, Hj; reflexivity).
    assert (Hb : nth_error (map (fun l => Z.of_nat (length (fl_buffer l)))
                   (fdnLines (Node.receive sampleRate rnd (Node.object_of p) st))) j
                 = Some (Z.of_nat (length (fl_buffer l))))
      by (rewrite nth_error_map, Hj; reflexivity).
    rewrite S in Hs. rewrite B in Hb.
    apply nth_error_In in Hb. apply repeat_spec in Hb.
    destruct (nth_error_of_map _ _ _ j _ eq_refl Hs) as [b [Hnb Eb]].
    pose proof (fdnBaseSizes_range b (nth_error_In _ _ Hnb)) as Rb.
    exists (Int_part (b * mr)). split; [symmetry; exact Eb|].
    rewrite Hb. destruct (base_Int_part (b * mr)) as [I1 I2].
    assert (P : 1 < b * mr < 8193) by nra.
    split.
    - assert (Q : IZR 0 < IZR (Int_part (b * mr))) by lra.
      apply lt_IZR in Q. lia.
    - assert (Q : IZR (Int_part (b * mr)) < IZR 8193) by lra.
      apply lt_IZR in Q. lia. }
  assert (Over : forall md mr,
             lookup_mode (mode p) = Some md -> sizeMultiplier p md = Num mr ->
             8193 <= 3989 * mr ->
             Exists (fun l => exists n : Z,
                         fl_size l = Num (IZR n) /\
                         (Z.of_nat (length (fl_buffer l)) < n)%Z)
                    (fdnLines (Node.receive sampleRate rnd (Node.object_of p) st))).
  { intros md mr L M Hi.
    destruct (received_line_sizes sampleRate rnd st p md mr C L M) as [S B].
    cbv zeta in S, B.
    assert (Hs : nth_error (map fl_size (fdnLines
                   (Node.receive sampleRate rnd (Node.object_of p) st))) 7
                 = Some (Num (IZR (Int_part (3989 * mr)))))
      by (rewrite S; reflexivity).
    destruct (nth_error_of_map _ _ _ 7%nat _ eq_refl Hs) as [l [Hl El]].
    assert (Hb : nth_error (map (fun l => Z.of_nat (length (fl_buffer l)))
                   (fdnLines (Node.receive sampleRate rnd (Node.object_of p) st))) 7
                 = Some (Z.of_nat (length (fl_buffer l))))
      by (rewrite nth_error_map, Hl; reflexivity).
    rewrite B in Hb. apply nth_error_In in Hb. apply repeat_spec in Hb.
    apply Exists_exists. exists l. split; [eapply nth_error_In, Hl|].
    exists (Int_part (3989 * mr)). split; [exact El|].
    rewrite Hb. destruct (base_Int_part (3989 * mr)) as [I1 I2].
    assert (Q : IZR 8192 < IZR (Int_part (3989 * mr))) by lra.
    apply lt_IZR in Q. exact Q. }
  split; intros Hin; cbn [In] in Hin;
    repeat destruct Hin as [<- | Hin]; try contradiction;
    cbn [Node.own Node.presets String.eqb Ascii.eqb Bool.eqb] in Hp;
    injection Hp as <-.
  - apply (Fit (mkMode (Num 0.5) (Num 0.65) (Num 0.85) (Num 0.08))
               ((0.3 + 0.3 * 1.7) * 0.5));
      [apply (lookup_mode_valid 2); lia | reflexivity | lra | lra].
  - apply (Fit (mkMode (Num 0.9) (Num 0.75) (Num 0.88) (Num 0.06))
               ((0.3 + 0.65 * 1.7) * 0.9));
      [apply (lookup_mode_valid 0); lia | reflexivity | lra | lra].
  - apply (Fit (mkMode (Num 0.9) (Num 0.75) (Num 0.88) (Num 0.06))
               ((0.3 + 0.7 * 1.7) * 0.9));
      [apply (lookup_mode_valid 0); lia | reflexivity | lra | lra].
  - apply (Fit (mkMode (Num 0.5) (Num 0.65) (Num 0.85) (Num 0.08))
               ((0.3 + 0.25 * 1.7) * 0.5));
      [apply (lookup_mode_valid 2); lia | reflexivity | lra | lra].
  - apply (Fit (mkMode (Num 0.9) (Num 0.75) (Num 0.88) (Num 0.06))
               ((0.3 + 0.6 * 1.7) * 0.9));
      [apply (lookup_mode_valid 0); lia | reflexivity | lra | lra].
  - apply (Over (mkMode (Num 1.4) (Num 0.7) (Num 0.92) (Num 0.04))
                ((0.3 + 0.7 * 1.7) * 1.4));
      [apply (lookup_mode_valid 1); lia | reflexivity | lra].
  - apply (Over (mkMode (Num 1.4) (Num 0.7) (Num 0.92) (Num 0.04))
                ((0.3 + 0.9 * 1.7) * 1.4));
      [apply (lookup_mode_valid 1); lia | reflexivity | lra].
  - apply (Over (mkMode (Num 2.0) (Num 0.8) (Num 0.95) (Num 0.03))
                ((0.3 + 0.95 * 1.7) * 2.0));
      [apply (lookup_mode_valid 3); lia | reflexivity | lra].
Qed.

Lemma shipped_presets_and_buffers_witness :
  exists p,
    Node.own Node.presets "medium-hall"%string = Some p /\
    Exists (fun l => exists n : Z,
                fl_size l = Num (IZR n) /\
                (Z.of_nat (length (fl_buffer l)) < n)%Z)
           (fdnLines (Node.receive 48000 (fun _ => 0) (Node.object_of p)
                        (construct 48000 (fun _ => 0)))).
Proof.
  eexists. split; [reflexivity|].
  apply (shipped_presets_and_buffers 48000 (fun _ => 0)
           (construct 48000 (fun _ => 0)) "medium-hall"%string).
  - apply construct_constructed.
  - reflexivity.
  - cbn. tauto.
Defined.

(** ** Mode names *)

(** X26.  [setMode] sets the index of the name: when the lower-cased
    name is one of the four entries of its table, the index found there
    passes the clamp of the mode setter unchanged, becomes the node's
    mode and is posted, and the processor has a preset for it. *)
Theorem setMode_sets_the_index
  (toLowerCase : Node.string -> Node.string)
  (modeName : Node.string) (idx : num) (n : Node.QuadraVerbNode) :
  Node.own Node.modeNames (toLowerCase modeName) = Some idx ->
  mode (Node.getParameters (Node.setMode toLowerCase modeName n)) = idx /\
  Node.port (Node.setMode toLowerCase modeName n)
  = Node.port n ++ [[(Node.modeF, idx)]] /\
  exists md, lookup_mode idx = Some md.
Proof.
  intros H. unfold Node.setMode, Node.lookup. rewrite H.
  assert (K : forall k : Z,
             (0 <= k <= 3)%Z ->
             JS.Math_max (Num 0) (JS.Math_min (Num 3)
                                    (JS.Math_floor (Num (IZR k))))
             = Num (IZR k)).
  { intros k Hk. cbn [JS.Math_floor]. rewrite Int_part_IZR.
    rewrite Math_min_Num, Math_max_Num.
    assert (0 <= IZR k <= 3) by (split; apply IZR_le; lia).
    rewrite Rmin_right, Rmax_right by lra. reflexivity. }
  cbn [Node.own Node.modeNames] in H.
  destruct (String.eqb (toLowerCase modeName) "plate") eqn:E0;
    [|destruct (String.eqb (toLowerCase modeName) "hall") eqn:E1;
      [|destruct (String.eqb (toLowerCase modeName) "room") eqn:E2;
        [|destruct (String.eqb (toLowerCase modeName) "ambient") eqn:E3;
          [|discriminate]]]];
    injection H as <-;
    unfold Node.setter, Node.getParameters, Node.updateParameters;
    cbn [Node._params Node.port Node.set mode].
  - rewrite (K 0%Z) by lia.
    repeat split; try reflexivity.
    rewrite (lookup_mode_valid 0) by lia. eexists; reflexivity.
  - rewrite (K 1%Z) by lia.
    repeat split; try reflexivity.
    rewrite (lookup_mode_valid 1) by lia. eexists; reflexivity.
  - rewrite (K 2%Z) by lia.
    repeat split; try reflexivity.
    rewrite (lookup_mode_valid 2) by lia. eexists; reflexivity.
  - rewrite (K 3%Z) by lia.
    repeat split; try reflexivity.
    rewrite (lookup_mode_valid 3) by lia. eexists; reflexivity.
Qed.

Lemma setMode_sets_the_index_witness :
  mode (Node.getParameters
          (Node.setMode Node.asciiLowerCase "Ambient"%string
             (Node.new_QuadraVerbNode [])))
  = Num 3 /\
  Node.port (Node.setMode Node.asciiLowerCase "Ambient"%string
               (Node.new_QuadraVerbNode []))
  = Node.port (Node.new_QuadraVerbNode []) ++ [[(Node.modeF, Num 3)]] /\
  exists md, lookup_mode (Num 3) = Some md.
Proof.
  apply (setMode_sets_the_index Node.asciiLowerCase "Ambient"%string (Num 3)
           (Node.new_QuadraVerbNode [])).
  reflexivity.
Defined.

(** X27.  A name that lower-cases to a property every object inherits
    ([constructor] or [__proto__]) is not rejected by [setMode]: the
    node's mode becomes NaN and is posted, and the processor that
    receives it keeps the NaN mode while its recompute throws, so that
    no coefficient follows the parameters any more. *)
Theorem setMode_inherited_name
  (toLowerCase : Node.string -> Node.string)
  (modeName : Node.string) (n : Node.QuadraVerbNode)
  (sampleRate : R) (rnd : nat -> R) (st : Engine) :
  Node.inherited (toLowerCase modeName) = true ->
  mode (Node.getParameters (Node.setMode toLowerCase modeName n)) = NaN /\
  Node.port (Node.setMode toLowerCase modeName n)
  = Node.port n ++ [[(Node.modeF, NaN)]] /\
  updateInternalParams sampleRate rnd
    (set_params (Node.assign (params st) [(Node.modeF, NaN)]) st) = None /\
  Node.receive sampleRate rnd [(Node.modeF, NaN)] st
  = set_params (Node.assign (params st) [(Node.modeF, NaN)]) st.
Proof.
  intros H. unfold Node.setMode, Node.lookup.
  assert (O : Node.own Node.modeNames (toLowerCase modeName) = None).
  { unfold Node.inherited in H. apply orb_true_iff in H.
    destruct H as [H | H]; apply String.eqb_eq in H; rewrite H; reflexivity. }
  rewrite O, H.
  assert (U : updateInternalParams sampleRate rnd
                (set_params (Node.assign (params st) [(Node.modeF, NaN)]) st)
              = None) by reflexivity.
  split; [reflexivity|]. split; [reflexivity|]. split; [exact U|].
  unfold Node.receive, onmessage. rewrite U. reflexivity.
Qed.

Lemma setMode_inherited_name_witness :
  mode (Node.getParameters
          (Node.setMode Node.asciiLowerCase "Constructor"%string
             (Node.new_QuadraVerbNode [])))
  = NaN /\
  Node.port (Node.setMode Node.asciiLowerCase "Constructor"%string
               (Node.new_QuadraVerbNode []))
  = Node.port (Node.new_QuadraVerbNode []) ++ [[(Node.modeF, NaN)]] /\
  updateInternalParams 48000 (fun _ => 0)
    (set_params (Node.assign (params (construct 48000 (fun _ => 0)))
                   [(Node.modeF, NaN)])
       (construct 48000 (fun _ => 0))) = None /\
  Node.receive 48000 (fun _ => 0) [(Node.modeF, NaN)]
    (construct 48000 (fun _ => 0))
  = set_params (Node.assign (params (construct 48000 (fun _ => 0)))
                  [(Node.modeF, NaN)])
      (construct 48000 (fun _ => 0)).
Proof.
  apply (setMode_inherited_name Node.asciiLowerCase "Constructor"%string
           (Node.new_QuadraVerbNode []) 48000 (fun _ => 0)
           (construct 48000 (fun _ => 0))).
  reflexivity.
Defined.

(** ** The pre-delay line *)

Lemma preDelay_step (sampleRate : R) (st : Engine) (l r : num) (i M : Z) :
  maxPreDelay st = Num (IZR M) ->
  Z.of_nat (length (preDelayBuffer st)) = M ->
  preDelayIndex st = Num (IZR i) -> (0 <= i < M)%Z ->
  let st' := fst (process_sample sampleRate st l r) in
  preDelayIndex st' = Num (IZR ((i + 1) mod M)) /\
  preDelayBuffer st'
  = list_set (Z.to_nat i)
      (((l - op_stateL (inputHP st)) + (r - op_stateR (inputHP st)))
       * Num 0.5)%js
      (preDelayBuffer st) /\
  maxPreDelay st' = maxPreDelay st /\ params st' = params st.
Proof.
  intros HM HL Hi Bi st'. unfold st', process_sample. cbv zeta.
  cbn [fst preDelayIndex preDelayBuffer maxPreDelay params].
  rewrite Hi, HM. cbn [JS.add]. rewrite <- plus_IZR.
  rewrite rem_int by lia. rewrite Z.rem_mod_nonneg by lia.
  unfold f32_set. rewrite as_index_IZR by lia.
  repeat split; reflexivity.
Qed.

Lemma preDelay_steps (sampleRate : R) (frames : list (num * num)) :
  forall (st : Engine) (i M : Z),
    maxPreDelay st = Num (IZR M) ->
    Z.of_nat (length (preDelayBuffer st)) = M ->
    preDelayIndex st = Num (IZR i) -> (0 <= i < M)%Z ->
    let st' := fst (process_samples sampleRate st frames) in
    preDelayIndex st' = Num (IZR ((i + Z.of_nat (length frames)) mod M)) /\
    Z.of_nat (length (preDelayBuffer st')) = M /\
    maxPreDelay st' = maxPreDelay st /\ params st' = params st /\
    forall c : Z,
      (0 <= c < M)%Z ->
      (forall j, (0 <= j < Z.of_nat (length frames))%Z -> ((i + j) mod M)%Z <> c) ->
      nth (Z.to_nat c) (preDelayBuffer st') NaN
      = nth (Z.to_nat c) (preDelayBuffer st) NaN.
Proof.
  induction frames as [|[l r] t IH]; intros st i M HM HL Hi Bi st'.
  - subst st'. cbn [process_samples fst length].
    change (Z.of_nat 0) with 0%Z. rewrite Z.add_0_r, Z.mod_small by exact Bi.
    repeat split; try assumption; reflexivity.
  - destruct (preDelay_step sampleRate st l r i M HM HL Hi Bi)
      as [I1 [B1 [M1 P1]]].
    set (st1 := fst (process_sample sampleRate st l r)) in *.
    assert (L1 : Z.of_nat (length (preDelayBuffer st1)) = M)
      by (rewrite B1, list_set_length; exact HL).
    pose proof (Z.mod_pos_bound (i + 1) M ltac:(lia)) as Bm.
    destruct (IH st1 ((i + 1) mod M)%Z M ltac:(congruence) L1 I1 Bm)
      as [I2 [L2 [M2 [P2 F2]]]].
    subst st'. cbn [process_samples fst length]. cbv zeta. cbn [fst].
    fold st1.
    assert (Shift : forall j : Z,
               (((i + 1) mod M + j) mod M = (i + (1 + j)) mod M)%Z).
    { intros j. rewrite Z.add_mod_idemp_l by lia. f_equal. lia. }
    split; [rewrite I2, Shift; do 3 f_equal; lia|].
    split; [exact L2|]. split; [congruence|]. split; [congruence|].
    intros c Hc Hne. rewrite F2.
    + rewrite B1. apply nth_list_set_other.
      specialize (Hne 0%Z ltac:(lia)).
      rewrite Z.add_0_r, Z.mod_small in Hne by lia. lia.
    + exact Hc.
    + intros j Hj. rewrite Shift. apply Hne. lia.
Qed.

Lemma process_sample_hands_on_preDelayed (sampleRate : R) (st : Engine)
      (l r : num) :
  earlyDelays (fst (process_sample sampleRate st l r))
  = map (early_write (preDelayedOf sampleRate st)) (earlyDelays st).
Proof. reflexivity. Qed.

(** X28.  The pre-delay line delays by exactly its time, except that a
    time of zero delays by the whole line: with [t] the pre-delay time
    in samples and [M] the length of the line, [0 <= t <= M], after [t]
    frames ([M] frames when [t = 0]) have been processed the line hands
    on the high-passed mono sum of the first of them. *)
Theorem preDelay_delays_by_its_time
  (sampleRate : R) (st : Engine) (l r : num) (rest : list (num * num))
  (i M t : Z) :
  maxPreDelay st = Num (IZR M) ->
  Z.of_nat (length (preDelayBuffer st)) = M ->
  preDelayIndex st = Num (IZR i) -> (0 <= i < M)%Z ->
  JS.Math_floor ((preDelayMs (params st) / Num 1000) * Num sampleRate)%js
  = Num (IZR t) ->
  (0 <= t <= M)%Z ->
  Z.of_nat (length ((l, r) :: rest)) = (if (t =? 0)%Z then M else t) ->
  preDelayedOf sampleRate
    (fst (process_samples sampleRate st ((l, r) :: rest)))
  = (((l - op_stateL (inputHP st)) + (r - op_stateR (inputHP st)))
     * Num 0.5)%js.
Proof.
  intros HM HL Hi Bi Ht Bt Len.
  destruct (preDelay_step sampleRate st l r i M HM HL Hi Bi)
    as [I1 [B1 [M1 P1]]].
  cbn [process_samples fst]. cbv zeta. cbn [fst].
  set (st1 := fst (process_sample sampleRate st l r)) in *.
  assert (L1 : Z.of_nat (length (preDelayBuffer st1)) = M)
    by (rewrite B1, list_set_length; exact HL).
  pose proof (Z.mod_pos_bound (i + 1) M ltac:(lia)) as Bm.
  destruct (preDelay_steps sampleRate rest st1 ((i + 1) mod M)%Z M
              ltac:(congruence) L1 I1 Bm) as [I2 [L2 [M2 [P2 F2]]]].
  set (st2 := fst (process_samples sampleRate st1 rest)) in *.
  set (d := Z.of_nat (length rest)) in *.
  assert (Hd : (0 <= d < M)%Z /\ ((1 + d) mod M = t mod M)%Z).
  { cbn [length] in Len. rewrite Nat2Z.inj_succ in Len. fold d in Len.
    destruct (Z.eqb_spec t 0) as [->|N].
    - split; [lia|]. replace (1 + d)%Z with M by lia.
      rewrite Z.mod_same, Z.mod_0_l by lia. reflexivity.
    - split; [lia|]. f_equal. lia. }
  destruct Hd as [Bd Ed].
  unfold preDelayedOf. rewrite P2, P1, Ht, I2, M2, M1, HM.
  cbn [JS.sub JS.neg JS.add]. rewrite <- opp_IZR, <- !plus_IZR.
  pose proof (Z.mod_pos_bound ((i + 1) mod M + d) M ltac:(lia)) as Br.
  rewrite rem_int by lia. rewrite Z.rem_mod_nonneg by lia.
  assert (R : ((((i + 1) mod M + d) mod M + - t + M) mod M = i)%Z).
  { rewrite Z.add_mod_idemp_l by lia.
    rewrite <- Z.add_assoc, Z.add_mod_idemp_l by lia.
    replace (i + 1 + d + (- t + M))%Z with ((i + (- t + M)) + (1 + d))%Z by lia.
    rewrite <- Z.add_mod_idemp_r, Ed, Z.add_mod_idemp_r by lia.
    replace (i + (- t + M) + t)%Z with (i + 1 * M)%Z by lia.
    rewrite Z.mod_add by lia. apply Z.mod_small. lia. }
  rewrite R. unfold f32_get. rewrite as_index_IZR by lia.
  rewrite F2.
  - rewrite B1. apply nth_list_set. lia.
  - lia.
  - intros j Hj. rewrite Z.add_mod_idemp_l by lia.
    rewrite <- Z.add_assoc. apply mod_shift_ne; lia.
Qed.

Lemma preDelay_delays_by_its_time_witness :
  preDelayedOf 48000
    (fst (process_samples 48000
            (set_params (Node.set Node.preDelayMsF (Num 0.05) defaultParams)
               (initialEngine 48000 (fun _ => 0)))
            [(Num 1, Num 0.5); (Num 0, Num 0)]))
  = (((Num 1 - Num 0) + (Num 0.5 - Num 0)) * Num 0.5)%js.
Proof.
  apply (preDelay_delays_by_its_time 48000
           (set_params (Node.set Node.preDelayMsF (Num 0.05) defaultParams)
              (initialEngine 48000 (fun _ => 0)))
           (Num 1) (Num 0.5) [(Num 0, Num 0)] 0 9600 2).
  - cbn [set_params maxPreDelay initialEngine JS.mul JS.Math_floor].
    do 2 f_equal. apply floor_eq. lra.
  - cbn [set_params preDelayBuffer initialEngine JS.mul JS.Math_floor
         new_Float32Array].
    rewrite repeat_length.
    replace (Int_part (48000 * 0.2)) with 9600%Z
      by (symmetry; apply floor_eq; lra).
    rewrite Int_part_IZR. reflexivity.
  - reflexivity.
  - lia.
  - cbn. destruct (Req_dec_T 1000 0); [lra|]. cbn.
    do 2 f_equal. apply floor_eq. lra.
  - lia.
  - reflexivity.
Defined.
